(** * Subgraph auto-mocking proxy: a shallow embedding of its routing core

    The development follows the TypeScript sources of the proxy:
    - [config/subgraphConfig.ts]            -> [Module Config]
    - [services/SubgraphHealthMonitor.ts]   -> [Module SubgraphHealthMonitor]
    - [services/SubgraphRegistry.ts]        -> [Module SubgraphRegistry]
    - [services/IntrospectionService.ts]    -> [Module IntrospectionService]
    - [services/SchemaCache.ts]             -> [Module SchemaCache]
    - [utils/queryUtils.ts]                 -> [Module QueryUtils]
    - [handlers/PassThroughHandler.ts]      -> [Module PassThroughHandler]
    - [middleware/urlDecoder.ts], [server.ts] -> [Module Server]
    - [utils/healthCheck.ts], the [/health] route -> [Module HealthCheck]
    - [handlers/MockHandler.ts]             -> [Module MockHandler]
    - [services/SubgraphInitializer.ts]     -> [Module SubgraphInitializer]
    The requests of the schema registry client ([services/ApolloClient.ts]),
    the GraphQL library and the mock generator are not part of it: what the
    cache and the handlers ask of them is a field of [SchemaCache.Sources]
    or of the handler that calls them.

    Conventions.  A JavaScript [number] that holds a count or a time in
    milliseconds is a [Z]; [string | undefined] is [option string]; a [Map]
    keyed by strings is a [gmap string _] unless its iteration order is
    observed, in which case it is an association list in insertion order.
    Calls that leave the process (HTTP, file system, the registry client)
    are oracles passed as arguments, and the requests a function performs
    are returned as a trace next to its result. *)

From Stdlib Require Import ZArith Bool List Ascii String Lia.
From stdpp Require Import base option list gmap strings pretty.

Local Open Scope Z_scope.

(** ** JavaScript coercions used by the sources *)

Module JS.

(** [!!s] for a value of type [string | undefined]: the empty string and
    [undefined] are falsy. *)
Definition truthy (s : option string) : bool :=
  match s with
  | Some s' => negb (String.eqb s' EmptyString)
  | None => false
  end.

(** The value of a [string | undefined] when it is truthy. *)
Definition nonempty (s : option string) : option string :=
  if truthy s then s else None.

(** [!!n] for an integral [number]. *)
Definition truthyZ (n : Z) : bool := negb (n =? 0).

(** Objects and [Map]s whose key order is observable: association lists in
    insertion order.  [obj_set] is [o[k] = v] and [Map.prototype.set]: an
    existing key keeps its position, a new key goes last. *)
Fixpoint obj_set {A : Type} (k : string) (v : A) (o : list (string * A))
    : list (string * A) :=
  match o with
  | [] => [(k, v)]
  | (k', v') :: rest =>
      if String.eqb k' k then (k, v) :: rest else (k', v') :: obj_set k v rest
  end.

(** [o[k]] and [Map.prototype.get] *)
Fixpoint obj_get {A : Type} (k : string) (o : list (string * A)) : option A :=
  match o with
  | [] => None
  | (k', v') :: rest => if String.eqb k' k then Some v' else obj_get k rest
  end.

(** [{ ...a, ...b }] onto an object [a]: the entries of [b] assigned in order. *)
Definition obj_spread {A : Type} (a b : list (string * A)) : list (string * A) :=
  fold_left (fun acc kv => obj_set (fst kv) (snd kv) acc) b a.

(** [Map.prototype.delete] *)
Fixpoint obj_delete {A : Type} (k : string) (o : list (string * A))
    : list (string * A) :=
  match o with
  | [] => []
  | (k', v') :: rest =>
      if String.eqb k' k then rest else (k', v') :: obj_delete k rest
  end.

End JS.

(** ** config/subgraphConfig.ts *)

Module Config.

Inductive SchemaSource := local_introspection | apollo_registry | unknown_source.

Inductive SubgraphStatus := available | unavailable | mocking | unknown.

Record SubgraphConfigItem := {
  forceMock : bool;
  disableMocking : bool;
  useLocalSchema : bool;
  cfg_url : option string;
  schemaFile : option string;
  introspectionHeaders : option (list (string * string));
  maxRetries : Z;
  retryDelayMs : Z;
  healthCheckIntervalMs : Z
}.

Record SubgraphState := {
  sg_name : string;
  sg_url : option string;
  status : SubgraphStatus;
  schemaSource : SchemaSource;
  isMocking : bool;
  isHealthy : bool;
  lastHealthCheck : option Z;
  consecutiveFailures : Z;
  config : SubgraphConfigItem
}.

Definition DEFAULT_SUBGRAPH_CONFIG : SubgraphConfigItem := {|
  forceMock := false;
  disableMocking := false;
  useLocalSchema := false;
  cfg_url := None;
  schemaFile := None;
  introspectionHeaders := None;
  maxRetries := 2;
  retryDelayMs := 1000;
  healthCheckIntervalMs := 30000
|}.

(** The [refine] clause and the numeric ranges of [SubgraphConfigItemSchema]. *)
Definition valid_config (c : SubgraphConfigItem) : bool :=
  negb (forceMock c && disableMocking c)
  && (0 <=? maxRetries c) && (maxRetries c <=? 10)
  && (100 <=? retryDelayMs c) && (retryDelayMs c <=? 30000)
  && (5000 <=? healthCheckIntervalMs c) && (healthCheckIntervalMs c <=? 300000).

(** The answer of [determineRoutingBehavior]. *)
Record RoutingBehavior := {
  shouldMock : bool;
  shouldPassthrough : bool;
  rb_schemaSource : SchemaSource
}.

(** [determineRoutingBehavior]: the five rules, in the order of the source. *)
Definition determineRoutingBehavior (cfg : SubgraphConfigItem) (healthy : bool)
    (failures : Z) : RoutingBehavior :=
  let source := if useLocalSchema cfg then local_introspection else apollo_registry in
  if forceMock cfg then
    {| shouldMock := true; shouldPassthrough := false; rb_schemaSource := source |}
  else if disableMocking cfg then
    {| shouldMock := false; shouldPassthrough := true; rb_schemaSource := source |}
  else if healthy then
    {| shouldMock := false; shouldPassthrough := true; rb_schemaSource := source |}
  else if maxRetries cfg <=? failures then
    {| shouldMock := true; shouldPassthrough := false; rb_schemaSource := source |}
  else
    {| shouldMock := false; shouldPassthrough := true; rb_schemaSource := source |}.

End Config.

(** ** services/SubgraphHealthMonitor.ts *)

Module SubgraphHealthMonitor.
Import Config.

(** What [httpClient.post] does with one request: it resolves with a
    response carrying a status code, or it rejects. *)
Inductive HttpOutcome :=
| HttpStatus (code : Z)
| HttpRejected.

(** The endpoint is typed [string] in the sources; [SubgraphRegistry] passes
    [subgraph.url!], which is [undefined] at run time for a subgraph that
    has no URL, hence the [option]. *)
Record HttpCall := { call_endpoint : option string; call_timeout : Z }.

(** The HTTP client: endpoint and timeout to outcome. *)
Definition HttpClient := option string -> Z -> HttpOutcome.

Record HealthCheckResult := {
  result_isHealthy : bool;
  result_timestamp : Z
}.

(** The two private maps of the class.  A timer is recorded by its period. *)
Record Monitor := {
  states : gmap string SubgraphState;
  healthCheckIntervals : gmap string Z
}.

Definition empty_monitor : Monitor :=
  {| states := ∅; healthCheckIntervals := ∅ |}.

Definition getState (m : Monitor) (name : string) : option SubgraphState :=
  states m !! name.

Definition stopHealthChecks (name : string) (m : Monitor) : Monitor :=
  match healthCheckIntervals m !! name with
  | Some _ =>
      {| states := states m;
         healthCheckIntervals := delete name (healthCheckIntervals m) |}
  | None => m
  end.

Definition startHealthChecks (name : string) (m : Monitor) : Monitor :=
  match states m !! name with
  | None => m
  | Some state =>
      if negb (JS.truthyZ (healthCheckIntervalMs (config state))) then m
      else
        let m1 := stopHealthChecks name m in
        {| states := states m1;
           healthCheckIntervals :=
             <[name := healthCheckIntervalMs (config state)]>
               (healthCheckIntervals m1) |}
  end.

(** The [initialState] object of [registerSubgraph]. *)
Definition initialState (name : string) (url : option string)
    (cfg : SubgraphConfigItem) : SubgraphState :=
  {| sg_name := name;
     sg_url := url;
     status := unknown;
     schemaSource := if useLocalSchema cfg then local_introspection else apollo_registry;
     isMocking := if forceMock cfg || negb (JS.truthy url) then true else false;
     isHealthy := false;
     lastHealthCheck := None;
     consecutiveFailures := 0;
     config := cfg |}.

Definition registerSubgraph (name : string) (url : option string)
    (cfg : SubgraphConfigItem) (m : Monitor) : Monitor :=
  let m1 := {| states := <[name := initialState name url cfg]> (states m);
               healthCheckIntervals := healthCheckIntervals m |} in
  if negb (forceMock cfg) then startHealthChecks name m1 else m1.

(** [checkEndpointHealth]: one POST; healthy iff it resolves with status 200. *)
Definition checkEndpointHealth (http : HttpClient) (endpoint : option string)
    (timeoutMs : Z) : bool * list HttpCall :=
  let call := {| call_endpoint := endpoint; call_timeout := timeoutMs |} in
  match http endpoint timeoutMs with
  | HttpStatus code => (code =? 200, [call])
  | HttpRejected => (false, [call])
  end.

(** The assignments [updateStateFromHealthCheck] makes to the state object. *)
Definition probe_update (result : HealthCheckResult) (state : SubgraphState)
    : SubgraphState :=
  if result_isHealthy result then
    {| sg_name := sg_name state;
       sg_url := sg_url state;
       status := available;
       schemaSource := schemaSource state;
       isMocking := forceMock (config state) || false;
       isHealthy := true;
       lastHealthCheck := Some (result_timestamp result);
       consecutiveFailures := 0;
       config := config state |}
  else
    let failures := consecutiveFailures state + 1 in
    let shouldMock :=
      forceMock (config state)
      || (negb (disableMocking (config state))
          && (maxRetries (config state) <=? failures)) in
    {| sg_name := sg_name state;
       sg_url := sg_url state;
       status := if shouldMock then mocking else unavailable;
       schemaSource := schemaSource state;
       isMocking := if shouldMock then true else isMocking state;
       isHealthy := false;
       lastHealthCheck := Some (result_timestamp result);
       consecutiveFailures := failures;
       config := config state |}.

Definition updateStateFromHealthCheck (name : string)
    (result : HealthCheckResult) (m : Monitor) : Monitor :=
  match states m !! name with
  | None => m
  | Some state =>
      {| states := <[name := probe_update result state]> (states m);
         healthCheckIntervals := healthCheckIntervals m |}
  end.

Inductive CheckOutcome :=
| NotRegistered (name : string)
| Checked (result : HealthCheckResult).

(** [checkHealth]: the probe is skipped when the state has no (truthy) URL.
    [timeoutMs] is [env.SUBGRAPH_HEALTH_TIMEOUT_MS], [now] the clock. *)
Definition checkHealth (http : HttpClient) (timeoutMs now : Z) (name : string)
    (m : Monitor) : CheckOutcome * Monitor * list HttpCall :=
  match states m !! name with
  | None => (NotRegistered name, m, [])
  | Some state =>
      let '(healthy, calls) :=
        match JS.nonempty (sg_url state) with
        | Some u => checkEndpointHealth http (Some u) timeoutMs
        | None => (false, [])
        end in
      let healthResult := {| result_isHealthy := healthy; result_timestamp := now |} in
      (Checked healthResult, updateStateFromHealthCheck name healthResult m, calls)
  end.

(** The assignments [setHealth] makes to the state object. *)
Definition manual_update (healthy : bool) (state : SubgraphState) : SubgraphState :=
  if healthy then
    {| sg_name := sg_name state;
       sg_url := sg_url state;
       status := available;
       schemaSource := schemaSource state;
       isMocking := forceMock (config state) || false;
       isHealthy := true;
       lastHealthCheck := lastHealthCheck state;
       consecutiveFailures := 0;
       config := config state |}
  else
    let failures := consecutiveFailures state + 1 in
    let toMocking :=
      (maxRetries (config state) <=? failures)
      && negb (disableMocking (config state)) in
    {| sg_name := sg_name state;
       sg_url := sg_url state;
       status := if toMocking then mocking else unavailable;
       schemaSource := schemaSource state;
       isMocking := if toMocking then true else isMocking state;
       isHealthy := false;
       lastHealthCheck := lastHealthCheck state;
       consecutiveFailures := failures;
       config := config state |}.

Definition setHealth (name : string) (healthy : bool) (m : Monitor) : Monitor :=
  match states m !! name with
  | None => m
  | Some state =>
      {| states := <[name := manual_update healthy state]> (states m);
         healthCheckIntervals := healthCheckIntervals m |}
  end.

(** The public operations that change the monitor, as a step function. *)
Inductive Op :=
| OpRegister (name : string) (url : option string) (cfg : SubgraphConfigItem)
| OpCheckHealth (http : HttpClient) (timeoutMs now : Z) (name : string)
| OpSetHealth (name : string) (healthy : bool).

Definition step (m : Monitor) (op : Op) : Monitor :=
  match op with
  | OpRegister name url cfg => registerSubgraph name url cfg m
  | OpCheckHealth http timeoutMs now name =>
      snd (fst (checkHealth http timeoutMs now name m))
  | OpSetHealth name healthy => setHealth name healthy m
  end.

Definition run (ops : list Op) (m : Monitor) : Monitor := fold_left step ops m.

Inductive reachable : Monitor -> Prop :=
| reachable_empty : reachable empty_monitor
| reachable_step m op : reachable m -> reachable (step m op).

(** A completed probe or a manual override, seen as an event on one subgraph. *)
Inductive HealthEvent :=
| Probe (result : HealthCheckResult)
| Manual (healthy : bool).

Definition event_healthy (e : HealthEvent) : bool :=
  match e with
  | Probe r => result_isHealthy r
  | Manual b => b
  end.

Definition apply_event (name : string) (m : Monitor) (e : HealthEvent) : Monitor :=
  match e with
  | Probe r => updateStateFromHealthCheck name r m
  | Manual b => setHealth name b m
  end.

Definition apply_events (name : string) (es : list HealthEvent) (m : Monitor) : Monitor :=
  fold_left (apply_event name) es m.

Definition event_update (e : HealthEvent) (state : SubgraphState) : SubgraphState :=
  match e with
  | Probe r => probe_update r state
  | Manual b => manual_update b state
  end.

(** Calls of [checkHealth] in a row, one per clock reading in [nows], with
    the requests they made. *)
Fixpoint checkHealth_seq (http : HttpClient) (timeoutMs : Z) (nows : list Z)
    (name : string) (m : Monitor) : Monitor * list HttpCall :=
  match nows with
  | [] => (m, [])
  | now :: nows' =>
      let '(_, m1, calls1) := checkHealth http timeoutMs now name m in
      let '(m2, calls2) := checkHealth_seq http timeoutMs nows' name m1 in
      (m2, calls1 ++ calls2)
  end.

(** Whether an operation (re-)registers [name]. *)
Definition registers (name : string) (op : Op) : bool :=
  match op with
  | OpRegister n _ _ => String.eqb n name
  | _ => false
  end.

(** Whether an operation is a registration. *)
Definition registers_any (op : Op) : bool :=
  match op with
  | OpRegister _ _ _ => true
  | _ => false
  end.

(** [shutdown]: every timer is stopped, then the states are cleared.  The
    source walks the keys of the timer table in insertion order; the
    outcome does not depend on the order. *)
Definition shutdown (m : Monitor) : Monitor :=
  let m1 := fold_left (fun acc name => stopHealthChecks name acc)
              (List.map fst (map_to_list (healthCheckIntervals m))) m in
  {| states := ∅; healthCheckIntervals := healthCheckIntervals m1 |}.

(** Whether a probe or an override has touched the state since its
    registration. *)
Definition probed (st : SubgraphState) : bool :=
  match status st with
  | unknown => false
  | _ => true
  end.

End SubgraphHealthMonitor.

(** ** services/SubgraphRegistry.ts *)

Module SubgraphRegistry.
Import Config.

(** [SubgraphInfo]: name and URL; the health state is read from the monitor
    under [info_name] on every access. *)
Record SubgraphInfo := {
  info_name : string;
  info_url : option string
}.

(** The registry [Map], in insertion order, next to the monitor it feeds. *)
Record Registry := {
  registry : list (string * SubgraphInfo);
  healthMonitor : SubgraphHealthMonitor.Monitor;
  healthTimeoutMs : Z
}.

Definition getState (r : Registry) (s : SubgraphInfo) : option SubgraphState :=
  SubgraphHealthMonitor.getState (healthMonitor r) (info_name s).

(** The getters of [SubgraphInfo]: [getState()?.field ?? false]. *)
Definition isAvailable (r : Registry) (s : SubgraphInfo) : bool :=
  match getState r s with
  | Some st => isHealthy st
  | None => false
  end.

Definition info_isMocking (r : Registry) (s : SubgraphInfo) : bool :=
  match getState r s with
  | Some st => isMocking st
  | None => false
  end.

(** [===] on [string | undefined]. *)
Definition url_eqb (a b : option string) : bool :=
  match a, b with
  | Some x, Some y => String.eqb x y
  | None, None => true
  | _, _ => false
  end.

Definition getSubgraphByUrl (r : Registry) (url : option string) : option SubgraphInfo :=
  List.find (fun s => url_eqb (info_url s) url) (List.map snd (registry r)).

Definition getSubgraphByName (r : Registry) (name : string) : option SubgraphInfo :=
  JS.obj_get name (registry r).

Definition registerSubgraph (name : string) (url : option string)
    (cfg : option SubgraphConfigItem) (r : Registry) : option Registry :=
  if negb (JS.truthy (Some name)) then None
  else
    let subgraphConfig := match cfg with Some c => c | None => DEFAULT_SUBGRAPH_CONFIG end in
    let hm := SubgraphHealthMonitor.registerSubgraph name url subgraphConfig (healthMonitor r) in
    Some {| registry := JS.obj_set name {| info_name := name; info_url := url |} (registry r);
            healthMonitor := hm;
            healthTimeoutMs := healthTimeoutMs r |}.

(** [isSubgraphAvailable]: the cached flag for a URL found in the registry,
    a one-time probe for a URL that is not.  The argument is the value the
    caller passes, which [shouldPassthroughToSubgraph] takes from
    [subgraph.url!] and so may be [undefined]. *)
Definition isSubgraphAvailable (http : SubgraphHealthMonitor.HttpClient)
    (r : Registry) (url : option string)
    : bool * list SubgraphHealthMonitor.HttpCall :=
  match getSubgraphByUrl r url with
  | None => SubgraphHealthMonitor.checkEndpointHealth http url (healthTimeoutMs r)
  | Some subgraph => (isAvailable r subgraph, [])
  end.

(** The lookup at the head of [shouldPassthroughToSubgraph]: by name when
    a name is given, by URL otherwise. *)
Definition resolve_subgraph (r : Registry) (name url : option string)
    : option SubgraphInfo :=
  match JS.nonempty name with
  | Some n => getSubgraphByName r n
  | None =>
      match JS.nonempty url with
      | Some u => getSubgraphByUrl r (Some u)
      | None => None
      end
  end.

(** [shouldPassthroughToSubgraph]; [enabled] is [isPassthroughEnabled()]. *)
Definition shouldPassthroughToSubgraph (enabled : bool)
    (http : SubgraphHealthMonitor.HttpClient) (r : Registry)
    (name url : option string)
    : bool * list SubgraphHealthMonitor.HttpCall :=
  if negb enabled then (false, [])
  else
    match resolve_subgraph r name url with
    | None => (false, [])
    | Some subgraph =>
        if info_isMocking r subgraph then (false, [])
        else isSubgraphAvailable http r (info_url subgraph)
    end.

(** [checkAllSubgraphs], the body of the registry's periodic timer: a
    [checkHealth] of every registered name.  The checks run concurrently;
    each touches the state of its own name only, so their effect on the
    monitor is that of the checks taken in registry order.  [envTimeoutMs]
    is [env.SUBGRAPH_HEALTH_TIMEOUT_MS]. *)
Definition checkAllSubgraphs (http : SubgraphHealthMonitor.HttpClient)
    (envTimeoutMs now : Z) (r : Registry)
    : Registry * list SubgraphHealthMonitor.HttpCall :=
  let '(hm, calls) :=
    fold_left
      (fun acc entry =>
         let '(_, hm', calls') :=
           SubgraphHealthMonitor.checkHealth http envTimeoutMs now (fst entry) (fst acc) in
         (hm', snd acc ++ calls'))
      (registry r) (healthMonitor r, []) in
  ({| registry := registry r; healthMonitor := hm;
      healthTimeoutMs := healthTimeoutMs r |}, calls).

(** The probe the routing rule of the specification speaks of: a live POST
    to [u] answered with status 200. *)
Definition live_probe_ok (http : SubgraphHealthMonitor.HttpClient)
    (r : Registry) (u : string) : bool :=
  fst (SubgraphHealthMonitor.checkEndpointHealth http (Some u) (healthTimeoutMs r)).

Definition getAllSubgraphs (r : Registry) : list SubgraphInfo :=
  List.map snd (registry r).

Definition getSubgraphCount (r : Registry) : nat := List.length (registry r).

(** [unregisterSubgraph]: the answer of [Map.prototype.delete] and the
    registry afterwards.  The health monitor is not told. *)
Definition unregisterSubgraph (name : string) (r : Registry) : bool * Registry :=
  (match JS.obj_get name (registry r) with Some _ => true | None => false end,
   {| registry := JS.obj_delete name (registry r);
      healthMonitor := healthMonitor r;
      healthTimeoutMs := healthTimeoutMs r |}).

Definition clearAll (r : Registry) : Registry :=
  {| registry := [];
     healthMonitor := healthMonitor r;
     healthTimeoutMs := healthTimeoutMs r |}.

(** [new SubgraphRegistry(_, healthTimeoutMs)] *)
Definition new_registry (timeoutMs : Z) : Registry :=
  {| registry := [];
     healthMonitor := SubgraphHealthMonitor.empty_monitor;
     healthTimeoutMs := timeoutMs |}.

(** What happens to a registry while the proxy runs: the calls of its
    public methods, a turn of its periodic timer ([checkAllSubgraphs]),
    and a turn of one of the monitor's own timers ([checkHealth] of one
    name).  A [registerSubgraph] that throws leaves the registry as it
    was.  [setHealth], which the sources keep for tests, is not among
    them. *)
Inductive RegistryOp :=
| RegRegister (name : string) (url : option string) (cfg : option SubgraphConfigItem)
| RegUnregister (name : string)
| RegClearAll
| RegCheckAll (http : SubgraphHealthMonitor.HttpClient) (envTimeoutMs now : Z)
| RegMonitorTimer (http : SubgraphHealthMonitor.HttpClient) (envTimeoutMs now : Z)
                  (name : string).

Definition registry_step (r : Registry) (op : RegistryOp) : Registry :=
  match op with
  | RegRegister name url cfg =>
      match registerSubgraph name url cfg r with
      | Some r' => r'
      | None => r
      end
  | RegUnregister name => snd (unregisterSubgraph name r)
  | RegClearAll => clearAll r
  | RegCheckAll http envTimeoutMs now => fst (checkAllSubgraphs http envTimeoutMs now r)
  | RegMonitorTimer http envTimeoutMs now name =>
      {| registry := registry r;
         healthMonitor :=
           snd (fst (SubgraphHealthMonitor.checkHealth http envTimeoutMs now name
                       (healthMonitor r)));
         healthTimeoutMs := healthTimeoutMs r |}
  end.

Inductive registry_reachable : Registry -> Prop :=
| registry_reachable_new t : registry_reachable (new_registry t)
| registry_reachable_step r op :
    registry_reachable r -> registry_reachable (registry_step r op).

(** The outcome of the probe [checkHealth] makes of a subgraph with this URL. *)
Definition probe_outcome (http : SubgraphHealthMonitor.HttpClient) (timeoutMs : Z)
    (url : option string) : bool :=
  match JS.nonempty url with
  | Some u => fst (SubgraphHealthMonitor.checkEndpointHealth http (Some u) timeoutMs)
  | None => false
  end.

(** The request that probe sends, if any. *)
Definition probe_calls (timeoutMs : Z) (url : option string)
    : list SubgraphHealthMonitor.HttpCall :=
  match JS.nonempty url with
  | Some u => [{| SubgraphHealthMonitor.call_endpoint := Some u;
                  SubgraphHealthMonitor.call_timeout := timeoutMs |}]
  | None => []
  end.

End SubgraphRegistry.

(** ** JSON values, as the HTTP client hands them to the services *)

Module Json.

#[local] Unset Elimination Schemes.

Inductive json :=
| JUndefined
| JNull
| JBool (b : bool)
| JNum (n : Z)
| JStr (s : string)
| JArr (items : list json)
| JObj (fields : list (string * json)).

#[local] Set Elimination Schemes.

(** [!!v] *)
Definition truthy (v : json) : bool :=
  match v with
  | JUndefined | JNull => false
  | JBool b => b
  | JNum n => negb (n =? 0)
  | JStr s => negb (String.eqb s EmptyString)
  | JArr _ | JObj _ => true
  end.

Fixpoint lookup_field (k : string) (fields : list (string * json)) : json :=
  match fields with
  | [] => JUndefined
  | (k', v) :: rest => if String.eqb k' k then v else lookup_field k rest
  end.

(** [v.k]: a [TypeError] ([None]) on [null] and [undefined], [undefined]
    for a key that is absent or a receiver that is not an object. *)
Definition member (v : json) (k : string) : option json :=
  match v with
  | JUndefined | JNull => None
  | JObj fields => Some (lookup_field k fields)
  | _ => Some JUndefined
  end.

(** [v?.k] *)
Definition opt_member (v : json) (k : string) : json :=
  match member v k with
  | Some x => x
  | None => JUndefined
  end.

Definition is_nonempty_string (v : json) : bool :=
  match v with
  | JStr s => negb (String.eqb s EmptyString)
  | _ => false
  end.

End Json.

(** ** utils/queryUtils.ts

    Strings are sequences of ASCII code units: the character classes and
    the case mapping below are those of JavaScript restricted to codes
    below 128. *)

Module QueryUtils.

Definition nl : ascii := ascii_of_nat 10.

(** The template literal of the source after [.trim()]. *)
Definition FEDERATION_INTROSPECTION_QUERY : string :=
  "query SubgraphIntrospectQuery {" ++ String nl
    ("    # eslint-disable-next-line" ++ String nl
    ("    _service {" ++ String nl
    ("      sdl" ++ String nl
    ("    }" ++ String nl
     "  }")))).

(** The class [\s] *)
Definition is_space (c : ascii) : bool :=
  let n := nat_of_ascii c in
  ((9 <=? n)%nat && (n <=? 13)%nat) || (n =? 32)%nat.

Definition lower_ascii (c : ascii) : ascii :=
  let n := nat_of_ascii c in
  if ((65 <=? n)%nat && (n <=? 90)%nat)%bool then ascii_of_nat (n + 32) else c.

Fixpoint toLowerCase (s : string) : string :=
  match s with
  | EmptyString => EmptyString
  | String c rest => String (lower_ascii c) (toLowerCase rest)
  end.

(** [.replace(/#[^\n]*/g, '')]: [in_comment] is set from a [#] up to, and
    not including, the next newline. *)
Fixpoint strip_comments (in_comment : bool) (s : string) : string :=
  match s with
  | EmptyString => EmptyString
  | String c rest =>
      if Ascii.eqb c nl then String c (strip_comments false rest)
      else if in_comment then strip_comments true rest
      else if Ascii.eqb c "#"%char then strip_comments true rest
      else String c (strip_comments false rest)
  end.

(** [.replace(/\s+/g, '')] *)
Fixpoint strip_spaces (s : string) : string :=
  match s with
  | EmptyString => EmptyString
  | String c rest =>
      if is_space c then strip_spaces rest else String c (strip_spaces rest)
  end.

Definition normalizeQuery (query : string) : string :=
  toLowerCase (strip_spaces (strip_comments false query)).

Definition isIntrospectionQuery (query : string) : bool :=
  String.eqb (normalizeQuery query) (normalizeQuery FEDERATION_INTROSPECTION_QUERY).

(** Whether every character of a string satisfies [p]. *)
Fixpoint all_chars (p : ascii -> bool) (s : string) : bool :=
  match s with
  | EmptyString => true
  | String c rest => p c && all_chars p rest
  end.

Definition is_upper (c : ascii) : bool :=
  let n := nat_of_ascii c in ((65 <=? n)%nat && (n <=? 90)%nat)%bool.

(** A character that may stay in a normalized query. *)
Definition normal_char (c : ascii) : bool :=
  negb (is_space c) && negb (Ascii.eqb c "#"%char) && negb (is_upper c).

End QueryUtils.

(** ** Values thrown by the HTTP client *)

Module Axios.

(** A thrown value, reduced to what the handlers inspect: whether
    [axios.isAxiosError] holds of it, whether it is an [Error], its [code],
    the status and status text of its [response] when it has one, and its
    [message]. *)
Record JsError := {
  err_isAxios : bool;
  err_isError : bool;
  err_code : option string;
  err_response : option (Z * string);
  err_message : string
}.

Definition plain_error (msg : string) : JsError :=
  {| err_isAxios := false; err_isError := true; err_code := None;
     err_response := None; err_message := msg |}.

(** [error.code === c] *)
Definition code_is (e : JsError) (c : string) : bool :=
  match err_code e with
  | Some c' => String.eqb c' c
  | None => false
  end.

End Axios.

(** ** services/IntrospectionService.ts *)

Module IntrospectionService.
Import Json.
Import Axios.

Record RetryConfig := { maxRetries : Z; retryDelayMs : Z }.

(** The [duration] field (wall-clock time spent) is not modelled. *)
Record IntrospectionResult := {
  success : bool;
  sdl : json;
  error : option string
}.

(** [axios.post]: resolves with [response.data], or rejects. *)
Inductive AxiosOutcome :=
| Resolved (data : json)
| Rejected (e : JsError).

Inductive Event :=
| EvPost (endpoint : string) (query : string) (timeout : Z)
         (headers : list (string * string))
| EvDelay (ms : Z).

Definition INTROSPECTION_TIMEOUT_MS : Z := 10000.

Definition DEFAULT_RETRY_CONFIG : RetryConfig :=
  {| maxRetries := 3; retryDelayMs := 1000 |}.

(** The [TypeError] of reading [.sdl] off a missing [_service]. *)
Definition sdl_type_error (svc : json) : JsError :=
  plain_error
    match svc with
    | JNull => "Cannot read properties of null (reading 'sdl')"
    | _ => "Cannot read properties of undefined (reading 'sdl')"
    end.

(** [{ "Content-Type": "application/json", ...customHeaders }] *)
Definition request_headers (customHeaders : option (list (string * string)))
    : list (string * string) :=
  JS.obj_spread [("Content-Type"%string, "application/json"%string)]
    match customHeaders with
    | Some hs => hs
    | None => []
    end.

(** [performIntrospection], given what the POST did. *)
Definition performIntrospection (outcome : AxiosOutcome) : JsError + json :=
  match outcome with
  | Rejected e => inl e
  | Resolved body =>
      let data := opt_member body "data" in
      if negb (truthy data) then
        inl (plain_error "Invalid introspection response: missing data")
      else
        let svc := opt_member data "_service" in
        match member svc "sdl" with
        | Some v => inr v
        | None => inl (sdl_type_error svc)
        end
  end.

Definition getErrorMessage (e : JsError) : string :=
  if err_isAxios e then
    if code_is e "ECONNREFUSED" then
      "Connection refused - endpoint may not be running"
    else if code_is e "ETIMEDOUT" || code_is e "ECONNABORTED" then
      "Request timeout after " +:+ pretty INTROSPECTION_TIMEOUT_MS +:+ "ms"
    else
      match err_response e with
      | Some (st, txt) => "HTTP " +:+ pretty st +:+ ": " +:+ txt
      | None => err_message e
      end
  else if err_isError e then err_message e
  else "Unknown error".

(** The [for] loop of [introspect].  [post i] is what the [i]-th POST does;
    the loop counter is [attempt]; [fuel] bounds the unfolding. *)
Fixpoint introspect_loop (post : nat -> AxiosOutcome) (endpoint : string)
    (retryConfig : RetryConfig) (customHeaders : option (list (string * string)))
    (fuel : nat) (attempt : nat) : option (IntrospectionResult * list Event) :=
  match fuel with
  | O => None
  | S fuel' =>
      if Z.of_nat attempt <=? maxRetries retryConfig then
        let ev := EvPost endpoint QueryUtils.FEDERATION_INTROSPECTION_QUERY
                    INTROSPECTION_TIMEOUT_MS (request_headers customHeaders) in
        match performIntrospection (post attempt) with
        | inr v =>
            Some ({| success := true; sdl := v; error := None |}, [ev])
        | inl e =>
            if Z.of_nat attempt =? maxRetries retryConfig then
              Some ({| success := false; sdl := JUndefined;
                       error := Some (getErrorMessage e) |}, [ev])
            else
              match introspect_loop post endpoint retryConfig customHeaders
                      fuel' (S attempt) with
              | Some (r, tr) => Some (r, ev :: EvDelay (retryDelayMs retryConfig) :: tr)
              | None => None
              end
        end
      else
        Some ({| success := false; sdl := JUndefined;
                 error := Some "Introspection failed after all retries"%string |}, [])
  end.

Definition introspect_fuel (retryConfig : RetryConfig) : nat :=
  S (Z.to_nat (maxRetries retryConfig + 1)).

Definition introspect (post : nat -> AxiosOutcome) (endpoint : string)
    (retryConfig : RetryConfig) (customHeaders : option (list (string * string)))
    : option (IntrospectionResult * list Event) :=
  introspect_loop post endpoint retryConfig customHeaders
    (introspect_fuel retryConfig) 0.

Definition is_post (ev : Event) : bool :=
  match ev with
  | EvPost _ _ _ _ => true
  | EvDelay _ => false
  end.

Definition count_posts (tr : list Event) : nat :=
  List.length (List.filter is_post tr).

(** The trace of [k] attempts: a POST, then a delay and a POST per retry. *)
Fixpoint attempts_trace (post_ev : Event) (delay : Z) (k : nat) : list Event :=
  match k with
  | O => []
  | S O => [post_ev]
  | S k' => post_ev :: EvDelay delay :: attempts_trace post_ev delay k'
  end.

End IntrospectionService.

(** ** services/SchemaCache.ts *)

Module SchemaCache.
Import Json.

Section WithSchema.

(** [GraphQLSchema] objects are opaque to the cache. *)
Context {Schema : Type}.

Record CachedSchemaEntry := {
  schema : Schema;
  entry_sdl : string;
  version : string;
  lastFetched : Z;
  expiresAt : Z
}.

(** What the cache reaches outside the process for.  [readFile f] is
    [fs.readFile] of the file [f] of the [schemas] directory ([None] when
    it rejects); [buildSchema] is [parse] followed by
    [buildSubgraphSchema] ([None] when either throws);
    [fetchSubgraphSchema] and [generateSchemaHash] belong to the registry
    client; [axios_post] answers the POSTs of the introspection service. *)
Record Sources := {
  readFile : string -> option string;
  buildSchema : string -> option Schema;
  generateSchemaHash : string -> string;
  fetchSubgraphSchema : string -> option (string * string);
  axios_post : nat -> IntrospectionService.AxiosOutcome
}.

Record Cache := {
  cache : gmap string CachedSchemaEntry;
  subgraphConfigs : gmap string (Config.SubgraphConfigItem * option string);
  ttlMs : Z
}.

Inductive LoadEvent :=
| LoadFile (schemaFile : string)
| LoadIntrospection (url : string) (trace : list IntrospectionService.Event)
| LoadApollo (subgraphName : string).

Definition setSubgraphConfig (name : string) (url : option string)
    (cfg : Config.SubgraphConfigItem) (c : Cache) : Cache :=
  {| cache := cache c;
     subgraphConfigs := <[name := (cfg, url)]> (subgraphConfigs c);
     ttlMs := ttlMs c |}.

(** [has]; [now] is [Date.now()]. *)
Definition has (now : Z) (subgraphName : string) (c : Cache) : bool :=
  match cache c !! subgraphName with
  | None => false
  | Some cached => now <? expiresAt cached
  end.

Definition loadFromFile (src : Sources) (schemaFile : string)
    : string + (Schema * string * string) :=
  match readFile src schemaFile with
  | None => inl "cannot read schema file"%string
  | Some text =>
      match buildSchema src text with
      | None => inl "cannot build schema"%string
      | Some s => inr (s, text, generateSchemaHash src text)
      end
  end.

Definition loadFromIntrospection (src : Sources) (url : string)
    (cfg : Config.SubgraphConfigItem)
    : (string + (Schema * string * string)) * list IntrospectionService.Event :=
  match IntrospectionService.introspect (axios_post src) url
          {| IntrospectionService.maxRetries := Config.maxRetries cfg;
             IntrospectionService.retryDelayMs := Config.retryDelayMs cfg |}
          (Config.introspectionHeaders cfg) with
  | None => (inl "introspection did not return"%string, [])
  | Some (result, tr) =>
      if negb (IntrospectionService.success result)
         || negb (truthy (IntrospectionService.sdl result)) then
        (inl "Failed to introspect schema"%string, tr)
      else
        match IntrospectionService.sdl result with
        | JStr text =>
            match buildSchema src text with
            | None => (inl "cannot build schema"%string, tr)
            | Some s => (inr (s, text, generateSchemaHash src text), tr)
            end
        | _ => (inl "cannot build schema"%string, tr)
        end
  end.

Definition loadFromApollo (src : Sources) (subgraphName : string)
    : string + (Schema * string * string) :=
  match fetchSubgraphSchema src subgraphName with
  | None => inl "cannot fetch schema"%string
  | Some (text, ver) =>
      match buildSchema src text with
      | None => inl "cannot build schema"%string
      | Some s => inr (s, text, ver)
      end
  end.

(** The source selection of [loadAndCacheSchema]: the file when
    [schemaFile] is set, introspection when [useLocalSchema] and a URL are
    set, an error when [useLocalSchema] is set without URL, the registry
    otherwise (also when no configuration was recorded). *)
Definition loadFromSource (src : Sources) (subgraphName : string) (c : Cache)
    : (string + (Schema * string * string)) * list LoadEvent :=
  match subgraphConfigs c !! subgraphName with
  | Some (cfg, url) =>
      match JS.nonempty (Config.schemaFile cfg) with
      | Some f => (loadFromFile src f, [LoadFile f])
      | None =>
          if Config.useLocalSchema cfg then
            match JS.nonempty url with
            | Some u =>
                let '(r, tr) := loadFromIntrospection src u cfg in
                (r, [LoadIntrospection u tr])
            | None => (inl "Cannot use local schema: no URL and no schemaFile"%string, [])
            end
          else (loadFromApollo src subgraphName, [LoadApollo subgraphName])
      end
  | None => (loadFromApollo src subgraphName, [LoadApollo subgraphName])
  end.

(** [loadAndCacheSchema]; [now] is the [Date.now()] taken after the load. *)
Definition loadAndCacheSchema (src : Sources) (now : Z) (subgraphName : string)
    (c : Cache) : (string + Schema) * Cache * list LoadEvent :=
  match loadFromSource src subgraphName c with
  | (inl err, evs) => (inl err, c, evs)
  | (inr (s, text, ver), evs) =>
      let cacheEntry := {|
        schema := s;
        entry_sdl := text;
        version := ver;
        lastFetched := now;
        expiresAt := now + ttlMs c |} in
      (inr s,
       {| cache := <[subgraphName := cacheEntry]> (cache c);
          subgraphConfigs := subgraphConfigs c;
          ttlMs := ttlMs c |},
       evs)
  end.

(** [getSchema]; [now] is the clock at the lookup, [now'] the clock when a
    load has finished. *)
Definition getSchema (src : Sources) (now now' : Z) (subgraphName : string)
    (c : Cache) : (string + Schema) * Cache * list LoadEvent :=
  match cache c !! subgraphName with
  | Some cached =>
      if now <? expiresAt cached then (inr (schema cached), c, [])
      else loadAndCacheSchema src now' subgraphName c
  | None => loadAndCacheSchema src now' subgraphName c
  end.

(** [warmCache]: a [loadAndCacheSchema] per name; a load that fails is
    logged and skipped.  The loads run concurrently and each stores under
    its own name only, so for distinct names the outcome is that of the
    loads taken in list order.  [src name] is the world as the load of
    [name] meets it, [now name] the clock when that load has finished. *)
Definition warmCache (src : string -> Sources) (now : string -> Z)
    (subgraphNames : list string) (c : Cache) : Cache * list LoadEvent :=
  fold_left
    (fun acc name =>
       let '(_, c', evs) := loadAndCacheSchema (src name) (now name) name (fst acc) in
       (c', snd acc ++ evs))
    subgraphNames (c, []).

(** [refreshAllSchemas]: the same loop over the names that have an entry. *)
Definition refreshAllSchemas (src : string -> Sources) (now : string -> Z)
    (c : Cache) : Cache * list LoadEvent :=
  warmCache src now (List.map fst (map_to_list (cache c))) c.

(** [new SchemaCache(_, _, ttlMs)] *)
Definition new_cache (ttl : Z) : Cache :=
  {| cache := ∅; subgraphConfigs := ∅; ttlMs := ttl |}.

(** The calls that change a cache, in one world [src]. *)
Inductive CacheOp :=
| CacheSetConfig (name : string) (url : option string) (cfg : Config.SubgraphConfigItem)
| CacheGetSchema (now now' : Z) (name : string)
| CacheWarm (now : string -> Z) (names : list string)
| CacheRefresh (now : string -> Z).

Definition cache_step (src : Sources) (c : Cache) (op : CacheOp) : Cache :=
  match op with
  | CacheSetConfig name url cfg => setSubgraphConfig name url cfg c
  | CacheGetSchema now now' name => snd (fst (getSchema src now now' name c))
  | CacheWarm now names => fst (warmCache (fun _ => src) now names c)
  | CacheRefresh now => fst (refreshAllSchemas (fun _ => src) now c)
  end.

Inductive cache_reachable (src : Sources) (ttl : Z) : Cache -> Prop :=
| cache_reachable_new : cache_reachable src ttl (new_cache ttl)
| cache_reachable_step c op :
    cache_reachable src ttl c -> cache_reachable src ttl (cache_step src c op).

End WithSchema.

Arguments CachedSchemaEntry : clear implicits.
Arguments Sources : clear implicits.
Arguments Cache : clear implicits.
Arguments CacheOp : clear implicits.

End SchemaCache.

(** ** handlers/PassThroughHandler.ts *)

Module PassThroughHandler.
Import Json.
Import Axios.

(** A header value: [string | string[]]; [undefined] is [None]. *)
Inductive HeaderValue :=
| Single (v : string)
| Multi (vs : list string).

(** [Object.entries(headers)], in insertion order. *)
Definition Headers := list (string * option HeaderValue).

Definition hopByHopHeaders : list string :=
  ["connection"; "keep-alive"; "proxy-authenticate"; "proxy-authorization";
   "te"; "trailer"; "transfer-encoding"; "upgrade"]%string.

Definition nonProxyableHeaders : list string :=
  ["host"; "content-length"; "content-encoding"]%string.

(** [Set.prototype.has] *)
Definition set_has (s : list string) (k : string) : bool :=
  existsb (String.eqb k) s.

(** One turn of the [for] loop of [sanitizeHeaders].  [sanitized] is a
    plain object literal: the assignment [sanitized[key] = value] under the
    key [__proto__] runs the setter inherited from [Object.prototype] and
    adds no entry (the key is compared as it is written, so [__PROTO__] is
    an ordinary key); every other key is stored.  Only the entries of
    [sanitized] are modelled. *)
Definition sanitize_step (sanitized : list (string * HeaderValue))
    (entry : string * option HeaderValue) : list (string * HeaderValue) :=
  let '(key, value) := entry in
  match value with
  | None => sanitized
  | Some v =>
      let lowerKey := QueryUtils.toLowerCase key in
      if set_has hopByHopHeaders lowerKey then sanitized
      else if set_has nonProxyableHeaders lowerKey then sanitized
      else if String.eqb key "__proto__" then sanitized
      else JS.obj_set key v sanitized
  end.

Definition sanitizeHeaders (headers : Headers) : list (string * HeaderValue) :=
  fold_left sanitize_step headers [].

(** The entry one turn of the loop stores, when it stores one. *)
Definition stored_entry (entry : string * option HeaderValue)
    : option (string * HeaderValue) :=
  match snd entry with
  | None => None
  | Some v =>
      let lowerKey := QueryUtils.toLowerCase (fst entry) in
      if set_has hopByHopHeaders lowerKey || set_has nonProxyableHeaders lowerKey
         || String.eqb (fst entry) "__proto__"
      then None else Some (fst entry, v)
  end.

(** The rule of header hygiene in the words of the specification, to
    compare [sanitizeHeaders] with: an entry is forwarded, as it is, when
    its value is defined and its lower-cased name is none of the eleven
    names. *)
Definition spec_forwarded_entry (entry : string * option HeaderValue)
    : option (string * HeaderValue) :=
  match snd entry with
  | None => None
  | Some v =>
      if set_has
           ["connection"; "keep-alive"; "proxy-authenticate"; "proxy-authorization";
            "te"; "trailer"; "transfer-encoding"; "upgrade";
            "host"; "content-length"; "content-encoding"]%string
           (QueryUtils.toLowerCase (fst entry))
      then None else Some (fst entry, v)
  end.

(** The response under construction.  Header names are kept under their
    lower-case form, as [setHeader] treats them case-insensitively. *)
Record Response := {
  res_headers : list (string * HeaderValue);
  res_status : option Z;
  res_body : option json
}.

Definition fresh_response : Response :=
  {| res_headers := []; res_status := None; res_body := None |}.

Definition setHeader (k : string) (v : HeaderValue) (res : Response) : Response :=
  {| res_headers := JS.obj_set (QueryUtils.toLowerCase k) v (res_headers res);
     res_status := res_status res;
     res_body := res_body res |}.

Definition getHeader (k : string) (res : Response) : option HeaderValue :=
  JS.obj_get (QueryUtils.toLowerCase k) (res_headers res).

(** [res.status(code).json(payload)] *)
Definition send_json (code : Z) (payload : json) (res : Response) : Response :=
  {| res_headers := res_headers res;
     res_status := Some code;
     res_body := Some payload |}.

Record Request := {
  req_headers : Headers;
  req_body : json
}.

(** The forwarded request and what the upstream does with it. *)
Record UpstreamRequest := {
  up_url : string;
  up_body : json;
  up_headers : list (string * HeaderValue);
  up_timeout : Z;
  up_maxRedirects : Z;
  up_decompress : bool
}.

Inductive UpstreamOutcome :=
| UpstreamResponse (status : Z) (headers : list (string * HeaderValue)) (data : json)
| UpstreamError (e : JsError).

Definition defaultTimeout : Z := 30000.

Definition isConnectionError (e : JsError) : bool :=
  err_isAxios e
  && (code_is e "ECONNREFUSED" || code_is e "ENOTFOUND"
      || code_is e "ECONNABORTED"
      || match err_response e with Some _ => false | None => true end).

Definition code_json (e : JsError) : json :=
  match err_code e with
  | Some c => JStr c
  | None => JUndefined
  end.

Definition sendErrorResponse (res : Response) (statusCode : Z)
    (message code targetUrl : string)
    (additionalExtensions : list (string * json)) : Response :=
  send_json statusCode
    (JObj [("errors"%string,
            JArr [JObj [("message"%string, JStr message);
                        ("extensions"%string,
                         JObj (JS.obj_spread
                                 [("code"%string, JStr code);
                                  ("target"%string, JStr targetUrl)]
                                 additionalExtensions))]])])
    res.

(** The body of the cached-SDL answer: [{ data: { _service: { sdl } } }]. *)
Definition sdl_payload (text : string) : json :=
  JObj [("data"%string,
         JObj [("_service"%string, JObj [("sdl"%string, JStr text)])])].

(** The value a list of headers gives a name: header names are compared
    without regard to letter case, and a later header wins. *)
Definition last_header (k : string) (hs : list (string * HeaderValue))
    : option HeaderValue :=
  fold_left
    (fun acc kv =>
       if String.eqb (QueryUtils.toLowerCase (fst kv)) (QueryUtils.toLowerCase k)
       then Some (snd kv) else acc)
    hs None.

(** The error matrix at the end of [handleError]. *)
Definition normal_error_response (e : JsError) (targetUrl : string)
    (res : Response) : Response :=
  if err_isAxios e then
    if code_is e "ECONNABORTED" then
      sendErrorResponse res 504 "Request timeout while forwarding to subgraph"
        "GATEWAY_TIMEOUT" targetUrl [("timeout"%string, JBool true)]
    else if code_is e "ECONNREFUSED" || code_is e "ENOTFOUND" then
      sendErrorResponse res 503 "Unable to connect to subgraph"
        "SERVICE_UNAVAILABLE" targetUrl [("errorCode"%string, code_json e)]
    else
      match err_response e with
      | None =>
          sendErrorResponse res 502 "Network error while forwarding to subgraph"
            "BAD_GATEWAY" targetUrl [("errorCode"%string, code_json e)]
      | Some _ =>
          sendErrorResponse res 500 "Unexpected error forwarding request"
            "INTERNAL_SERVER_ERROR" targetUrl []
      end
  else
    sendErrorResponse res 500 "Internal error while forwarding request"
      "INTERNAL_SERVER_ERROR" targetUrl [].

Section WithSchema.

Context {Schema : Type}.

(** A handler: the optional cache it was built with, the world the cache
    loads from, [printSchema], and the clock read by [getSchema]. *)
Record Handler := {
  schemaCache : option (SchemaCache.Cache Schema);
  sources : SchemaCache.Sources Schema;
  printSchema : Schema -> string;
  clock : Z;
  clock_after_load : Z
}.

Definition with_cache (h : Handler) (c : SchemaCache.Cache Schema) : Handler :=
  {| schemaCache := Some c;
     sources := sources h;
     printSchema := printSchema h;
     clock := clock h;
     clock_after_load := clock_after_load h |}.

(** [returnCachedSdl]: the answer, the handler with its cache after
    [getSchema], and whether the SDL was sent.  It is only called with a
    cache present. *)
Definition returnCachedSdl (h : Handler) (res : Response)
    (targetUrl subgraphName : string) : bool * Response * Handler :=
  match schemaCache h with
  | None => (false, res, h)
  | Some c =>
      match SchemaCache.getSchema (sources h) (clock h) (clock_after_load h)
              subgraphName c with
      | (inr s, c', _) =>
          let text := printSchema h s in
          let res1 := setHeader "X-Proxy-Mode" (Single "passthrough-introspection-cached") res in
          let res2 := setHeader "X-Proxy-Target" (Single targetUrl) res1 in
          let res3 := setHeader "X-Cache-Fallback" (Single "true") res2 in
          (true, send_json 200 (sdl_payload text) res3, with_cache h c')
      | (inl _, c', _) => (false, res, with_cache h c')
      end
  end.

(** [body.query && isIntrospectionQuery(body.query)]; [None] when the
    expression throws. *)
Definition body_is_introspection (body : json) : option bool :=
  match member body "query" with
  | None => None
  | Some q =>
      if truthy q then
        match q with
        | JStr text => Some (QueryUtils.isIntrospectionQuery text)
        | _ => None
        end
      else Some false
  end.

(** [handleError]; [None] when it throws. *)
Definition handleError (h : Handler) (e : JsError) (targetUrl : string)
    (res : Response) (req : option Request) (subgraphName : option string)
    : option (Response * Handler) :=
  let normal := Some (normal_error_response e targetUrl res, h) in
  match req, JS.nonempty subgraphName, schemaCache h with
  | Some rq, Some name, Some _ =>
      match body_is_introspection (req_body rq) with
      | None => None
      | Some true =>
          if isConnectionError e then
            match returnCachedSdl h res targetUrl name with
            | (true, res', h') => Some (res', h')
            | (false, res', h') => Some (normal_error_response e targetUrl res', h')
            end
          else normal
      | Some false => normal
      end
  | _, _, _ => normal
  end.

(** The request [handleRequest] forwards. *)
Definition forwarded_request (req : Request) (targetUrl : string)
    (timeout : option Z) : UpstreamRequest :=
  {| up_url := targetUrl;
     up_body := req_body req;
     up_headers := JS.obj_spread [("content-type"%string, Single "application/json")]
                     (sanitizeHeaders (req_headers req));
     up_timeout := match timeout with Some t => t | None => defaultTimeout end;
     up_maxRedirects := 5;
     up_decompress := true |}.

(** [handleRequest]; [timeout] and [subgraphName] are the optional
    arguments, [upstream] is what [axios.post] does with the request. *)
Definition handleRequest (h : Handler) (upstream : UpstreamRequest -> UpstreamOutcome)
    (req : Request) (res : Response) (targetUrl : string)
    (timeout : option Z) (subgraphName : option string)
    : option (Response * Handler) :=
  match upstream (forwarded_request req targetUrl timeout) with
  | UpstreamResponse st hs data =>
      let res1 := fold_left (fun r kv => setHeader (fst kv) (snd kv) r) hs res in
      let res2 := setHeader "X-Proxy-Mode" (Single "passthrough") res1 in
      let res3 := setHeader "X-Proxy-Target" (Single targetUrl) res2 in
      Some (send_json st data res3, h)
  | UpstreamError e => handleError h e targetUrl res (Some req) subgraphName
  end.

End WithSchema.

Arguments Handler : clear implicits.

End PassThroughHandler.

(** ** middleware/urlDecoder.ts and the proxy route of server.ts *)

Module Server.
Import PassThroughHandler.

Inductive ErrorCode :=
| INVALID_URL
| INVALID_GRAPHQL_REQUEST
| INTERNAL_SERVER_ERROR.

Record ProxyError := {
  pe_message : string;
  pe_code : ErrorCode;
  pe_statusCode : Z
}.

(** The request as the route sees it: the path parameter, the headers
    (lower-case names, as the HTTP layer delivers them), the parsed body,
    and the two fields the middleware attaches. *)
Record ProxyRequest := {
  encodedUrl : option string;
  headers : Headers;
  body : Json.json;
  targetUrl : option string;
  subgraphName : option string
}.

(** The platform functions the middleware calls: [decodeURIComponent]
    ([None] when it throws) and the host name of [new URL(url)] ([None]
    when the constructor throws). *)
Record Platform := {
  decodeURIComponent : string -> option string;
  url_hostname : string -> option string
}.

Definition is_digit (c : ascii) : bool :=
  let n := nat_of_ascii c in ((48 <=? n)%nat && (n <=? 57)%nat)%bool.

Definition is_alnum (c : ascii) : bool :=
  let n := nat_of_ascii (QueryUtils.lower_ascii c) in
  is_digit c || ((97 <=? n)%nat && (n <=? 122)%nat)%bool.

(** [s.split('.')] *)
Fixpoint split_dots (cur : list ascii) (s : string) : list (list ascii) :=
  match s with
  | EmptyString => [rev cur]
  | String c rest =>
      if Ascii.eqb c "."%char then rev cur :: split_dots [] rest
      else split_dots (c :: cur) rest
  end.

(** [/^https?:\/\//i] *)
Definition protocol_ok (url : string) : bool :=
  let l := QueryUtils.toLowerCase url in
  String.prefix "http://" l || String.prefix "https://" l.

(** One label of [URL_PATTERNS.HOSTNAME]: [[a-z0-9]([a-z0-9-]*[a-z0-9])?] *)
Definition label_ok (l : list ascii) : bool :=
  match l, rev l with
  | first :: _, last :: _ =>
      is_alnum first && is_alnum last
      && forallb (fun c => is_alnum c || Ascii.eqb c "-"%char) l
  | _, _ => false
  end.

Definition hostname_pattern_ok (h : string) : bool :=
  forallb label_ok (split_dots [] h).

(** [/^\d{1,3}\.\d{1,3}\.\d{1,3}\.\d{1,3}$/] *)
Definition ipv4_ok (h : string) : bool :=
  let parts := split_dots [] h in
  (List.length parts =? 4)%nat
  && forallb (fun p => (1 <=? List.length p)%nat && (List.length p <=? 3)%nat
                       && forallb is_digit p) parts.

Definition validateUrl (pf : Platform) (url : string) : bool :=
  if negb (protocol_ok url) then false
  else
    match url_hostname pf url with
    | None => false
    | Some hostname =>
        if negb (JS.truthy (Some hostname)) then false
        else if negb (String.eqb hostname "localhost")
                && negb (ipv4_ok hostname)
                && negb (hostname_pattern_ok hostname) then false
        else true
    end.

(** [req.headers['x-subgraph-name']] *)
Definition header (req : ProxyRequest) (k : string) : option HeaderValue :=
  match JS.obj_get k (headers req) with
  | Some v => v
  | None => None
  end.

Definition extractSubgraphName (req : ProxyRequest) : ProxyError + string :=
  match header req "x-subgraph-name" with
  | Some (Single v) =>
      if JS.truthy (Some v) then inr v
      else inl {| pe_message := "x-subgraph-name header is required";
                  pe_code := INVALID_GRAPHQL_REQUEST; pe_statusCode := 400 |}
  | _ => inl {| pe_message := "x-subgraph-name header is required";
                pe_code := INVALID_GRAPHQL_REQUEST; pe_statusCode := 400 |}
  end.

(** [next()] with the enriched request, or [next(error)]. *)
Inductive MiddlewareResult :=
| Next (req : ProxyRequest)
| NextError (e : ProxyError).

Definition urlDecoderMiddleware (pf : Platform) (req : ProxyRequest) : MiddlewareResult :=
  match JS.nonempty (encodedUrl req) with
  | None =>
      NextError {| pe_message := "Target URL is required in path parameter";
                   pe_code := INVALID_URL; pe_statusCode := 400 |}
  | Some enc =>
      match decodeURIComponent pf enc with
      | None =>
          NextError {| pe_message := "Invalid URL encoding in path parameter";
                       pe_code := INVALID_URL; pe_statusCode := 400 |}
      | Some target =>
          if negb (validateUrl pf target) then
            NextError {| pe_message := "Invalid target URL format";
                         pe_code := INVALID_URL; pe_statusCode := 400 |}
          else
            match extractSubgraphName req with
            | inl e => NextError e
            | inr name =>
                Next {| encodedUrl := encodedUrl req;
                        headers := headers req;
                        body := body req;
                        targetUrl := Some target;
                        subgraphName := Some name |}
            end
      end
  end.

(** What the route body does: a call of one of the two handlers, with the
    arguments it passes, or the [ProxyError] it throws. *)
Inductive Dispatch :=
| ToPassThrough (targetUrl : option string) (timeout : option Z)
                (subgraphName : option string)
| ToMock (subgraphName : string)
| Throws (e : ProxyError).

Definition no_handler_error : ProxyError :=
  {| pe_message := "Cannot process request: no handler available";
     pe_code := INTERNAL_SERVER_ERROR; pe_statusCode := 500 |}.

(** The body of [POST /:encodedUrl] after the middleware. *)
Definition route_body (enabled : bool) (http : SubgraphHealthMonitor.HttpClient)
    (r : SubgraphRegistry.Registry) (req : ProxyRequest) : Dispatch :=
  let shouldPassthrough :=
    fst (SubgraphRegistry.shouldPassthroughToSubgraph enabled http r
           (subgraphName req) (targetUrl req)) in
  if shouldPassthrough then ToPassThrough (targetUrl req) None None
  else
    match JS.nonempty (subgraphName req) with
    | Some name => ToMock name
    | None => Throws no_handler_error
    end.

(** The route: middleware, then the body. *)
Definition proxy_route (pf : Platform) (enabled : bool)
    (http : SubgraphHealthMonitor.HttpClient)
    (r : SubgraphRegistry.Registry) (req : ProxyRequest) : Dispatch :=
  match urlDecoderMiddleware pf req with
  | NextError e => Throws e
  | Next req' => route_body enabled http r req'
  end.

End Server.

(** ** utils/healthCheck.ts and the [/health] route of server.ts *)

Module HealthCheck.

Inductive HealthStatus := HEALTHY | DEGRADED | UNHEALTHY.

(** [ComponentHealth]; its [lastCheck] time stamp is not modelled. *)
Record ComponentHealth := {
  ch_status : HealthStatus;
  ch_message : option string;
  ch_metrics : option (list (string * Json.json))
}.

Definition status_eqb (a b : HealthStatus) : bool :=
  match a, b with
  | HEALTHY, HEALTHY | DEGRADED, DEGRADED | UNHEALTHY, UNHEALTHY => true
  | _, _ => false
  end.

(** [Array.prototype.includes] on the statuses *)
Definition includes (x : HealthStatus) (l : list HealthStatus) : bool :=
  existsb (status_eqb x) l.

Definition aggregateHealth (checks : list (string * ComponentHealth)) : HealthStatus :=
  let statuses := List.map (fun check => ch_status (snd check)) checks in
  if includes UNHEALTHY statuses then UNHEALTHY
  else if includes DEGRADED statuses then DEGRADED
  else HEALTHY.

Definition createComponentHealth (st : HealthStatus) (message : option string)
    (metrics : option (list (string * Json.json))) : ComponentHealth :=
  {| ch_status := st; ch_message := message; ch_metrics := metrics |}.

(** The status code [detailedHealthCheckHandler] answers with; [None]
    stands for a [getComponentChecks] that throws. *)
Definition detailedHealthCheckHandler
    (checks : option (list (string * ComponentHealth))) : Z * HealthStatus :=
  match checks with
  | Some cs =>
      let st := aggregateHealth cs in
      (match st with HEALTHY => 200 | DEGRADED => 200 | UNHEALTHY => 503 end, st)
  | None => (503, UNHEALTHY)
  end.

(** The status the [/health] route gives the registry component. *)
Definition registry_status (r : SubgraphRegistry.Registry) : HealthStatus :=
  let subgraphs := SubgraphRegistry.getAllSubgraphs r in
  let healthyCount := List.length (List.filter (SubgraphRegistry.isAvailable r) subgraphs) in
  let totalCount := List.length subgraphs in
  if (totalCount =? 0)%nat then DEGRADED
  else if (healthyCount =? 0)%nat then UNHEALTHY
  else if (healthyCount <? totalCount)%nat then DEGRADED
  else HEALTHY.

(** The callback of the [/health] route; [serverMetrics] and [cacheMetrics]
    are read from the environment. *)
Definition health_checks (serverMetrics cacheMetrics : list (string * Json.json))
    (r : SubgraphRegistry.Registry) : list (string * ComponentHealth) :=
  let checks0 :=
    [("server"%string,
      createComponentHealth HEALTHY (Some "Server is running"%string)
        (Some serverMetrics))] in
  let subgraphs := SubgraphRegistry.getAllSubgraphs r in
  let healthyCount := List.length (List.filter (SubgraphRegistry.isAvailable r) subgraphs) in
  let totalCount := List.length subgraphs in
  let checks1 :=
    JS.obj_set "subgraphRegistry"
      (createComponentHealth (registry_status r)
         (Some (pretty healthyCount +:+ "/" +:+ pretty totalCount
                +:+ " subgraphs available"))
         (Some [("totalSubgraphs"%string, Json.JNum (Z.of_nat totalCount));
                ("healthySubgraphs"%string, Json.JNum (Z.of_nat healthyCount));
                ("unhealthySubgraphs"%string,
                 Json.JNum (Z.of_nat totalCount - Z.of_nat healthyCount))]))
      checks0 in
  JS.obj_set "schemaCache"
    (createComponentHealth HEALTHY (Some "Schema cache active"%string)
       (Some cacheMetrics))
    checks1.

(** [GET /health] *)
Definition health_route (serverMetrics cacheMetrics : list (string * Json.json))
    (r : SubgraphRegistry.Registry) : Z * HealthStatus :=
  detailedHealthCheckHandler (Some (health_checks serverMetrics cacheMetrics r)).

End HealthCheck.

(** ** handlers/MockHandler.ts *)

Module MockHandler.
Import Json.
Import Axios.

Import PassThroughHandler.

(** [String.prototype.includes] *)
Fixpoint includes (needle hay : string) : bool :=
  String.prefix needle hay
  || match hay with
     | EmptyString => false
     | String _ rest => includes needle rest
     end.

(** The [TypeError] of destructuring a body that is [null] or [undefined]. *)
Definition destructure_error (body : json) : JsError :=
  plain_error
    match body with
    | JNull => "Cannot destructure property 'query' of 'body' as it is null."
    | _ => "Cannot destructure property 'query' of 'body' as it is undefined."
    end.

(** [{ errors: [{ message, extensions }] }] *)
Definition error_payload (message : string) (extensions : list (string * json)) : json :=
  JObj [("errors"%string,
         JArr [JObj [("message"%string, JStr message);
                     ("extensions"%string, JObj extensions)]])].

(** Status code, error code and message [handleError] picks for an error
    message. *)
Definition classify (msg : string) : Z * string * string :=
  if includes "parse" msg || includes "syntax" msg then
    (400, "GRAPHQL_PARSE_ERROR", "Invalid GraphQL query")%string
  else if includes "validation" msg then
    (400, "GRAPHQL_VALIDATION_ERROR", "Query validation failed")%string
  else if includes "schema" msg then
    (500, "SCHEMA_ERROR", "Schema processing error")%string
  else
    (500, "MOCK_GENERATION_ERROR", "Failed to generate mock response")%string.

(** [handleError]; the thrown value is an [Error] with a message. *)
Definition handleError (e : JsError) (subgraphName : string) (res : Response)
    : Response :=
  let '(statusCode, errorCode, message) := classify (err_message e) in
  send_json statusCode
    (error_payload message
       [("code"%string, JStr errorCode);
        ("subgraph"%string, JStr subgraphName);
        ("details"%string, JStr (err_message e))])
    res.

Section WithSchema.

Context {Schema : Type}.

(** A mock handler: its cache and the world the cache loads from, the
    mock generator ([generateMockResponseForSubgraph], which resolves
    with a result or throws), [printSubgraphSchema], and the clock read by
    [getSchema]. *)
Record Handler := {
  schemaCache : SchemaCache.Cache Schema;
  sources : SchemaCache.Sources Schema;
  mockGenerator : string -> Schema -> string -> json -> json -> JsError + json;
  printSubgraphSchema : Schema -> string;
  clock : Z;
  clock_after_load : Z
}.

Definition with_cache (h : Handler) (c : SchemaCache.Cache Schema) : Handler :=
  {| schemaCache := c;
     sources := sources h;
     mockGenerator := mockGenerator h;
     printSubgraphSchema := printSubgraphSchema h;
     clock := clock h;
     clock_after_load := clock_after_load h |}.

(** The three headers of a mocked answer. *)
Definition mock_headers (mode subgraphName : string) (res : Response) : Response :=
  setHeader "X-Proxy-Mode" (Single mode)
    (setHeader "X-Mock-Subgraph" (Single subgraphName)
       (setHeader "X-Mock-Response" (Single "true") res)).

Definition handleIntrospectionQuery (h : Handler) (s : Schema)
    (subgraphName : string) (res : Response) : Response :=
  let text := printSubgraphSchema h s in
  send_json 200 (PassThroughHandler.sdl_payload text)
    (mock_headers "mock-introspection" subgraphName res).

(** [handleRequest]: the answer, and the handler with its cache after
    [getSchema]. *)
Definition handleRequest (h : Handler) (body : json) (res : Response)
    (subgraphName : string) : Response * Handler :=
  match member body "query" with
  | None => (handleError (destructure_error body) subgraphName res, h)
  | Some query =>
      if negb (truthy query) then
        (send_json 400
           (error_payload "No query provided" [("code"%string, JStr "BAD_REQUEST")])
           res, h)
      else
        match query with
        | JStr q =>
            match SchemaCache.getSchema (sources h) (clock h) (clock_after_load h)
                    subgraphName (schemaCache h) with
            | (inl _, c', _) =>
                (send_json 404
                   (error_payload
                      ("Schema not found for subgraph: " +:+ subgraphName)
                      [("code"%string, JStr "SCHEMA_NOT_FOUND");
                       ("subgraph"%string, JStr subgraphName)])
                   res,
                 with_cache h c')
            | (inr s, c', _) =>
                if QueryUtils.isIntrospectionQuery q then
                  (handleIntrospectionQuery h s subgraphName res, with_cache h c')
                else
                  match mockGenerator h subgraphName s q
                          (opt_member body "variables")
                          (opt_member body "operationName") with
                  | inr result =>
                      (send_json 200 result (mock_headers "mock" subgraphName res),
                       with_cache h c')
                  | inl e => (handleError e subgraphName res, with_cache h c')
                  end
            end
        | _ =>
            (send_json 400
               (error_payload "Query must be a string"
                  [("code"%string, JStr "BAD_REQUEST")])
               res, h)
        end
  end.

End WithSchema.

Arguments Handler : clear implicits.

End MockHandler.

(** ** services/SubgraphInitializer.ts *)

Module SubgraphInitializer.
Import Config.

Record InitializationResult := {
  totalSubgraphs : Z;
  fromApollo : Z;
  localOverrides : Z
}.

Section WithSchema.

Context {Schema : Type}.

(** One turn of the first loop of [mergeAndRegister]: a subgraph listed by
    the registry platform, registered with the default configuration.
    [None] stands for a [registerSubgraph] that throws. *)
Definition register_apollo
    (acc : option (SubgraphRegistry.Registry * SchemaCache.Cache Schema))
    (subgraph : string * option string)
    : option (SubgraphRegistry.Registry * SchemaCache.Cache Schema) :=
  match acc with
  | None => None
  | Some (r, c) =>
      let url := JS.nonempty (snd subgraph) in
      match SubgraphRegistry.registerSubgraph (fst subgraph) url None r with
      | None => None
      | Some r' =>
          Some (r', SchemaCache.setSubgraphConfig (fst subgraph) url
                      DEFAULT_SUBGRAPH_CONFIG c)
      end
  end.

(** One turn of the second loop: a local override. *)
Definition apply_override
    (acc : option (SubgraphRegistry.Registry * SchemaCache.Cache Schema))
    (entry : string * SubgraphConfigItem)
    : option (SubgraphRegistry.Registry * SchemaCache.Cache Schema) :=
  match acc with
  | None => None
  | Some (r, c) =>
      let name := fst entry in
      let subgraphConfig := snd entry in
      let url := cfg_url subgraphConfig in
      let r1 := snd (SubgraphRegistry.unregisterSubgraph name r) in
      match SubgraphRegistry.registerSubgraph name url (Some subgraphConfig) r1 with
      | None => None
      | Some r2 =>
          Some (r2, SchemaCache.setSubgraphConfig name url subgraphConfig c)
      end
  end.

(** [mergeAndRegister]: [apolloSubgraphs] is the list the platform
    returned, [localConfig] is [Object.entries(localConfig.subgraphs)];
    [src] and [now] are the world and the clock of the cache warm-up. *)
Definition mergeAndRegister (src : string -> SchemaCache.Sources Schema)
    (now : string -> Z)
    (apolloSubgraphs : list (string * option string))
    (localConfig : list (string * SubgraphConfigItem))
    (r : SubgraphRegistry.Registry) (c : SchemaCache.Cache Schema)
    : option (InitializationResult * SubgraphRegistry.Registry
              * SchemaCache.Cache Schema * list SchemaCache.LoadEvent) :=
  match fold_left register_apollo apolloSubgraphs (Some (r, c)) with
  | None => None
  | Some (r1, c1) =>
      let schemaNames := List.map fst apolloSubgraphs in
      let '(c2, evs) := SchemaCache.warmCache src now schemaNames c1 in
      match fold_left apply_override localConfig (Some (r1, c2)) with
      | None => None
      | Some (r3, c3) =>
          let finalCount := Z.of_nat (SubgraphRegistry.getSubgraphCount r3) in
          let overriddenCount := Z.of_nat (List.length localConfig) in
          let apolloOnlyCount := finalCount - overriddenCount in
          Some ({| totalSubgraphs := finalCount;
                   fromApollo := apolloOnlyCount;
                   localOverrides := overriddenCount |},
                r3, c3, evs)
      end
  end.

End WithSchema.

End SubgraphInitializer.

(** ** Concrete configurations, used to exercise the statements below *)

Module Examples.
Import Config.

Definition products_url : string := "http://products:4001/graphql".

(** A configuration that mocks on the first failure ([maxRetries = 0]). *)
Definition cfg_zero_retries : SubgraphConfigItem := {|
  forceMock := false;
  disableMocking := false;
  useLocalSchema := false;
  cfg_url := None;
  schemaFile := None;
  introspectionHeaders := None;
  maxRetries := 0;
  retryDelayMs := 1000;
  healthCheckIntervalMs := 30000
|}.

Definition cfg_force_mock : SubgraphConfigItem := {|
  forceMock := true;
  disableMocking := false;
  useLocalSchema := false;
  cfg_url := None;
  schemaFile := None;
  introspectionHeaders := None;
  maxRetries := 3;
  retryDelayMs := 1000;
  healthCheckIntervalMs := 30000
|}.

Definition http_up : SubgraphHealthMonitor.HttpClient :=
  fun _ _ => SubgraphHealthMonitor.HttpStatus 200.

Definition http_down : SubgraphHealthMonitor.HttpClient :=
  fun _ _ => SubgraphHealthMonitor.HttpRejected.

(** [products] registered with a URL and the default configuration. *)
Definition monitor_products : SubgraphHealthMonitor.Monitor :=
  SubgraphHealthMonitor.registerSubgraph "products" (Some products_url)
    DEFAULT_SUBGRAPH_CONFIG SubgraphHealthMonitor.empty_monitor.

(** [products] registered with a URL and [maxRetries = 0]. *)
Definition monitor_zero_retries : SubgraphHealthMonitor.Monitor :=
  SubgraphHealthMonitor.registerSubgraph "products" (Some products_url)
    cfg_zero_retries SubgraphHealthMonitor.empty_monitor.

(** [inventory] registered without a URL, default configuration. *)
Definition monitor_no_url : SubgraphHealthMonitor.Monitor :=
  SubgraphHealthMonitor.registerSubgraph "inventory" None
    DEFAULT_SUBGRAPH_CONFIG SubgraphHealthMonitor.empty_monitor.

(** [inventory] registered without a URL and with [maxRetries = 0]. *)
Definition monitor_no_url_zero : SubgraphHealthMonitor.Monitor :=
  SubgraphHealthMonitor.registerSubgraph "inventory" None
    cfg_zero_retries SubgraphHealthMonitor.empty_monitor.

(** [reviews] registered with [forceMock]. *)
Definition monitor_force_mock : SubgraphHealthMonitor.Monitor :=
  SubgraphHealthMonitor.registerSubgraph "reviews" (Some "http://reviews:4002")
    cfg_force_mock SubgraphHealthMonitor.empty_monitor.

Definition failed_probe (now : Z) : SubgraphHealthMonitor.HealthEvent :=
  SubgraphHealthMonitor.Probe
    {| SubgraphHealthMonitor.result_isHealthy := false;
       SubgraphHealthMonitor.result_timestamp := now |}.

Definition good_probe (now : Z) : SubgraphHealthMonitor.HealthEvent :=
  SubgraphHealthMonitor.Probe
    {| SubgraphHealthMonitor.result_isHealthy := true;
       SubgraphHealthMonitor.result_timestamp := now |}.

(** The registry after [registerSubgraph('products', products_url)] on an
    empty registry with a health timeout of 5000 ms. *)
Definition empty_registry : SubgraphRegistry.Registry :=
  {| SubgraphRegistry.registry := [];
     SubgraphRegistry.healthMonitor := SubgraphHealthMonitor.empty_monitor;
     SubgraphRegistry.healthTimeoutMs := 5000 |}.

Definition registry_products : SubgraphRegistry.Registry :=
  {| SubgraphRegistry.registry :=
       [("products"%string,
         {| SubgraphRegistry.info_name := "products";
            SubgraphRegistry.info_url := Some products_url |})];
     SubgraphRegistry.healthMonitor := monitor_products;
     SubgraphRegistry.healthTimeoutMs := 5000 |}.

(** The registry after [registerSubgraph('reviews', url, cfg_force_mock)]. *)
Definition registry_force_mock : SubgraphRegistry.Registry :=
  {| SubgraphRegistry.registry :=
       [("reviews"%string,
         {| SubgraphRegistry.info_name := "reviews";
            SubgraphRegistry.info_url := Some "http://reviews:4002"%string |})];
     SubgraphRegistry.healthMonitor := monitor_force_mock;
     SubgraphRegistry.healthTimeoutMs := 5000 |}.

(** The same registry once a health check of [products] has succeeded. *)
Definition registry_products_healthy : SubgraphRegistry.Registry :=
  {| SubgraphRegistry.registry := SubgraphRegistry.registry registry_products;
     SubgraphRegistry.healthMonitor :=
       SubgraphHealthMonitor.step monitor_products
         (SubgraphHealthMonitor.OpCheckHealth http_up 5000 10 "products");
     SubgraphRegistry.healthTimeoutMs := 5000 |}.

(** A subgraph that answers the introspection query with an empty SDL:
    [{ data: { _service: { sdl: "" } } }]. *)
Definition empty_sdl_body : Json.json :=
  Json.JObj [("data"%string,
              Json.JObj [("_service"%string,
                          Json.JObj [("sdl"%string, Json.JStr "")])])].

Definition post_empty_sdl : nat -> IntrospectionService.AxiosOutcome :=
  fun _ => IntrospectionService.Resolved empty_sdl_body.

(** A subgraph that refuses the first two connections, then answers. *)
Definition good_sdl_body : Json.json :=
  Json.JObj [("data"%string,
              Json.JObj [("_service"%string,
                          Json.JObj [("sdl"%string,
                                      Json.JStr "type Query { test: String }")])])].

Definition econnrefused : Axios.JsError :=
  {| Axios.err_isAxios := true;
     Axios.err_isError := true;
     Axios.err_code := Some "ECONNREFUSED"%string;
     Axios.err_response := None;
     Axios.err_message := "connect ECONNREFUSED" |}.

Definition post_third_time : nat -> IntrospectionService.AxiosOutcome :=
  fun i => if (i <? 2)%nat then IntrospectionService.Rejected econnrefused
           else IntrospectionService.Resolved good_sdl_body.

(** A subgraph that refuses every connection. *)
Definition post_refused : nat -> IntrospectionService.AxiosOutcome :=
  fun _ => IntrospectionService.Rejected econnrefused.

(** A world for the schema cache in which a schema is its own SDL text:
    no schema files, a registry that serves one SDL for every name. *)
Definition products_sdl : string :=
  "type Product { id: ID! name: String price: Float } type Query { products: [Product!]! }".

Definition example_sources : SchemaCache.Sources string :=
  {| SchemaCache.readFile := fun _ => None;
     SchemaCache.buildSchema := fun text => Some text;
     SchemaCache.generateSchemaHash := fun text => text;
     SchemaCache.fetchSubgraphSchema := fun _ => Some (products_sdl, "v1"%string);
     SchemaCache.axios_post := post_third_time |}.

(** A world in which the registry cannot be reached either. *)
Definition offline_sources : SchemaCache.Sources string :=
  {| SchemaCache.readFile := fun _ => None;
     SchemaCache.buildSchema := fun text => Some text;
     SchemaCache.generateSchemaHash := fun text => text;
     SchemaCache.fetchSubgraphSchema := fun _ => None;
     SchemaCache.axios_post := post_third_time |}.

(** An empty cache with the default TTL of 300,000 ms. *)
Definition empty_cache : SchemaCache.Cache string :=
  {| SchemaCache.cache := ∅;
     SchemaCache.subgraphConfigs := ∅;
     SchemaCache.ttlMs := 300000 |}.

(** The cache after [products] was loaded at time 1000. *)
Definition cache_products : SchemaCache.Cache string :=
  snd (fst (SchemaCache.loadAndCacheSchema example_sources 1000 "products" empty_cache)).

(** Incoming headers: a hop-by-hop header, a non-proxyable one in upper
    case, an undefined one, an array-valued one. *)
Definition incoming_headers : PassThroughHandler.Headers :=
  [("content-type"%string, Some (PassThroughHandler.Single "application/json"));
   ("Connection"%string, Some (PassThroughHandler.Single "keep-alive"));
   ("x-trace"%string, None);
   ("set-cookie"%string, Some (PassThroughHandler.Multi ["a=1"; "b=2"]%string));
   ("HOST"%string, Some (PassThroughHandler.Single "old-host.com"))].

(** The entries of the object [JSON.parse] makes of
    [{"__proto__": "polluted", "authorization": "Bearer token"}]: there
    [__proto__] is an own key like any other. *)
Definition headers_with_proto : PassThroughHandler.Headers :=
  [("__proto__"%string, Some (PassThroughHandler.Single "polluted"));
   ("authorization"%string, Some (PassThroughHandler.Single "Bearer token"))].

(** A platform that decodes one encoded URL and parses its host. *)
Definition products_encoded : string := "http%3A%2F%2Fproducts%3A4001%2Fgraphql".

Definition example_platform : Server.Platform :=
  {| Server.decodeURIComponent :=
       fun enc => if String.eqb enc products_encoded then Some products_url else None;
     Server.url_hostname :=
       fun u => if String.eqb u products_url then Some "products"%string else None |}.

Definition typename_body : Json.json :=
  Json.JObj [("query"%string, Json.JStr "{ __typename }")].

(** [POST /http%3A%2F%2Fproducts%3A4001%2Fgraphql] with the header. *)
Definition request_products : Server.ProxyRequest :=
  {| Server.encodedUrl := Some products_encoded;
     Server.headers :=
       [("content-type"%string, Some (PassThroughHandler.Single "application/json"));
        ("x-subgraph-name"%string, Some (PassThroughHandler.Single "products"))];
     Server.body := typename_body;
     Server.targetUrl := None;
     Server.subgraphName := None |}.

(** The same request without the header. *)
Definition request_no_header : Server.ProxyRequest :=
  {| Server.encodedUrl := Some products_encoded;
     Server.headers :=
       [("content-type"%string, Some (PassThroughHandler.Single "application/json"))];
     Server.body := typename_body;
     Server.targetUrl := None;
     Server.subgraphName := None |}.

(** A passthrough handler built with the cache that holds [products]. *)
Definition handler_products : PassThroughHandler.Handler string :=
  {| PassThroughHandler.schemaCache := Some cache_products;
     PassThroughHandler.sources := example_sources;
     PassThroughHandler.printSchema := fun text => text;
     PassThroughHandler.clock := 2000;
     PassThroughHandler.clock_after_load := 2001 |}.

(** A handler whose cache is empty and cannot load: [getSchema] fails. *)
Definition handler_offline : PassThroughHandler.Handler string :=
  {| PassThroughHandler.schemaCache := Some empty_cache;
     PassThroughHandler.sources := offline_sources;
     PassThroughHandler.printSchema := fun text => text;
     PassThroughHandler.clock := 2000;
     PassThroughHandler.clock_after_load := 2001 |}.

(** An upstream that refuses the connection. *)
Definition upstream_refused
    : PassThroughHandler.UpstreamRequest -> PassThroughHandler.UpstreamOutcome :=
  fun _ => PassThroughHandler.UpstreamError econnrefused.

(** A request whose body is the federation introspection query. *)
Definition introspection_request : PassThroughHandler.Request :=
  {| PassThroughHandler.req_headers :=
       [("content-type"%string, Some (PassThroughHandler.Single "application/json"));
        ("x-subgraph-name"%string, Some (PassThroughHandler.Single "products"))];
     PassThroughHandler.req_body :=
       Json.JObj [("query"%string,
                   Json.JStr QueryUtils.FEDERATION_INTROSPECTION_QUERY)] |}.

(** The same request as the route receives it. *)
Definition introspection_proxy_request : Server.ProxyRequest :=
  {| Server.encodedUrl := Some products_encoded;
     Server.headers := PassThroughHandler.req_headers introspection_request;
     Server.body := PassThroughHandler.req_body introspection_request;
     Server.targetUrl := None;
     Server.subgraphName := None |}.

(** [products] after two failed health checks, and after a third, good one. *)
Definition monitor_products_failed : SubgraphHealthMonitor.Monitor :=
  SubgraphHealthMonitor.run
    [SubgraphHealthMonitor.OpCheckHealth http_down 5000 1 "products";
     SubgraphHealthMonitor.OpCheckHealth http_down 5000 2 "products"]
    monitor_products.

Definition monitor_products_recovered : SubgraphHealthMonitor.Monitor :=
  SubgraphHealthMonitor.step monitor_products_failed
    (SubgraphHealthMonitor.OpCheckHealth http_up 5000 3 "products").

(** A local override that reads the schema from a file. *)
Definition cfg_local_file : SubgraphConfigItem := {|
  forceMock := false;
  disableMocking := false;
  useLocalSchema := false;
  cfg_url := None;
  schemaFile := Some "./schemas/reviews.graphql"%string;
  introspectionHeaders := None;
  maxRetries := 3;
  retryDelayMs := 1000;
  healthCheckIntervalMs := 30000
|}.

(** A local override that introspects the subgraph itself. *)
Definition cfg_introspect : SubgraphConfigItem := {|
  forceMock := false;
  disableMocking := false;
  useLocalSchema := true;
  cfg_url := None;
  schemaFile := None;
  introspectionHeaders := None;
  maxRetries := 3;
  retryDelayMs := 1000;
  healthCheckIntervalMs := 30000
|}.

Definition reviews_url : string := "http://reviews:4002".

Definition reviews_sdl : string :=
  "type Review { id: ID! body: String } type Query { reviews: [Review!]! }".

(** A world in which all three sources answer, each with an SDL of its
    own: the schema file of [reviews] is on disk, the subgraph answers the
    third introspection attempt, the registry serves [products_sdl] as
    version [v1]. *)
Definition local_sources : SchemaCache.Sources string :=
  {| SchemaCache.readFile :=
       fun f => if String.eqb f "./schemas/reviews.graphql"
                then Some reviews_sdl else None;
     SchemaCache.buildSchema := fun text => Some text;
     SchemaCache.generateSchemaHash := fun text => String.append "sha256 of " text;
     SchemaCache.fetchSubgraphSchema := fun _ => Some (products_sdl, "v1"%string);
     SchemaCache.axios_post := post_third_time |}.

(** Empty caches that recorded a source for [reviews]: the file; the
    subgraph's own URL; introspection without a URL. *)
Definition cache_reviews_file : SchemaCache.Cache string :=
  SchemaCache.setSubgraphConfig "reviews" (Some reviews_url) cfg_local_file empty_cache.

Definition cache_reviews_introspect : SchemaCache.Cache string :=
  SchemaCache.setSubgraphConfig "reviews" (Some reviews_url) cfg_introspect empty_cache.

Definition cache_reviews_no_url : SchemaCache.Cache string :=
  SchemaCache.setSubgraphConfig "reviews" None cfg_introspect empty_cache.

(** What the platform lists, and what the local file overrides. *)
Definition apollo_subgraphs : list (string * option string) :=
  [("products"%string, Some products_url);
   ("reviews"%string, Some "http://reviews:4002"%string);
   ("inventory"%string, None)].

Definition local_overrides : list (string * SubgraphConfigItem) :=
  [("reviews"%string, cfg_local_file); ("orders"%string, cfg_force_mock)].

(** A mock handler over the cache that holds [products]. *)
Definition mock_handler_products : MockHandler.Handler string :=
  {| MockHandler.schemaCache := cache_products;
     MockHandler.sources := example_sources;
     MockHandler.mockGenerator :=
       fun _ _ _ _ _ =>
         inr (Json.JObj [("data"%string,
                          Json.JObj [("__typename"%string, Json.JStr "Query")])]);
     MockHandler.printSubgraphSchema := fun text => text;
     MockHandler.clock := 2000;
     MockHandler.clock_after_load := 2001 |}.

(** A registry with [products] (URL, healthy after a first check) and
    [inventory] (no URL). *)
Definition registry_mixed : SubgraphRegistry.Registry :=
  fold_left SubgraphRegistry.registry_step
    [SubgraphRegistry.RegRegister "products" (Some products_url) None;
     SubgraphRegistry.RegRegister "inventory" None None;
     SubgraphRegistry.RegCheckAll http_up 5000 10]
    (SubgraphRegistry.new_registry 5000).

End Examples.

(** * Properties *)

(** ** The health monitor *)

Section HealthMonitorFacts.
Import Config.
Import SubgraphHealthMonitor.

Lemma startHealthChecks_states name m :
  states (startHealthChecks name m) = states m.
Proof.
  unfold startHealthChecks, stopHealthChecks.
  destruct (states m !! name) as [st|]; [|done].
  destruct (negb _); [done|].
  by destruct (healthCheckIntervals m !! name).
Qed.

Lemma registerSubgraph_states name url cfg m :
  states (registerSubgraph name url cfg m)
  = <[name := initialState name url cfg]> (states m).
Proof.
  unfold registerSubgraph.
  destruct (negb (forceMock cfg)); [|done].
  by rewrite startHealthChecks_states.
Qed.

Lemma registerSubgraph_forceMock_intervals name url cfg m :
  forceMock cfg = true ->
  healthCheckIntervals (registerSubgraph name url cfg m) = healthCheckIntervals m.
Proof. intros Hf. unfold registerSubgraph. by rewrite Hf. Qed.

Lemma apply_event_lookup name m e st :
  states m !! name = Some st ->
  states (apply_event name m e) !! name = Some (event_update e st).
Proof.
  intros Hst.
  destruct e; simpl; unfold updateStateFromHealthCheck, setHealth;
    rewrite Hst; simpl; by rewrite lookup_insert_eq.
Qed.

Lemma apply_event_lookup_ne name n m e :
  n <> name -> states (apply_event name m e) !! n = states m !! n.
Proof.
  intros Hne.
  destruct e; simpl; unfold updateStateFromHealthCheck, setHealth;
    destruct (states m !! name); simpl; try done;
    by rewrite lookup_insert_ne.
Qed.

Lemma apply_event_unregistered name m e :
  states m !! name = None -> apply_event name m e = m.
Proof.
  intros Hst.
  destruct e; simpl; unfold updateStateFromHealthCheck, setHealth; by rewrite Hst.
Qed.

Lemma apply_event_intervals name m e :
  healthCheckIntervals (apply_event name m e) = healthCheckIntervals m.
Proof.
  destruct e; simpl; unfold updateStateFromHealthCheck, setHealth;
    by destruct (states m !! name).
Qed.

(** A [checkHealth] call changes the monitor as the completed probe does. *)
Lemma checkHealth_as_event http t now name m :
  exists r, snd (fst (checkHealth http t now name m)) = apply_event name m (Probe r).
Proof.
  unfold checkHealth.
  destruct (states m !! name) as [st|] eqn:Hst.
  - destruct (match JS.nonempty (sg_url st) with
              | Some u => checkEndpointHealth http (Some u) t
              | None => (false, [])
              end) as [healthy calls].
    by eexists.
  - exists {| result_isHealthy := false; result_timestamp := 0 |}.
    simpl. unfold updateStateFromHealthCheck. by rewrite Hst.
Qed.

Lemma event_update_config e st : config (event_update e st) = config st.
Proof.
  destruct e as [r|b]; simpl; unfold probe_update, manual_update;
    [destruct (result_isHealthy r) | destruct b]; done.
Qed.

Lemma event_update_url e st : sg_url (event_update e st) = sg_url st.
Proof.
  destruct e as [r|b]; simpl; unfold probe_update, manual_update;
    [destruct (result_isHealthy r) | destruct b]; done.
Qed.

Lemma event_update_success e st :
  event_healthy e = true ->
  isHealthy (event_update e st) = true
  /\ consecutiveFailures (event_update e st) = 0
  /\ status (event_update e st) = available
  /\ isMocking (event_update e st) = forceMock (config st).
Proof.
  destruct e as [r|b]; simpl; unfold probe_update, manual_update;
    intros ->; simpl; by rewrite orb_false_r.
Qed.

Lemma event_update_failure e st :
  event_healthy e = false ->
  isHealthy (event_update e st) = false
  /\ consecutiveFailures (event_update e st) = consecutiveFailures st + 1.
Proof.
  destruct e as [r|b]; simpl; unfold probe_update, manual_update;
    intros ->; done.
Qed.

(** A failure that reaches [maxRetries], mocking neither forced nor disabled. *)
Lemma event_update_failure_mocking e st :
  event_healthy e = false ->
  disableMocking (config st) = false ->
  maxRetries (config st) <= consecutiveFailures st + 1 ->
  status (event_update e st) = mocking /\ isMocking (event_update e st) = true.
Proof.
  intros He Hd Hmax.
  apply Z.leb_le in Hmax.
  destruct e as [r|b]; simpl in *; unfold probe_update, manual_update;
    rewrite He; simpl; rewrite Hd, Hmax; simpl;
    by rewrite ?orb_true_r.
Qed.

(** Every state in the map of a stepped monitor is a fresh registration,
    an untouched state, or a state updated by one event. *)
Lemma step_lookup_cases m op n st' :
  states (step m op) !! n = Some st' ->
  (exists url cfg, op = OpRegister n url cfg /\ st' = initialState n url cfg)
  \/ states m !! n = Some st'
  \/ (exists st e, states m !! n = Some st /\ st' = event_update e st).
Proof.
  destruct op as [name url cfg | http t now name | name b]; simpl.
  - rewrite registerSubgraph_states.
    destruct (decide (name = n)) as [->|Hne].
    + rewrite lookup_insert_eq. intros [= <-]. left. by eexists _, _.
    + rewrite lookup_insert_ne by done. by right; left.
  - destruct (checkHealth_as_event http t now name m) as [r ->].
    destruct (decide (n = name)) as [->|Hne].
    + destruct (states m !! name) as [st|] eqn:Hst.
      * rewrite (apply_event_lookup _ _ _ _ Hst). intros [= <-].
        right; right. by exists st, (Probe r).
      * rewrite apply_event_unregistered by done. rewrite Hst. done.
    + rewrite apply_event_lookup_ne by done. by right; left.
  - change (setHealth name b m) with (apply_event name m (Manual b)).
    destruct (decide (n = name)) as [->|Hne].
    + destruct (states m !! name) as [st|] eqn:Hst.
      * rewrite (apply_event_lookup _ _ _ _ Hst). intros [= <-].
        right; right. by exists st, (Manual b).
      * rewrite apply_event_unregistered by done. rewrite Hst. done.
    + rewrite apply_event_lookup_ne by done. by right; left.
Qed.

(** An invariant of single states that registration establishes and events
    preserve holds of every state in every reachable monitor. *)
Lemma reachable_state_invariant (P : SubgraphState -> Prop) :
  (forall name url cfg, P (initialState name url cfg)) ->
  (forall e st, P st -> P (event_update e st)) ->
  forall m, reachable m -> forall n st, states m !! n = Some st -> P st.
Proof.
  intros Hinit Hev m Hreach.
  induction Hreach as [|m op Hreach IH]; intros n st Hst.
  - simpl in Hst. by rewrite lookup_empty in Hst.
  - destruct (step_lookup_cases _ _ _ _ Hst)
      as [(url & cfg & _ & ->) | [Hold | (st0 & e & Hold & ->)]]; eauto.
Qed.

Lemma reachable_failures_nonneg m :
  reachable m -> forall n st, states m !! n = Some st -> 0 <= consecutiveFailures st.
Proof.
  apply (reachable_state_invariant (fun st => 0 <= consecutiveFailures st)).
  - intros; simpl; lia.
  - intros e st Hst.
    destruct (event_healthy e) eqn:He.
    + destruct (event_update_success e st He) as (_ & -> & _). lia.
    + destruct (event_update_failure e st He) as (_ & ->). lia.
Qed.

Lemma reachable_run ops m : reachable m -> reachable (run ops m).
Proof.
  revert m. induction ops as [|op ops IH]; intros m Hm; simpl; [done|].
  apply IH. by constructor.
Qed.

Lemma event_update_forceMock e st :
  forceMock (config st) = true -> isMocking st = true ->
  isMocking (event_update e st) = true.
Proof.
  intros Hf Hm.
  destruct e as [r|b]; simpl; unfold probe_update, manual_update;
    [destruct (result_isHealthy r) | destruct b]; simpl; rewrite ?Hf, ?Hm; try done.
  by destruct (_ && _).
Qed.

(** The state of a registered subgraph after a run of failures. *)
Lemma failures_run name fs : forall m st,
  states m !! name = Some st ->
  Forall (fun e => event_healthy e = false) fs ->
  exists st',
    states (apply_events name fs m) !! name = Some st'
    /\ config st' = config st
    /\ sg_url st' = sg_url st
    /\ consecutiveFailures st' = consecutiveFailures st + Z.of_nat (length fs)
    /\ (fs <> [] -> isHealthy st' = false)
    /\ (fs <> [] ->
        disableMocking (config st) = false ->
        maxRetries (config st) <= consecutiveFailures st + Z.of_nat (length fs) ->
        status st' = mocking /\ isMocking st' = true).
Proof.
  induction fs as [|e fs IH]; intros m st Hst Hall.
  - exists st. simpl. repeat split; try done. lia.
  - apply Forall_cons in Hall as [He Hall].
    pose proof (apply_event_lookup name m e st Hst) as Hst1.
    destruct (IH _ _ Hst1 Hall) as (st' & Hst' & Hcfg & Hurl & Hcf & Hh & Hmock).
    destruct (event_update_failure e st He) as [Hh1 Hcf1].
    exists st'. simpl. rewrite event_update_config in Hcfg, Hmock.
    rewrite event_update_url in Hurl.
    split; [done|]. split; [done|]. split; [done|].
    split; [rewrite Hcf, Hcf1; lia|].
    destruct fs as [|e' fs'].
    + simpl in Hst'. rewrite Hst1 in Hst'. injection Hst' as <-.
      split; [done|]. intros _ Hd Hmax.
      apply event_update_failure_mocking; try done; simpl in Hmax; lia.
    + split; [intros _; by apply Hh|].
      intros _ Hd Hmax. apply Hmock; try done;
        rewrite Hcf1; simpl length in *; lia.
Qed.

(** Without a URL, a run of [checkHealth] calls is a run of failed probes
    and performs no request. *)
Lemma checkHealth_seq_no_url http t name nows : forall m st,
  states m !! name = Some st -> sg_url st = None ->
  checkHealth_seq http t nows name m
  = (apply_events name
       (List.map (fun now => Probe {| result_isHealthy := false;
                                      result_timestamp := now |}) nows) m,
     []).
Proof.
  induction nows as [|now nows IH]; intros m st Hst Hurl; [done|].
  simpl. unfold checkHealth at 1. rewrite Hst, Hurl.
  change (JS.nonempty None) with (@None string). cbv iota beta.
  set (r := {| result_isHealthy := false; result_timestamp := now |}).
  pose proof (apply_event_lookup name m (Probe r) st Hst) as Hst1.
  simpl in Hst1.
  rewrite (IH _ _ Hst1) by (unfold probe_update; by simpl).
  done.
Qed.

End HealthMonitorFacts.

Section HealthMonitorClaims.
Import Config.
Import SubgraphHealthMonitor.

(** C2 (as amended).  For a registered subgraph of a reachable monitor, the
    completion of a probe ([updateStateFromHealthCheck]) or a manual override
    ([setHealth]) acts as follows.  On success [isHealthy] becomes true,
    [consecutiveFailures] 0, [status] [available] and [isMocking] equal to
    [forceMock].  On failure [consecutiveFailures] grows by one.  With
    [disableMocking = false] and [forceMock = false], after a run of
    [N >= maxRetries] consecutive failures that is not empty ([N >= 1]) the
    status is [mocking] with [isMocking = true], and the next success resets
    the state to [available] with [consecutiveFailures = 0]. *)
Theorem probe_completion_transitions (m : Monitor) (name : string) (st : SubgraphState) :
  reachable m ->
  states m !! name = Some st ->
  (forall e, event_healthy e = true ->
     exists st', states (apply_event name m e) !! name = Some st'
       /\ isHealthy st' = true
       /\ consecutiveFailures st' = 0
       /\ status st' = available
       /\ isMocking st' = forceMock (config st))
  /\ (forall e, event_healthy e = false ->
        exists st', states (apply_event name m e) !! name = Some st'
          /\ consecutiveFailures st' = consecutiveFailures st + 1)
  /\ (disableMocking (config st) = false ->
      forceMock (config st) = false ->
      forall fs, fs <> [] ->
        Forall (fun e => event_healthy e = false) fs ->
        maxRetries (config st) <= Z.of_nat (length fs) ->
        exists st', states (apply_events name fs m) !! name = Some st'
          /\ status st' = mocking
          /\ isMocking st' = true
          /\ forall ok, event_healthy ok = true ->
               exists st'',
                 states (apply_event name (apply_events name fs m) ok) !! name = Some st''
                 /\ status st'' = available
                 /\ consecutiveFailures st'' = 0).
Proof.
  intros Hreach Hst.
  pose proof (reachable_failures_nonneg m Hreach name st Hst) as Hnonneg.
  split; [|split].
  - intros e He. exists (event_update e st).
    split; [by apply apply_event_lookup|]. by apply event_update_success.
  - intros e He. exists (event_update e st).
    split; [by apply apply_event_lookup|]. by apply event_update_failure.
  - intros Hd Hf fs Hne Hall Hmax.
    destruct (failures_run name fs m st Hst Hall)
      as (st' & Hst' & Hcfg & _ & _ & _ & Hmock).
    destruct (Hmock Hne Hd ltac:(lia)) as [Hstatus Hmocking].
    exists st'. repeat split; try done.
    intros ok Hok. exists (event_update ok st').
    split; [by apply apply_event_lookup|].
    destruct (event_update_success ok st' Hok) as (_ & ? & ? & _). done.
Qed.

(** C3 (as amended).  Registering a subgraph with [forceMock = true] gives
    it a state with [isMocking = true] and [status = unknown], and leaves
    the probe timers as they were: the call schedules nothing.  Through any
    later registrations of other names, health checks and manual overrides,
    its [isMocking] stays true, its configuration stays the same, and its
    entry in the timer table stays what it was before the registration. *)
Theorem forceMock_registration_invariant (m : Monitor) (name : string)
    (url : option string) (cfg : SubgraphConfigItem) :
  forceMock cfg = true ->
  (exists st, states (registerSubgraph name url cfg m) !! name = Some st
     /\ isMocking st = true /\ status st = unknown)
  /\ healthCheckIntervals (registerSubgraph name url cfg m) = healthCheckIntervals m
  /\ forall ops, Forall (fun op => registers name op = false) ops ->
       (exists st, states (run ops (registerSubgraph name url cfg m)) !! name = Some st
          /\ isMocking st = true /\ config st = cfg)
       /\ healthCheckIntervals (run ops (registerSubgraph name url cfg m)) !! name
          = healthCheckIntervals m !! name.
Proof.
  intros Hf.
  assert (Hinit : states (registerSubgraph name url cfg m) !! name
                  = Some (initialState name url cfg)).
  { rewrite registerSubgraph_states. apply lookup_insert_eq. }
  split; [|split].
  - exists (initialState name url cfg). split; [done|]. simpl. by rewrite Hf.
  - by apply registerSubgraph_forceMock_intervals.
  - intros ops Hops.
    pose proof (registerSubgraph_forceMock_intervals name url cfg m Hf) as Hint.
    assert (Hgen : forall m0,
      (exists st, states m0 !! name = Some st /\ isMocking st = true /\ config st = cfg) ->
      (exists st, states (run ops m0) !! name = Some st
         /\ isMocking st = true /\ config st = cfg)
      /\ healthCheckIntervals (run ops m0) !! name = healthCheckIntervals m0 !! name).
    { clear Hinit Hint. induction ops as [|op ops IH]; intros m0 Hm0; [done|].
      apply Forall_cons in Hops as [Hop Hops]. simpl.
      destruct Hm0 as (st & Hst & Hmk & Hcfg).
      assert (Hstep : (exists st1, states (step m0 op) !! name = Some st1
                         /\ isMocking st1 = true /\ config st1 = cfg)
                      /\ healthCheckIntervals (step m0 op) !! name
                         = healthCheckIntervals m0 !! name).
      { destruct op as [n u c | http t now n | n b]; simpl in *.
        - apply String.eqb_neq in Hop. split.
          + exists st. rewrite registerSubgraph_states.
            by rewrite lookup_insert_ne.
          + unfold registerSubgraph. destruct (negb (forceMock c)); [|done].
            unfold startHealthChecks, stopHealthChecks; simpl.
            rewrite lookup_insert_eq.
            destruct (negb _); [done|].
            destruct (healthCheckIntervals m0 !! n); simpl;
              rewrite lookup_insert_ne by done; [|done].
            by rewrite lookup_delete_ne.
        - destruct (checkHealth_as_event http t now n m0) as [r ->].
          rewrite apply_event_intervals. split; [|done].
          destruct (decide (n = name)) as [->|Hne].
          + exists (event_update (Probe r) st).
            split; [by apply apply_event_lookup|].
            rewrite event_update_config.
            split; [|done]. apply event_update_forceMock; congruence.
          + exists st. by rewrite apply_event_lookup_ne.
        - change (setHealth n b m0) with (apply_event n m0 (Manual b)).
          rewrite apply_event_intervals. split; [|done].
          destruct (decide (n = name)) as [->|Hne].
          + exists (event_update (Manual b) st).
            split; [by apply apply_event_lookup|].
            rewrite event_update_config.
            split; [|done]. apply event_update_forceMock; congruence.
          + exists st. by rewrite apply_event_lookup_ne. }
      destruct Hstep as [Hstate Hintv].
      destruct (IH Hops _ Hstate) as [Hfinal Hintv'].
      split; [done|]. by rewrite Hintv', Hintv. }
    destruct (Hgen (registerSubgraph name url cfg m)) as [Hstate Hintv].
    { exists (initialState name url cfg). split; [done|]. simpl. by rewrite Hf. }
    split; [done|]. by rewrite Hintv, Hint.
Qed.

(** C4 (as amended).  In every reachable state of the monitor, a subgraph
    with [isMocking = true] has [forceMock] set, or has mocking enabled and
    [consecutiveFailures >= maxRetries], or was registered without a URL. *)
Theorem isMocking_invariant (m : Monitor) :
  reachable m ->
  forall name st, states m !! name = Some st ->
    isMocking st = true ->
    forceMock (config st) = true
    \/ (disableMocking (config st) = false
        /\ maxRetries (config st) <= consecutiveFailures st)
    \/ JS.truthy (sg_url st) = false.
Proof.
  apply (reachable_state_invariant
           (fun st => isMocking st = true ->
              forceMock (config st) = true
              \/ (disableMocking (config st) = false
                  /\ maxRetries (config st) <= consecutiveFailures st)
              \/ JS.truthy (sg_url st) = false)).
  - intros name url cfg. simpl.
    destruct (forceMock cfg); [by left|].
    destruct (JS.truthy url); [done|]. by right; right.
  - intros e st IH.
    rewrite event_update_config, event_update_url.
    destruct (event_healthy e) eqn:He.
    + destruct (event_update_success e st He) as (_ & _ & _ & ->). by left.
    + destruct (forceMock (config st)) eqn:Hf; [by left|].
      destruct (disableMocking (config st)) eqn:Hd.
      * intros Hm. right; right.
        destruct e as [r|b]; simpl in *; unfold probe_update, manual_update in Hm;
          rewrite He in Hm; simpl in Hm; rewrite ?Hf, ?Hd in Hm; simpl in Hm;
          rewrite ?andb_false_r in Hm; simpl in Hm;
          destruct (IH Hm) as [?|[[? _]|?]]; done.
      * destruct (event_update_failure e st He) as [_ Hcf].
        destruct (Z.le_gt_cases (maxRetries (config st)) (consecutiveFailures st + 1))
          as [Hle|Hgt].
        -- intros _. right; left. rewrite Hcf. done.
        -- intros Hm. apply Z.leb_gt in Hgt.
           destruct e as [r|b]; simpl in *; unfold probe_update, manual_update in Hm;
             rewrite He in Hm; simpl in Hm; rewrite ?Hf, ?Hd, ?Hgt in Hm; simpl in Hm;
             destruct (IH Hm) as [?|[[_ Hold]|?]]; try done;
             try (by right; right);
             apply Z.leb_gt in Hgt; lia.
Qed.

(** C9 (as amended).  For a registered subgraph of a reachable monitor with
    no URL and [forceMock = false], a [checkHealth] call reports
    [isHealthy = false], performs no HTTP request, and raises
    [consecutiveFailures] by one; consequently, with [disableMocking =
    false], after [n] such calls, [n >= 1] and [n >= maxRetries], the status
    is [mocking], and no request was made. *)
Theorem checkHealth_without_url (m : Monitor) (name : string) (st : SubgraphState) :
  reachable m ->
  states m !! name = Some st ->
  sg_url st = None ->
  forceMock (config st) = false ->
  (forall http t now,
     exists m' st',
       checkHealth http t now name m
       = (Checked {| result_isHealthy := false; result_timestamp := now |}, m', [])
       /\ states m' !! name = Some st'
       /\ isHealthy st' = false
       /\ consecutiveFailures st' = consecutiveFailures st + 1)
  /\ (disableMocking (config st) = false ->
      forall http t nows,
        nows <> [] ->
        maxRetries (config st) <= Z.of_nat (length nows) ->
        exists m' st',
          checkHealth_seq http t nows name m = (m', [])
          /\ states m' !! name = Some st'
          /\ status st' = mocking).
Proof.
  intros Hreach Hst Hurl Hf.
  pose proof (reachable_failures_nonneg m Hreach name st Hst) as Hnonneg.
  split.
  - intros http t now.
    set (r := {| result_isHealthy := false; result_timestamp := now |}).
    exists (apply_event name m (Probe r)), (event_update (Probe r) st).
    split; [unfold checkHealth; by rewrite Hst, Hurl|].
    split; [by apply apply_event_lookup|].
    by apply (event_update_failure (Probe r)).
  - intros Hd http t nows Hne Hmax.
    rewrite (checkHealth_seq_no_url http t name nows m st Hst Hurl).
    set (fs := List.map _ nows).
    assert (Hall : Forall (fun e => event_healthy e = false) fs).
    { apply Forall_forall. intros e He. apply list_elem_of_In in He.
      apply in_map_iff in He as (now & <- & _). done. }
    assert (Hlen : length fs = length nows) by apply length_map.
    destruct (failures_run name fs m st Hst Hall)
      as (st' & Hst' & _ & _ & _ & _ & Hmock).
    assert (Hfs : fs <> []).
    { intros Heq. apply Hne. destruct nows; [done|]. unfold fs in Heq. done. }
    destruct (Hmock Hfs Hd ltac:(lia)) as [Hstatus _].
    by exists (apply_events name fs m), st'.
Qed.

End HealthMonitorClaims.

Section HealthMonitorWitnesses.
Import Config.
Import SubgraphHealthMonitor.

Lemma reachable_register name url cfg :
  reachable (registerSubgraph name url cfg empty_monitor).
Proof.
  exact (reachable_step empty_monitor (OpRegister name url cfg) reachable_empty).
Defined.

(** C2, at [products] with the default configuration ([maxRetries = 2]):
    two failed probes lead to [mocking]. *)
Lemma probe_completion_transitions_witness :
  reachable Examples.monitor_products
  /\ states Examples.monitor_products !! "products"
     = Some (initialState "products" (Some Examples.products_url) DEFAULT_SUBGRAPH_CONFIG)
  /\ exists st',
       states (apply_events "products"
                 [Examples.failed_probe 1; Examples.failed_probe 2]
                 Examples.monitor_products) !! "products" = Some st'
       /\ status st' = mocking
       /\ isMocking st' = true.
Proof.
  assert (Hreach : reachable Examples.monitor_products) by apply reachable_register.
  assert (Hst : states Examples.monitor_products !! "products"
                = Some (initialState "products" (Some Examples.products_url)
                          DEFAULT_SUBGRAPH_CONFIG)) by (vm_compute; reflexivity).
  split; [exact Hreach|]. split; [exact Hst|].
  destruct (probe_completion_transitions _ _ _ Hreach Hst) as (_ & _ & Hrun).
  destruct (Hrun eq_refl eq_refl
              [Examples.failed_probe 1; Examples.failed_probe 2])
    as (st' & Hst' & Hstatus & Hmock & _).
  - discriminate.
  - repeat constructor.
  - simpl. lia.
  - exists st'. repeat split; assumption.
Defined.

(** C2 as stated fails for an empty run: with [maxRetries = 0], [N = 0]
    failures satisfy [N >= maxRetries], and the state is the one of the
    registration, whose status is [unknown]. *)
Lemma zero_failures_not_mocking :
  reachable Examples.monitor_zero_retries
  /\ exists st,
       states Examples.monitor_zero_retries !! "products" = Some st
       /\ disableMocking (config st) = false
       /\ forceMock (config st) = false
       /\ maxRetries (config st) <= Z.of_nat (length (@nil HealthEvent))
       /\ states (apply_events "products" [] Examples.monitor_zero_retries) !! "products"
          = Some st
       /\ status st <> mocking
       /\ isMocking st <> true.
Proof.
  split; [apply reachable_register|].
  exists (initialState "products" (Some Examples.products_url) Examples.cfg_zero_retries).
  repeat split; try (vm_compute; congruence); try discriminate.
Qed.

(** C3, at [reviews] registered with [forceMock]: after a successful probe
    and a manual failure it is still mocking, with no timer. *)
Lemma forceMock_registration_invariant_witness :
  forceMock Examples.cfg_force_mock = true
  /\ (exists st,
        states (run [OpCheckHealth Examples.http_up 5000 10 "reviews";
                     OpSetHealth "reviews" false]
                  Examples.monitor_force_mock) !! "reviews" = Some st
        /\ isMocking st = true /\ config st = Examples.cfg_force_mock)
  /\ healthCheckIntervals
       (run [OpCheckHealth Examples.http_up 5000 10 "reviews";
             OpSetHealth "reviews" false]
          Examples.monitor_force_mock) !! "reviews" = None.
Proof.
  split; [reflexivity|].
  destruct (forceMock_registration_invariant empty_monitor "reviews"
              (Some "http://reviews:4002"%string) Examples.cfg_force_mock eq_refl)
    as (_ & _ & Hrun).
  destruct (Hrun [OpCheckHealth Examples.http_up 5000 10 "reviews";
                  OpSetHealth "reviews" false]) as [Hstate Hintv].
  - repeat constructor.
  - split; [exact Hstate|]. exact Hintv.
Defined.

(** C3 as stated fails at the registration itself: the state of a subgraph
    registered with [forceMock] has status [unknown].  The periodic check of
    the registry then probes its URL like any other, and a successful probe
    makes the status [available]. *)
Lemma forceMock_registration_status_unknown :
  SubgraphRegistry.registerSubgraph "reviews" (Some "http://reviews:4002"%string)
    (Some Examples.cfg_force_mock) Examples.empty_registry
  = Some Examples.registry_force_mock
  /\ (exists st,
        states Examples.monitor_force_mock !! "reviews" = Some st
        /\ forceMock (config st) = true
        /\ isMocking st = true
        /\ status st = unknown
        /\ status st <> mocking)
  /\ exists r' st',
       SubgraphRegistry.checkAllSubgraphs Examples.http_up 5000 10
         Examples.registry_force_mock
       = (r', [{| call_endpoint := Some "http://reviews:4002"%string;
                  call_timeout := 5000 |}])
       /\ states (SubgraphRegistry.healthMonitor r') !! "reviews" = Some st'
       /\ status st' = available.
Proof.
  split; [vm_compute; reflexivity|]. split.
  - exists (initialState "reviews" (Some "http://reviews:4002"%string)
              Examples.cfg_force_mock).
    repeat split; try (vm_compute; reflexivity); discriminate.
  - eexists _, _. split; [vm_compute; reflexivity|].
    split; [vm_compute; reflexivity|reflexivity].
Qed.

(** C4, at [products] after two failed probes. *)
Lemma isMocking_invariant_witness :
  reachable (run [OpCheckHealth Examples.http_down 5000 1 "products";
                  OpCheckHealth Examples.http_down 5000 2 "products"]
               Examples.monitor_products)
  /\ exists st,
       states (run [OpCheckHealth Examples.http_down 5000 1 "products";
                    OpCheckHealth Examples.http_down 5000 2 "products"]
                 Examples.monitor_products) !! "products" = Some st
       /\ isMocking st = true
       /\ (forceMock (config st) = true
           \/ (disableMocking (config st) = false
               /\ maxRetries (config st) <= consecutiveFailures st)
           \/ JS.truthy (sg_url st) = false).
Proof.
  assert (Hreach : reachable
            (run [OpCheckHealth Examples.http_down 5000 1 "products";
                  OpCheckHealth Examples.http_down 5000 2 "products"]
               Examples.monitor_products)).
  { apply reachable_run. apply reachable_register. }
  split; [exact Hreach|].
  eexists. split; [vm_compute; reflexivity|]. split; [reflexivity|].
  eapply (isMocking_invariant _ Hreach "products"); [vm_compute|]; reflexivity.
Defined.

(** C4 as stated fails for a subgraph registered without a URL: it is
    mocking from the registration on, with [forceMock = false] and no
    failure counted. *)
Lemma isMocking_without_url_breaks_invariant :
  reachable Examples.monitor_no_url
  /\ exists st,
       states Examples.monitor_no_url !! "inventory" = Some st
       /\ isMocking st = true
       /\ ~ (forceMock (config st) = true
             \/ (disableMocking (config st) = false
                 /\ maxRetries (config st) <= consecutiveFailures st)).
Proof.
  split; [apply reachable_register|].
  exists (initialState "inventory" None DEFAULT_SUBGRAPH_CONFIG).
  split; [vm_compute; reflexivity|]. split; [reflexivity|].
  simpl. intros [H|[_ H]]; [discriminate|lia].
Qed.

(** C9, at [inventory] without URL and the default configuration: two
    calls lead to [mocking] and no request is made. *)
Lemma checkHealth_without_url_witness :
  reachable Examples.monitor_no_url
  /\ states Examples.monitor_no_url !! "inventory"
     = Some (initialState "inventory" None DEFAULT_SUBGRAPH_CONFIG)
  /\ exists m' st',
       checkHealth_seq Examples.http_up 5000 [1; 2] "inventory" Examples.monitor_no_url
       = (m', [])
       /\ states m' !! "inventory" = Some st'
       /\ status st' = mocking.
Proof.
  assert (Hreach : reachable Examples.monitor_no_url) by apply reachable_register.
  assert (Hst : states Examples.monitor_no_url !! "inventory"
                = Some (initialState "inventory" None DEFAULT_SUBGRAPH_CONFIG))
    by (vm_compute; reflexivity).
  split; [exact Hreach|]. split; [exact Hst|].
  destruct (checkHealth_without_url _ _ _ Hreach Hst eq_refl eq_refl) as [_ Hseq].
  apply (Hseq eq_refl Examples.http_up 5000 [1; 2]).
  - discriminate.
  - simpl. lia.
Defined.

(** C9 as stated fails at [maxRetries = 0]: after [maxRetries] (that is,
    zero) calls the state is the one of the registration, whose status is
    [unknown]. *)
Lemma no_url_zero_retries_not_mocking :
  reachable Examples.monitor_no_url_zero
  /\ exists st,
       states Examples.monitor_no_url_zero !! "inventory" = Some st
       /\ sg_url st = None
       /\ forceMock (config st) = false
       /\ disableMocking (config st) = false
       /\ Z.of_nat (length (@nil Z)) = maxRetries (config st)
       /\ exists m' st',
            checkHealth_seq Examples.http_up 5000 [] "inventory"
              Examples.monitor_no_url_zero = (m', [])
            /\ states m' !! "inventory" = Some st'
            /\ status st' <> mocking.
Proof.
  split; [apply reachable_register|].
  exists (initialState "inventory" None Examples.cfg_zero_retries).
  repeat split; try (vm_compute; reflexivity).
  exists Examples.monitor_no_url_zero,
         (initialState "inventory" None Examples.cfg_zero_retries).
  repeat split; try (vm_compute; reflexivity). discriminate.
Qed.

End HealthMonitorWitnesses.

(** ** The routing predicate *)

Section RegistryClaims.
Import Config.
Import SubgraphRegistry.

Lemma obj_get_In {A : Type} (k : string) (o : list (string * A)) (v : A) :
  JS.obj_get k o = Some v -> In v (List.map snd o).
Proof.
  induction o as [|[k' v'] o IH]; simpl; [done|].
  destruct (String.eqb k' k).
  - intros [= ->]. by left.
  - intros H. right. by apply IH.
Qed.

Lemma url_eqb_refl u : url_eqb u u = true.
Proof. destruct u as [u|]; simpl; [apply String.eqb_refl|done]. Qed.

Lemma resolve_subgraph_In r name url s :
  resolve_subgraph r name url = Some s -> In s (List.map snd (registry r)).
Proof.
  unfold resolve_subgraph, getSubgraphByName, getSubgraphByUrl.
  destruct (JS.nonempty name) as [n|].
  - apply obj_get_In.
  - destruct (JS.nonempty url) as [u|]; [|done].
    intros H. by apply find_some in H as [H _].
Qed.

(** A subgraph taken from the registry is found again by its own URL. *)
Lemma getSubgraphByUrl_of_member r s :
  In s (List.map snd (registry r)) ->
  exists s2, getSubgraphByUrl r (info_url s) = Some s2
             /\ url_eqb (info_url s2) (info_url s) = true.
Proof.
  intros Hin. unfold getSubgraphByUrl.
  destruct (List.find _ _) as [s2|] eqn:Hfind.
  - exists s2. split; [done|]. by apply find_some in Hfind as [_ H].
  - exfalso. pose proof (find_none _ _ Hfind s Hin) as H. simpl in H.
    by rewrite url_eqb_refl in H.
Qed.

(** C1 (as amended).  [shouldPassthroughToSubgraph] answers true exactly
    when global passthrough is enabled, the subgraph is resolved in the
    registry (by name, or by URL when no name is given), its [isMocking] is
    false, and the cached [isHealthy] of the first registered subgraph that
    carries the resolved subgraph's URL is true.  No live probe is made:
    the function performs no HTTP request. *)
Theorem shouldPassthrough_cached_health (enabled : bool)
    (http : SubgraphHealthMonitor.HttpClient) (r : Registry)
    (name url : option string) :
  (fst (shouldPassthroughToSubgraph enabled http r name url) = true <->
     enabled = true
     /\ exists s, resolve_subgraph r name url = Some s
          /\ info_isMocking r s = false
          /\ exists s2, getSubgraphByUrl r (info_url s) = Some s2
               /\ isAvailable r s2 = true)
  /\ snd (shouldPassthroughToSubgraph enabled http r name url) = [].
Proof.
  unfold shouldPassthroughToSubgraph.
  destruct enabled; simpl.
  2: { split; [|done]. split; [done|]. by intros [? _]. }
  destruct (resolve_subgraph r name url) as [s|] eqn:Hres; simpl.
  2: { split; [|done]. split; [done|]. by intros (_ & s & ? & _). }
  destruct (getSubgraphByUrl_of_member r s (resolve_subgraph_In _ _ _ _ Hres))
    as (s2 & Hs2 & _).
  destruct (info_isMocking r s) eqn:Hmock; simpl.
  { split; [|done]. split; [done|]. by intros (_ & s' & [= <-] & ? & _); congruence. }
  unfold isSubgraphAvailable. rewrite Hs2. simpl.
  split; [|done]. split.
  - intros Hav. split; [done|]. exists s. repeat split; try done. by exists s2.
  - intros (_ & s' & [= <-] & _ & s2' & Hs2' & Hav). congruence.
Qed.

(** When no two registered subgraphs share a URL, the flag consulted is
    the one of the resolved subgraph itself. *)
Lemma getSubgraphByUrl_unique r s :
  NoDup (List.map info_url (List.map snd (registry r))) ->
  In s (List.map snd (registry r)) ->
  getSubgraphByUrl r (info_url s) = Some s.
Proof.
  unfold getSubgraphByUrl.
  induction (List.map snd (registry r)) as [|x l IH]; simpl; [done|].
  intros Hnd [->|Hin].
  - by rewrite url_eqb_refl.
  - apply NoDup_cons in Hnd as [Hx Hnd].
    destruct (url_eqb (info_url x) (info_url s)) eqn:Heq; [|by apply IH].
    exfalso. apply Hx. apply list_elem_of_In.
    assert (info_url x = info_url s) as ->.
    { destruct (info_url x), (info_url s); simpl in Heq; try done.
      by apply String.eqb_eq in Heq as ->. }
    by apply in_map.
Qed.

(** C1 as stated fails: [products] is registered with a URL, not mocking,
    its cached [isHealthy] still false, and a live probe of the URL would
    return 200; the routing predicate answers false, without probing. *)
Lemma shouldPassthrough_ignores_live_probe :
  shouldPassthroughToSubgraph true Examples.http_up Examples.registry_products
    (Some "products"%string) (Some Examples.products_url) = (false, [])
  /\ (exists st,
        getState Examples.registry_products
          {| info_name := "products"; info_url := Some Examples.products_url |} = Some st
        /\ isMocking st = false
        /\ isHealthy st = false)
  /\ live_probe_ok Examples.http_up Examples.registry_products Examples.products_url = true.
Proof.
  split; [vm_compute; reflexivity|].
  split; [|vm_compute; reflexivity].
  eexists. split; [vm_compute; reflexivity|]. split; reflexivity.
Qed.

(** C1, at [products] once a health check has succeeded: the cached flag
    is true and the request is passed through. *)
Lemma shouldPassthrough_cached_health_witness :
  fst (shouldPassthroughToSubgraph true Examples.http_down
         Examples.registry_products_healthy
         (Some "products"%string) (Some Examples.products_url)) = true.
Proof.
  apply (shouldPassthrough_cached_health true Examples.http_down
           Examples.registry_products_healthy
           (Some "products"%string) (Some Examples.products_url)).
  split; [reflexivity|].
  exists {| info_name := "products"; info_url := Some Examples.products_url |}.
  split; [vm_compute; reflexivity|]. split; [vm_compute; reflexivity|].
  exists {| info_name := "products"; info_url := Some Examples.products_url |}.
  split; vm_compute; reflexivity.
Defined.

End RegistryClaims.

(** ** The introspection service *)

Section IntrospectionClaims.
Import Json.
Import Axios.
Import IntrospectionService.

Lemma attempts_trace_succ ev d k :
  (1 <= k)%nat ->
  attempts_trace ev d (S k) = ev :: EvDelay d :: attempts_trace ev d k.
Proof. destruct k; [lia|done]. Qed.

Lemma count_posts_attempts endpoint q t hs d k :
  count_posts (attempts_trace (EvPost endpoint q t hs) d k) = k.
Proof.
  induction k as [|k IH]; [done|].
  destruct k as [|k]; [done|].
  rewrite attempts_trace_succ by lia.
  unfold count_posts in *. simpl filter. simpl length.
  simpl in IH. by rewrite IH.
Qed.

(** What a successful single attempt says about the response. *)
Lemma performIntrospection_inr outcome v :
  performIntrospection outcome = inr v ->
  exists body,
    outcome = Resolved body
    /\ truthy (opt_member body "data") = true
    /\ member (opt_member (opt_member body "data") "_service") "sdl" = Some v.
Proof.
  unfold performIntrospection.
  destruct outcome as [body|e]; [|done].
  destruct (truthy (opt_member body "data")) eqn:Hd; simpl; [|done].
  destruct (member _ "sdl") as [v'|] eqn:Hm; [|done].
  intros [= <-]. by exists body.
Qed.

(** The loop, started at [attempt] with enough fuel: it returns; it makes
    [k] POSTs separated by delays; a success comes from one of the
    attempts made; a failure carries the message of the last attempt, or
    the fall-through message when the loop body never ran. *)
Lemma introspect_loop_spec post endpoint rc hdrs :
  forall fuel attempt,
    (Z.to_nat (maxRetries rc + 1 - Z.of_nat attempt) < fuel)%nat ->
    exists r tr k,
      introspect_loop post endpoint rc hdrs fuel attempt = Some (r, tr)
      /\ tr = attempts_trace
                (EvPost endpoint QueryUtils.FEDERATION_INTROSPECTION_QUERY
                   INTROSPECTION_TIMEOUT_MS (request_headers hdrs))
                (retryDelayMs rc) k
      /\ Z.of_nat k <= Z.max 0 (maxRetries rc + 1 - Z.of_nat attempt)
      /\ (Z.of_nat attempt <= maxRetries rc -> (1 <= k)%nat)
      /\ (success r = true ->
          error r = None
          /\ exists i, (attempt <= i < attempt + k)%nat
               /\ performIntrospection (post i) = inr (sdl r))
      /\ (success r = false ->
          sdl r = JUndefined
          /\ ((maxRetries rc < Z.of_nat attempt
               /\ error r = Some "Introspection failed after all retries"%string)
              \/ exists e,
                   performIntrospection (post (Z.to_nat (maxRetries rc))) = inl e
                   /\ error r = Some (getErrorMessage e))).
Proof.
  induction fuel as [|fuel IH]; intros attempt Hfuel; [lia|].
  simpl.
  destruct (Z.of_nat attempt <=? maxRetries rc) eqn:Hle.
  2: { apply Z.leb_gt in Hle.
       eexists _, [], 0%nat.
       split; [reflexivity|]. split; [reflexivity|].
       split; [lia|]. split; [lia|]. split; [simpl; discriminate|].
       intros _. simpl. split; [done|]. by left. }
  apply Z.leb_le in Hle.
  destruct (performIntrospection (post attempt)) as [e|v] eqn:Hperf.
  - destruct (Z.of_nat attempt =? maxRetries rc) eqn:Hlast.
    + apply Z.eqb_eq in Hlast.
      eexists _, _, 1%nat.
      split; [reflexivity|]. split; [reflexivity|].
      split; [lia|]. split; [lia|]. split; [simpl; discriminate|].
      intros _. simpl. split; [done|]. right. exists e.
      rewrite <- Hlast, Nat2Z.id. done.
    + apply Z.eqb_neq in Hlast.
      destruct (IH (S attempt)) as (r & tr & k & -> & -> & Hk & Hk1 & Hok & Hfail);
        [lia|].
      assert (1 <= k)%nat by (apply Hk1; lia).
      eexists r, _, (S k). split; [done|].
      split; [by rewrite attempts_trace_succ|].
      split; [lia|]. split; [lia|]. split.
      * intros Hs. destruct (Hok Hs) as (? & i & ? & ?).
        split; [done|]. exists i. split; [lia|done].
      * intros Hs. destruct (Hfail Hs) as (? & [[? ?]|?]); [lia|].
        split; [done|]. by right.
  - eexists _, _, 1%nat.
    split; [reflexivity|]. split; [reflexivity|].
    split; [lia|]. split; [lia|]. split; [|simpl; discriminate].
    intros _. simpl. split; [done|]. exists attempt. split; [lia|done].
Qed.

(** C6 (as amended).  For every retry configuration, [introspect] returns;
    it makes [k <= maxRetries + 1] POSTs, each with the 10,000 ms timeout,
    with a delay of [retryDelayMs] between consecutive ones; a success
    result comes from an attempt whose response has a truthy [data] with a
    [_service] member, and carries that member's [sdl] as it is, without
    any check that it is a non-empty string; a failure result carries no
    SDL and a message, the classification of the last attempt's error or
    the fall-through message when [maxRetries < 0]. *)
Theorem introspect_retries (post : nat -> AxiosOutcome) (endpoint : string)
    (rc : RetryConfig) (hdrs : option (list (string * string))) :
  exists r tr k,
    introspect post endpoint rc hdrs = Some (r, tr)
    /\ tr = attempts_trace
              (EvPost endpoint QueryUtils.FEDERATION_INTROSPECTION_QUERY
                 10000 (request_headers hdrs))
              (retryDelayMs rc) k
    /\ count_posts tr = k
    /\ Z.of_nat k <= Z.max 0 (maxRetries rc + 1)
    /\ (success r = true ->
        error r = None
        /\ exists i body,
             (i < k)%nat
             /\ post i = Resolved body
             /\ truthy (opt_member body "data") = true
             /\ member (opt_member (opt_member body "data") "_service") "sdl"
                = Some (sdl r))
    /\ (success r = false ->
        sdl r = JUndefined
        /\ ((maxRetries rc < 0
             /\ error r = Some "Introspection failed after all retries"%string)
            \/ exists e,
                 performIntrospection (post (Z.to_nat (maxRetries rc))) = inl e
                 /\ error r = Some (getErrorMessage e))).
Proof.
  unfold introspect, introspect_fuel.
  destruct (introspect_loop_spec post endpoint rc hdrs
              (S (Z.to_nat (maxRetries rc + 1))) 0%nat)
    as (r & tr & k & Hrun & Htr & Hk & _ & Hok & Hfail).
  { simpl. rewrite Z.sub_0_r. lia. }
  exists r, tr, k. split; [done|]. split; [done|].
  split; [rewrite Htr; apply count_posts_attempts|].
  split; [lia|]. split.
  - intros Hs. destruct (Hok Hs) as (Herr & i & Hi & Hperf).
    split; [done|].
    destruct (performIntrospection_inr _ _ Hperf) as (body & ? & ? & ?).
    exists i, body. repeat split; try done. lia.
  - intros Hs. destruct (Hfail Hs) as (? & [[? ?]|?]); split; try done.
    + left. split; [lia|done].
    + by right.
Qed.

(** C6 at a subgraph that refuses two connections and then answers, with
    [maxRetries = 3]: three POSTs, two delays, success. *)
Lemma introspect_retries_example :
  introspect Examples.post_third_time "http://localhost:4001/graphql"
    {| maxRetries := 3; retryDelayMs := 100 |} None
  = Some ({| success := true;
             sdl := JStr "type Query { test: String }";
             error := None |},
          let ev := EvPost "http://localhost:4001/graphql"
                      QueryUtils.FEDERATION_INTROSPECTION_QUERY 10000
                      [("Content-Type"%string, "application/json"%string)] in
          [ev; EvDelay 100; ev; EvDelay 100; ev]).
Proof. vm_compute. reflexivity. Qed.

(** C6 as stated fails: a response whose [data._service.sdl] is the empty
    string yields a success result. *)
Lemma introspect_accepts_empty_sdl :
  exists tr,
    introspect Examples.post_empty_sdl "http://localhost:4001/graphql"
      DEFAULT_RETRY_CONFIG None
    = Some ({| success := true; sdl := JStr ""; error := None |}, tr)
    /\ is_nonempty_string (JStr "") = false.
Proof. eexists. split; [vm_compute; reflexivity|reflexivity]. Qed.

End IntrospectionClaims.

(** ** The schema cache *)

Section SchemaCacheClaims.
Import SchemaCache.

Context {Schema : Type}.

Lemma loadAndCacheSchema_stores (src : Sources Schema) t name (c : Cache Schema) s c' evs :
  loadAndCacheSchema src t name c = (inr s, c', evs) ->
  exists text ver,
    c' = {| cache := <[name := {| schema := s; entry_sdl := text; version := ver;
                                  lastFetched := t; expiresAt := t + ttlMs c |}]> (cache c);
            subgraphConfigs := subgraphConfigs c;
            ttlMs := ttlMs c |}.
Proof.
  unfold loadAndCacheSchema.
  destruct (loadFromSource src name c) as [[err|[[s0 text] ver]] evs0]; [done|].
  intros [= <- <- <-]. by exists text, ver.
Qed.

(** C5.  Let a schema entry for [name] be stored at time [t] by a load, in
    a cache with TTL [T].  The entry has [expiresAt = lastFetched + T];
    [has] answers true at every time in [[t, t+T)] and false at every time
    from [t+T] on, as long as the entry is not replaced.  In any cache,
    [getSchema] returns the cached schema, without loading and without
    changing the cache, exactly when [has] holds at that moment; otherwise
    it is [loadAndCacheSchema], which loads from the configured source and
    on success stores a fresh entry with [expiresAt = lastFetched + T] and
    returns its schema.  The configured source, read from what
    [setSubgraphConfig] recorded for [name]:
    - a [schemaFile] is set: the text of that file, with its hash as
      version;
    - no [schemaFile], [useLocalSchema] and a URL: the SDL that
      introspection of the URL returns, under the retry policy and the
      [introspectionHeaders] of the configuration, when it succeeds with a
      non-empty string, with its hash as version;
    - no [schemaFile], [useLocalSchema] and no URL: the load fails at once;
    - otherwise, and when nothing was recorded: the SDL and the version
      the registry serves for [name].
    The schema stored is [buildSchema] of that text.  When the source or
    [buildSchema] fails, [getSchema] fails, the cache is unchanged and no
    other source is tried. *)
Theorem schema_cache_ttl (src : Sources Schema) (c : Cache Schema) (name : string)
    (t : Z) (s : Schema) (c' : Cache Schema) (evs : list LoadEvent) :
  loadAndCacheSchema src t name c = (inr s, c', evs) ->
  (exists e, cache c' !! name = Some e
     /\ schema e = s
     /\ lastFetched e = t
     /\ expiresAt e = lastFetched e + ttlMs c)
  /\ ttlMs c' = ttlMs c
  /\ (forall now, t <= now < t + ttlMs c -> has now name c' = true)
  /\ (forall now, t + ttlMs c <= now -> has now name c' = false)
  /\ (forall now now', t <= now < t + ttlMs c ->
        getSchema src now now' name c' = (inr s, c', []))
  /\ (forall (c0 : Cache Schema) now now',
        (has now name c0 = true ->
           exists e, cache c0 !! name = Some e
             /\ getSchema src now now' name c0 = (inr (schema e), c0, []))
        /\ (has now name c0 = false ->
              getSchema src now now' name c0 = loadAndCacheSchema src now' name c0))
  /\ (forall (c0 : Cache Schema) now now',
        has now name c0 = false ->
        let miss := getSchema src now now' name c0 in
        let failed trace := exists err, miss = (inl err, c0, trace) in
        let built text ver trace :=
          match buildSchema src text with
          | Some s0 =>
              miss
              = (inr s0,
                 {| cache := <[name := {| schema := s0; entry_sdl := text;
                                          version := ver; lastFetched := now';
                                          expiresAt := now' + ttlMs c0 |}]>
                               (cache c0);
                    subgraphConfigs := subgraphConfigs c0;
                    ttlMs := ttlMs c0 |},
                 trace)
          | None => failed trace
          end in
        let registry :=
          match fetchSubgraphSchema src name with
          | Some (text, ver) => built text ver [LoadApollo name]
          | None => failed [LoadApollo name]
          end in
        match subgraphConfigs c0 !! name with
        | None => registry
        | Some (cfg, url) =>
            (forall f, Config.schemaFile cfg = Some f -> f <> ""%string ->
               match readFile src f with
               | Some text => built text (generateSchemaHash src text) [LoadFile f]
               | None => failed [LoadFile f]
               end)
            /\ (JS.truthy (Config.schemaFile cfg) = false ->
                Config.useLocalSchema cfg = true ->
                (forall u, url = Some u -> u <> ""%string ->
                   exists result tr,
                     IntrospectionService.introspect (axios_post src) u
                       {| IntrospectionService.maxRetries := Config.maxRetries cfg;
                          IntrospectionService.retryDelayMs := Config.retryDelayMs cfg |}
                       (Config.introspectionHeaders cfg)
                     = Some (result, tr)
                     /\ match IntrospectionService.sdl result with
                        | Json.JStr text =>
                            if IntrospectionService.success result
                               && negb (String.eqb text "")
                            then built text (generateSchemaHash src text)
                                   [LoadIntrospection u tr]
                            else failed [LoadIntrospection u tr]
                        | _ => failed [LoadIntrospection u tr]
                        end)
                /\ (JS.truthy url = false -> failed []))
            /\ (JS.truthy (Config.schemaFile cfg) = false ->
                Config.useLocalSchema cfg = false -> registry)
        end).
Proof.
  intros Hload.
  destruct (loadAndCacheSchema_stores _ _ _ _ _ _ _ Hload) as (text & ver & ->).
  split.
  { eexists. simpl. rewrite lookup_insert_eq. done. }
  split; [done|].
  split.
  { intros now [_ Hlt]. unfold has. simpl. rewrite lookup_insert_eq. simpl.
    by apply Z.ltb_lt. }
  split.
  { intros now Hge. unfold has. simpl. rewrite lookup_insert_eq. simpl.
    apply Z.ltb_ge. lia. }
  split.
  { intros now now' [_ Hlt]. unfold getSchema. simpl. rewrite lookup_insert_eq.
    simpl. apply Z.ltb_lt in Hlt. by rewrite Hlt. }
  assert (Hmiss : forall (c0 : Cache Schema) now now',
    has now name c0 = false ->
    getSchema src now now' name c0 = loadAndCacheSchema src now' name c0).
  { intros c0 now now'. unfold has, getSchema.
    destruct (cache c0 !! name) as [e|]; [|done]. by intros ->. }
  split.
  { intros c0 now now'. split; [|apply Hmiss].
    unfold has, getSchema.
    destruct (cache c0 !! name) as [e|]; [|done].
    intros Hhit. exists e. by rewrite Hhit. }
  clear Hload. intros c0 now now' Hhas. cbv zeta.
  rewrite (Hmiss c0 now now' Hhas).
  unfold loadAndCacheSchema, loadFromSource.
  destruct (subgraphConfigs c0 !! name) as [[cfg url]|].
  2: { unfold loadFromApollo.
       destruct (fetchSubgraphSchema src name) as [[text0 ver0]|]; [|by eexists].
       destruct (buildSchema src text0); [done|by eexists]. }
  split; [|split].
  - intros f Hf Hne. unfold JS.nonempty, JS.truthy. rewrite Hf.
    apply String.eqb_neq in Hne. rewrite Hne. cbn [negb].
    unfold loadFromFile.
    destruct (readFile src f) as [text0|]; [|by eexists].
    destruct (buildSchema src text0); [done|by eexists].
  - intros Hnofile Hlocal. unfold JS.nonempty. rewrite Hnofile, Hlocal.
    split.
    + intros u -> Hne. unfold JS.truthy.
      apply String.eqb_neq in Hne. rewrite Hne. cbn [negb].
      unfold loadFromIntrospection.
      destruct (introspect_loop_spec (axios_post src) u
                  {| IntrospectionService.maxRetries := Config.maxRetries cfg;
                     IntrospectionService.retryDelayMs := Config.retryDelayMs cfg |}
                  (Config.introspectionHeaders cfg)
                  (IntrospectionService.introspect_fuel
                     {| IntrospectionService.maxRetries := Config.maxRetries cfg;
                        IntrospectionService.retryDelayMs := Config.retryDelayMs cfg |})
                  0%nat)
        as (result & tr & k & Hrun & _).
      { unfold IntrospectionService.introspect_fuel. simpl. rewrite Z.sub_0_r. lia. }
      exists result, tr. unfold IntrospectionService.introspect.
      rewrite Hrun. split; [done|].
      destruct (IntrospectionService.success result); cbn [negb orb andb].
      * destruct (IntrospectionService.sdl result) as [| |b|n|text0|l|l];
          cbn [Json.truthy negb]; try by eexists.
        -- destruct b; by eexists.
        -- destruct (n =? 0); by eexists.
        -- destruct (String.eqb text0 ""); cbn [negb]; [by eexists|].
           destruct (buildSchema src text0); [done|by eexists].
      * destruct (IntrospectionService.sdl result); by eexists.
    + intros ->. by eexists.
  - intros Hnofile Hlocal. unfold JS.nonempty. rewrite Hnofile, Hlocal.
    unfold loadFromApollo.
    destruct (fetchSubgraphSchema src name) as [[text0 ver0]|]; [|by eexists].
    destruct (buildSchema src text0); [done|by eexists].
Qed.

End SchemaCacheClaims.

Section SchemaCacheWitnesses.
Import SchemaCache.

(** C5, at [products] loaded from the registry at time 1000 with a TTL of
    300,000 ms: cached up to 300,999, expired from 301,000 on.  And at
    [reviews], loaded at time 1000 from its schema file: cached in the
    same window; a miss at time 5000, the load ending at 5001, stores the
    text of the file when the file is the configured source, the SDL the
    subgraph answers on the third attempt when introspection is, fails
    without a trace when introspection is configured without a URL, and
    stores what the registry serves when nothing was recorded. *)
Lemma schema_cache_ttl_witness :
  (loadAndCacheSchema Examples.example_sources 1000 "products" Examples.empty_cache
   = (inr Examples.products_sdl, Examples.cache_products, [LoadApollo "products"])
   /\ has 1000 "products" Examples.cache_products = true
   /\ has 300999 "products" Examples.cache_products = true
   /\ has 301000 "products" Examples.cache_products = false
   /\ getSchema Examples.example_sources 2000 2001 "products" Examples.cache_products
      = (inr Examples.products_sdl, Examples.cache_products, []))
  /\ (exists c',
        loadAndCacheSchema Examples.local_sources 1000 "reviews"
          Examples.cache_reviews_file
        = (inr Examples.reviews_sdl, c', [LoadFile "./schemas/reviews.graphql"])
        /\ has 300999 "reviews" c' = true
        /\ has 301000 "reviews" c' = false
        /\ getSchema Examples.local_sources 2000 2001 "reviews" c'
           = (inr Examples.reviews_sdl, c', []))
  /\ has 5000 "reviews" Examples.cache_reviews_file = false
  /\ getSchema Examples.local_sources 5000 5001 "reviews" Examples.cache_reviews_file
     = (inr Examples.reviews_sdl,
        {| cache := <["reviews"%string :=
                       {| schema := Examples.reviews_sdl;
                          entry_sdl := Examples.reviews_sdl;
                          version := String.append "sha256 of " Examples.reviews_sdl;
                          lastFetched := 5001;
                          expiresAt := 305001 |}]> ∅;
           subgraphConfigs := subgraphConfigs Examples.cache_reviews_file;
           ttlMs := 300000 |},
        [LoadFile "./schemas/reviews.graphql"])
  /\ (exists tr,
        IntrospectionService.count_posts tr = 3%nat
        /\ getSchema Examples.local_sources 5000 5001 "reviews"
             Examples.cache_reviews_introspect
           = (inr "type Query { test: String }"%string,
              {| cache := <["reviews"%string :=
                             {| schema := "type Query { test: String }"%string;
                                entry_sdl := "type Query { test: String }";
                                version := "sha256 of type Query { test: String }";
                                lastFetched := 5001;
                                expiresAt := 305001 |}]> ∅;
                 subgraphConfigs := subgraphConfigs Examples.cache_reviews_introspect;
                 ttlMs := 300000 |},
              [LoadIntrospection Examples.reviews_url tr]))
  /\ (exists err,
        getSchema Examples.local_sources 5000 5001 "reviews"
          Examples.cache_reviews_no_url
        = (inl err, Examples.cache_reviews_no_url, []))
  /\ getSchema Examples.local_sources 5000 5001 "reviews" Examples.empty_cache
     = (inr Examples.products_sdl,
        {| cache := <["reviews"%string :=
                       {| schema := Examples.products_sdl;
                          entry_sdl := Examples.products_sdl;
                          version := "v1";
                          lastFetched := 5001;
                          expiresAt := 305001 |}]> ∅;
           subgraphConfigs := ∅;
           ttlMs := 300000 |},
        [LoadApollo "reviews"]).
Proof.
  assert (Hload :
    loadAndCacheSchema Examples.example_sources 1000 "products" Examples.empty_cache
    = (inr Examples.products_sdl, Examples.cache_products, [LoadApollo "products"]))
    by (vm_compute; reflexivity).
  destruct (schema_cache_ttl _ _ _ _ _ _ _ Hload)
    as (_ & _ & Hin & Hout & Hget & _).
  split.
  { split; [exact Hload|].
    split; [apply Hin; simpl; lia|].
    split; [apply Hin; simpl; lia|].
    split; [apply Hout; simpl; lia|].
    apply Hget. simpl. lia. }
  clear Hload Hin Hout Hget.
  destruct (loadAndCacheSchema Examples.local_sources 1000 "reviews"
              Examples.cache_reviews_file) as [[r c'] evs] eqn:Hload.
  assert (Hr : r = inr Examples.reviews_sdl
               /\ evs = [LoadFile "./schemas/reviews.graphql"]).
  { vm_compute in Hload. injection Hload as <- _ <-. done. }
  destruct Hr as [-> ->].
  destruct (schema_cache_ttl _ _ _ _ _ _ _ Hload)
    as (_ & _ & Hin & Hout & Hget & _ & Hsrc).
  split.
  { exists c'. split; [done|].
    split; [apply Hin; simpl; lia|].
    split; [apply Hout; simpl; lia|].
    apply Hget. simpl. lia. }
  split; [reflexivity|].
  split.
  { pose proof (Hsrc Examples.cache_reviews_file 5000 5001 eq_refl) as H.
    cbv zeta in H.
    set (miss := getSchema Examples.local_sources 5000 5001 "reviews"
                   Examples.cache_reviews_file) in *.
    clearbody miss. simpl in H. destruct H as [H _].
    specialize (H _ eq_refl). apply H. discriminate. }
  split.
  { pose proof (Hsrc Examples.cache_reviews_introspect 5000 5001 eq_refl) as H.
    cbv zeta in H.
    set (miss := getSchema Examples.local_sources 5000 5001 "reviews"
                   Examples.cache_reviews_introspect) in *.
    clearbody miss. simpl in H. destruct H as (_ & H & _).
    destruct (H eq_refl eq_refl) as [Hu _].
    destruct (Hu _ eq_refl) as (result & tr & Hrun & Hres); [discriminate|].
    vm_compute in Hrun. injection Hrun as <- <-.
    simpl in Hres. eexists. split; [|exact Hres]. reflexivity. }
  split.
  { pose proof (Hsrc Examples.cache_reviews_no_url 5000 5001 eq_refl) as H.
    cbv zeta in H.
    set (miss := getSchema Examples.local_sources 5000 5001 "reviews"
                   Examples.cache_reviews_no_url) in *.
    clearbody miss. simpl in H. destruct H as (_ & H & _).
    destruct (H eq_refl eq_refl) as [_ Hnone]. exact (Hnone eq_refl). }
  pose proof (Hsrc Examples.empty_cache 5000 5001 eq_refl) as H.
  cbv zeta in H.
  set (miss := getSchema Examples.local_sources 5000 5001 "reviews"
                 Examples.empty_cache) in *.
  clearbody miss. simpl in H. exact H.
Defined.

End SchemaCacheWitnesses.

(** ** Header sanitization *)

Section SanitizeClaims.
Import PassThroughHandler.

Lemma obj_set_fresh {A : Type} (k : string) (v : A) (o : list (string * A)) :
  ~ In k (List.map fst o) -> JS.obj_set k v o = o ++ [(k, v)].
Proof.
  induction o as [|[k' v'] o IH]; simpl; [done|].
  intros Hnin. destruct (String.eqb k' k) eqn:Heq.
  - apply String.eqb_eq in Heq. exfalso. apply Hnin. by left.
  - f_equal. apply IH. intros Hin. apply Hnin. by right.
Qed.

Lemma stored_entry_key entry kv :
  stored_entry entry = Some kv -> fst kv = fst entry.
Proof.
  unfold stored_entry. destruct (snd entry); [|done].
  destruct (_ || _); [done|]. by intros [= <-].
Qed.

Lemma sanitize_step_stored sanitized entry :
  ~ In (fst entry) (List.map fst sanitized) ->
  sanitize_step sanitized entry
  = sanitized ++ match stored_entry entry with Some kv => [kv] | None => [] end.
Proof.
  intros Hfresh.
  destruct entry as [k [v|]]; unfold sanitize_step, stored_entry; cbn [fst snd] in *.
  - destruct (set_has hopByHopHeaders (QueryUtils.toLowerCase k));
      cbn [orb]; [by rewrite app_nil_r|].
    destruct (set_has nonProxyableHeaders (QueryUtils.toLowerCase k));
      cbn [orb]; [by rewrite app_nil_r|].
    destruct (String.eqb k "__proto__"); [by rewrite app_nil_r|].
    by apply obj_set_fresh.
  - by rewrite app_nil_r.
Qed.

(** On the entries of an object (distinct keys), the loop keeps the
    stored entries, in order. *)
Lemma sanitize_fold (headers : Headers) : forall acc,
  NoDup (List.map fst headers) ->
  (forall k, In k (List.map fst headers) -> ~ In k (List.map fst acc)) ->
  fold_left sanitize_step headers acc = acc ++ omap stored_entry headers.
Proof.
  induction headers as [|entry rest IH]; intros acc Hnd Hdisj; simpl.
  - by rewrite app_nil_r.
  - apply NoDup_cons in Hnd as [Hk Hnd].
    rewrite sanitize_step_stored by (apply Hdisj; by left).
    rewrite IH; [|done|].
    + rewrite <- app_assoc. f_equal. by destruct (stored_entry entry).
    + intros k Hin Hacc. rewrite map_app, in_app_iff in Hacc.
      destruct Hacc as [Hacc|Hacc].
      * apply (Hdisj k); [by right|done].
      * destruct (stored_entry entry) as [kv|] eqn:Hfw; simpl in Hacc; [|done].
        destruct Hacc as [<-|[]].
        rewrite (stored_entry_key _ _ Hfw) in Hin.
        apply Hk. by apply list_elem_of_In.
Qed.

Lemma sanitizeHeaders_stored (headers : Headers) :
  NoDup (List.map fst headers) ->
  sanitizeHeaders headers = omap stored_entry headers.
Proof.
  intros Hnd. unfold sanitizeHeaders.
  rewrite sanitize_fold; [done|done|].
  intros k _ [].
Qed.

Lemma set_has_In s k : set_has s k = true <-> In k s.
Proof.
  unfold set_has. rewrite existsb_exists. split.
  - intros (x & Hin & Heq). by apply String.eqb_eq in Heq as ->.
  - intros Hin. exists k. split; [done|apply String.eqb_refl].
Qed.

(** The two sets of the handler are the eleven names of the rule. *)
Lemma dropped_names k :
  set_has hopByHopHeaders k || set_has nonProxyableHeaders k = true
  <-> In k ["connection"; "keep-alive"; "proxy-authenticate"; "proxy-authorization";
            "te"; "trailer"; "transfer-encoding"; "upgrade";
            "host"; "content-length"; "content-encoding"]%string.
Proof.
  by rewrite orb_true_iff, !set_has_In, <- in_app_iff.
Qed.

(** What [sanitizeHeaders] keeps.  For every incoming header object (its
    entries have distinct names), an entry is in the result, under its
    original name and with its value unchanged, whether a string or an
    array, exactly when the value is defined, the lower-cased name is none
    of [connection], [keep-alive], [proxy-authenticate],
    [proxy-authorization], [te], [trailer], [transfer-encoding], [upgrade],
    [host], [content-length], [content-encoding], and the name is not
    [__proto__]; the result has distinct names again. *)
Lemma sanitizeHeaders_kept_entries (headers : Headers) :
  NoDup (List.map fst headers) ->
  (forall k v,
     In (k, v) (sanitizeHeaders headers)
     <-> In (k, Some v) headers
         /\ ~ In (QueryUtils.toLowerCase k)
                ["connection"; "keep-alive"; "proxy-authenticate";
                 "proxy-authorization"; "te"; "trailer"; "transfer-encoding";
                 "upgrade"; "host"; "content-length"; "content-encoding"]%string
         /\ k <> "__proto__"%string)
  /\ NoDup (List.map fst (sanitizeHeaders headers)).
Proof.
  intros Hnd. rewrite sanitizeHeaders_stored by done. split.
  - intros k v. rewrite <- list_elem_of_In, list_elem_of_omap.
    rewrite <- dropped_names, <- String.eqb_neq. split.
    + intros ([k' v'] & Hin & Hfw). apply list_elem_of_In in Hin.
      unfold stored_entry in Hfw. cbn [fst snd] in Hfw.
      destruct v' as [v'|]; [|done].
      destruct (set_has hopByHopHeaders (QueryUtils.toLowerCase k')
                || set_has nonProxyableHeaders (QueryUtils.toLowerCase k'))
        eqn:Hdrop; [done|].
      destruct (String.eqb k' "__proto__") eqn:Hproto; [done|].
      cbn [orb] in Hfw. injection Hfw as -> ->.
      split; [done|]. split; [by rewrite Hdrop|done].
    + intros (Hin & Hkeep & Hproto). exists (k, Some v).
      split; [by apply list_elem_of_In|].
      unfold stored_entry. cbn [fst snd]. rewrite Hproto.
      by destruct (set_has hopByHopHeaders (QueryUtils.toLowerCase k)
                   || set_has nonProxyableHeaders (QueryUtils.toLowerCase k)).
  - clear -Hnd. induction headers as [|entry rest IH]; simpl; [constructor|].
    apply NoDup_cons in Hnd as [Hk Hnd].
    destruct (stored_entry entry) as [kv|] eqn:Hfw; [|by apply IH].
    simpl. apply NoDup_cons. split; [|by apply IH].
    rewrite (stored_entry_key _ _ Hfw). intros Hin. apply Hk.
    apply list_elem_of_In in Hin. apply list_elem_of_In.
    apply in_map_iff in Hin as (kv' & Hkey & Hin').
    apply list_elem_of_In, list_elem_of_omap in Hin' as (entry' & Hin' & Hfw').
    rewrite <- Hkey, (stored_entry_key _ _ Hfw').
    apply in_map. by apply list_elem_of_In.
Qed.

(** On a header object that has no entry named [__proto__], the result is
    the one of the specification's rule: the forwarded entries, in the
    order received. *)
Lemma sanitizeHeaders_spec_rule (headers : Headers) :
  NoDup (List.map fst headers) ->
  ~ In "__proto__"%string (List.map fst headers) ->
  sanitizeHeaders headers = omap spec_forwarded_entry headers.
Proof.
  intros Hnd Hproto. rewrite sanitizeHeaders_stored by done.
  clear Hnd. induction headers as [|[k ov] rest IH]; [done|].
  cbn [omap list_omap]. rewrite IH by (intros Hin; apply Hproto; by right).
  assert (Hk : String.eqb k "__proto__" = false).
  { apply String.eqb_neq. intros ->. apply Hproto. by left. }
  unfold stored_entry, spec_forwarded_entry. cbn [fst snd]. rewrite Hk.
  destruct ov as [v|]; [|done].
  assert (Hsets : set_has
            ["connection"; "keep-alive"; "proxy-authenticate"; "proxy-authorization";
             "te"; "trailer"; "transfer-encoding"; "upgrade";
             "host"; "content-length"; "content-encoding"]%string
            (QueryUtils.toLowerCase k)
          = set_has hopByHopHeaders (QueryUtils.toLowerCase k)
            || set_has nonProxyableHeaders (QueryUtils.toLowerCase k)).
  { unfold set_has, hopByHopHeaders, nonProxyableHeaders.
    by rewrite <- existsb_app. }
  rewrite Hsets. by rewrite orb_false_r.
Qed.

(** At a header object with a hop-by-hop header, an upper-case [HOST], an
    undefined value and an array value. *)
Lemma sanitizeHeaders_kept_entries_example :
  NoDup (List.map fst Examples.incoming_headers)
  /\ sanitizeHeaders Examples.incoming_headers
     = [("content-type"%string, Single "application/json");
        ("set-cookie"%string, Multi ["a=1"; "b=2"]%string)]
  /\ In ("set-cookie"%string, Multi ["a=1"; "b=2"]%string)
       (sanitizeHeaders Examples.incoming_headers)
  /\ ~ In ("HOST"%string, Single "old-host.com")
         (sanitizeHeaders Examples.incoming_headers).
Proof.
  assert (Hnd : NoDup (List.map fst Examples.incoming_headers)).
  { apply (bool_decide_unpack _). vm_compute. exact I. }
  destruct (sanitizeHeaders_kept_entries _ Hnd) as [Hiff _].
  split; [exact Hnd|]. split; [vm_compute; reflexivity|]. split.
  - apply Hiff. split; [|split].
    + simpl. right; right; right; left. reflexivity.
    + apply (bool_decide_unpack _). vm_compute. exact I.
    + discriminate.
  - intros Hin. apply Hiff in Hin as (_ & Hkeep & _). apply Hkeep.
    vm_compute. right; right; right; right; right; right; right; right; left.
    reflexivity.
Qed.

(** C8.  The code at a header object that has an own entry named
    [__proto__] ([Examples.headers_with_proto]).  The entry has a defined
    value and its lower-cased name is none of the eleven names, so the rule
    forwards it unchanged; [sanitizeHeaders] returns the [authorization]
    entry alone: the assignment into the plain result object stores
    nothing under [__proto__]. *)
Theorem sanitizeHeaders_drops_proto_entry :
  NoDup (List.map fst Examples.headers_with_proto)
  /\ In ("__proto__"%string, Some (Single "polluted")) Examples.headers_with_proto
  /\ ~ In (QueryUtils.toLowerCase "__proto__")
         ["connection"; "keep-alive"; "proxy-authenticate"; "proxy-authorization";
          "te"; "trailer"; "transfer-encoding"; "upgrade";
          "host"; "content-length"; "content-encoding"]%string
  /\ omap spec_forwarded_entry Examples.headers_with_proto
     = [("__proto__"%string, Single "polluted");
        ("authorization"%string, Single "Bearer token")]
  /\ sanitizeHeaders Examples.headers_with_proto
     = [("authorization"%string, Single "Bearer token")]
  /\ ~ In ("__proto__"%string, Single "polluted")
         (sanitizeHeaders Examples.headers_with_proto).
Proof.
  split; [apply (bool_decide_unpack _); vm_compute; exact I|].
  split; [by left|].
  split; [apply (bool_decide_unpack _); vm_compute; exact I|].
  split; [vm_compute; reflexivity|].
  split; [vm_compute; reflexivity|].
  intros [Hin|[]]. discriminate Hin.
Qed.

End SanitizeClaims.

(** ** The proxy route *)

Section RouteClaims.
Import PassThroughHandler.
Import Server.

Lemma extractSubgraphName_inr req name :
  extractSubgraphName req = inr name ->
  header req "x-subgraph-name" = Some (Single name) /\ JS.truthy (Some name) = true.
Proof.
  unfold extractSubgraphName.
  destruct (header req "x-subgraph-name") as [[v|vs]|]; try done.
  destruct (JS.truthy (Some v)) eqn:Hv; [|done].
  by intros [= <-].
Qed.

Lemma extractSubgraphName_inl req e :
  extractSubgraphName req = inl e -> pe_statusCode e = 400.
Proof.
  unfold extractSubgraphName.
  destruct (header req "x-subgraph-name") as [[v|vs]|]; try by intros [= <-].
  destruct (JS.truthy (Some v)); [done|]. by intros [= <-].
Qed.

(** What the middleware guarantees of a request it lets through. *)
Lemma urlDecoderMiddleware_next pf req req' :
  urlDecoderMiddleware pf req = Next req' ->
  exists target name,
    targetUrl req' = Some target
    /\ subgraphName req' = Some name
    /\ JS.truthy (Some name) = true
    /\ header req "x-subgraph-name" = Some (Single name)
    /\ validateUrl pf target = true.
Proof.
  unfold urlDecoderMiddleware.
  destruct (JS.nonempty (encodedUrl req)) as [enc|]; [|done].
  destruct (decodeURIComponent pf enc) as [target|]; [|done].
  destruct (validateUrl pf target) eqn:Hvalid; [|done]. simpl.
  destruct (extractSubgraphName req) as [e|name] eqn:Hname; [done|].
  intros [= <-]. apply extractSubgraphName_inr in Hname as [? ?].
  by exists target, name.
Qed.

Lemma urlDecoderMiddleware_error pf req e :
  urlDecoderMiddleware pf req = NextError e -> pe_statusCode e = 400.
Proof.
  unfold urlDecoderMiddleware.
  destruct (JS.nonempty (encodedUrl req)) as [enc|]; [|by intros [= <-]].
  destruct (decodeURIComponent pf enc) as [target|]; [|by intros [= <-]].
  destruct (validateUrl pf target); simpl; [|by intros [= <-]].
  destruct (extractSubgraphName req) as [e'|name] eqn:Hname; [|done].
  intros [= <-]. by apply extractSubgraphName_inl in Hname.
Qed.

(** C10.  A request that passes the URL-decoder middleware carries a
    non-empty string [x-subgraph-name] header, which the middleware stored
    as [subgraphName]; the route then calls the passthrough handler or the
    mock handler, and never throws the 500 "no handler available" error.
    A request the middleware stops is answered with status 400, and the
    middleware stops every request whose [x-subgraph-name] header is
    missing, empty, or not a string. *)
Theorem proxy_route_dispatches (pf : Platform) (enabled : bool)
    (http : SubgraphHealthMonitor.HttpClient)
    (r : SubgraphRegistry.Registry) (req : ProxyRequest) :
  match urlDecoderMiddleware pf req with
  | Next req' =>
      (exists name,
         header req "x-subgraph-name" = Some (Single name)
         /\ name <> ""%string
         /\ subgraphName req' = Some name
         /\ (proxy_route pf enabled http r req = ToPassThrough (targetUrl req') None None
             \/ proxy_route pf enabled http r req = ToMock name))
      /\ proxy_route pf enabled http r req <> Throws no_handler_error
  | NextError e =>
      pe_statusCode e = 400 /\ proxy_route pf enabled http r req = Throws e
  end
  /\ ((forall name, header req "x-subgraph-name" = Some (Single name) -> name = ""%string) ->
      exists e, urlDecoderMiddleware pf req = NextError e /\ pe_statusCode e = 400).
Proof.
  split.
  - unfold proxy_route.
    destruct (urlDecoderMiddleware pf req) as [req'|e] eqn:Hmw.
    + destruct (urlDecoderMiddleware_next _ _ _ Hmw)
        as (target & name & Htarget & Hname & Htruthy & Hheader & _).
      assert (Hne : name <> ""%string).
      { intros ->. done. }
      assert (Hroute :
        route_body enabled http r req' = ToPassThrough (targetUrl req') None None
        \/ route_body enabled http r req' = ToMock name).
      { unfold route_body.
        destruct (fst (SubgraphRegistry.shouldPassthroughToSubgraph _ _ _ _ _));
          [by left|].
        right. rewrite Hname. unfold JS.nonempty. by rewrite Htruthy. }
      split; [by exists name|].
      by destruct Hroute as [-> | ->].
    + split; [|done]. by apply urlDecoderMiddleware_error in Hmw.
  - intros Hmissing.
    destruct (urlDecoderMiddleware pf req) as [req'|e] eqn:Hmw.
    + destruct (urlDecoderMiddleware_next _ _ _ Hmw)
        as (target & name & _ & _ & Htruthy & Hheader & _).
      rewrite (Hmissing _ Hheader) in Htruthy. done.
    + exists e. split; [done|]. by apply urlDecoderMiddleware_error in Hmw.
Qed.

(** C10, at a request for [products]: with the subgraph healthy it goes to
    the passthrough handler, otherwise to the mock handler; without the
    header it is stopped with 400. *)
Lemma proxy_route_dispatches_witness :
  proxy_route Examples.example_platform true Examples.http_up
    Examples.registry_products_healthy Examples.request_products
  = ToPassThrough (Some Examples.products_url) None None
  /\ proxy_route Examples.example_platform true Examples.http_up
       Examples.registry_products Examples.request_products
     = ToMock "products"
  /\ (forall name,
        header Examples.request_no_header "x-subgraph-name" = Some (Single name) ->
        name = ""%string)
  /\ exists e,
       urlDecoderMiddleware Examples.example_platform Examples.request_no_header
       = NextError e
       /\ pe_statusCode e = 400.
Proof.
  split; [vm_compute; reflexivity|]. split; [vm_compute; reflexivity|].
  assert (Hmissing : forall name,
            header Examples.request_no_header "x-subgraph-name" = Some (Single name) ->
            name = ""%string).
  { intros name H. vm_compute in H. discriminate H. }
  split; [exact Hmissing|].
  destruct (proxy_route_dispatches Examples.example_platform true Examples.http_up
              Examples.registry_products Examples.request_no_header) as [_ Hstop].
  exact (Hstop Hmissing).
Defined.

End RouteClaims.

(** ** The introspection fallback of the passthrough handler *)

Section FallbackClaims.
Import Json.
Import Axios.
Import PassThroughHandler.

Context {Schema : Type}.

Lemma obj_get_set {A : Type} (k k' : string) (v : A) (o : list (string * A)) :
  JS.obj_get k (JS.obj_set k' v o)
  = if String.eqb k' k then Some v else JS.obj_get k o.
Proof.
  induction o as [|[k0 v0] o IH]; simpl.
  - by destruct (String.eqb k' k).
  - destruct (String.eqb k0 k') eqn:H0; simpl.
    + apply String.eqb_eq in H0 as ->. by destruct (String.eqb k' k).
    + rewrite IH. destruct (String.eqb k0 k) eqn:H1; [|done].
      apply String.eqb_eq in H1 as ->.
      by rewrite String.eqb_sym, H0.
Qed.

Lemma getHeader_setHeader k k' v res :
  getHeader k (setHeader k' v res)
  = if String.eqb (QueryUtils.toLowerCase k') (QueryUtils.toLowerCase k)
    then Some v else getHeader k res.
Proof. unfold getHeader, setHeader. simpl. apply obj_get_set. Qed.

Lemma getHeader_send_json k code payload res :
  getHeader k (send_json code payload res) = getHeader k res.
Proof. done. Qed.

Lemma introspection_query_truthy q :
  QueryUtils.isIntrospectionQuery q = true -> truthy (JStr q) = true.
Proof. destruct q; [by vm_compute|done]. Qed.

(** A connection-class error is answered with 504, 503 or 502. *)
Lemma connection_error_status e targetUrl res :
  isConnectionError e = true ->
  exists code,
    res_status (normal_error_response e targetUrl res) = Some code
    /\ (code = 504 \/ code = 503 \/ code = 502).
Proof.
  unfold isConnectionError, normal_error_response.
  destruct (err_isAxios e); simpl; [|done].
  destruct (code_is e "ECONNABORTED"); [intros _; exists 504; auto|].
  destruct (code_is e "ECONNREFUSED"); simpl; [intros _; exists 503; auto|].
  destruct (code_is e "ENOTFOUND"); simpl; [intros _; exists 503; auto|].
  destruct (err_response e); [done|]. intros _. exists 502. auto.
Qed.

(** The fallback as [handleError] has it.  Let the handler have a schema
    cache and be called with a non-empty subgraph name, as its tests call
    it.  For a request whose body is the
    federation introspection query and whose forwarding fails with a
    connection-class error: when [getSchema] succeeds for the subgraph, the
    handler answers 200 with body [{data: {_service: {sdl}}}], [sdl] being
    [printSchema] of the schema [getSchema] returned, and sets
    [X-Proxy-Mode: passthrough-introspection-cached], [X-Cache-Fallback:
    true] and [X-Proxy-Target]; when [getSchema] fails, the handler sends
    the normal connection-error response (504, 503 or 502). *)
Theorem introspection_cache_fallback (h : Handler Schema)
    (upstream : UpstreamRequest -> UpstreamOutcome)
    (req : Request) (res : Response) (targetUrl : string) (timeout : option Z)
    (name : string) (c : SchemaCache.Cache Schema) (q : string) (e : JsError) :
  schemaCache h = Some c ->
  JS.truthy (Some name) = true ->
  member (req_body req) "query" = Some (JStr q) ->
  QueryUtils.isIntrospectionQuery q = true ->
  upstream (forwarded_request req targetUrl timeout) = UpstreamError e ->
  isConnectionError e = true ->
  match SchemaCache.getSchema (sources h) (clock h) (clock_after_load h) name c with
  | (inr s, c', _) =>
      exists res',
        handleRequest h upstream req res targetUrl timeout (Some name)
        = Some (res', with_cache h c')
        /\ res_status res' = Some 200
        /\ res_body res' = Some (sdl_payload (printSchema h s))
        /\ getHeader "X-Proxy-Mode" res' = Some (Single "passthrough-introspection-cached")
        /\ getHeader "X-Cache-Fallback" res' = Some (Single "true")
        /\ getHeader "X-Proxy-Target" res' = Some (Single targetUrl)
  | (inl _, c', _) =>
      handleRequest h upstream req res targetUrl timeout (Some name)
      = Some (normal_error_response e targetUrl res, with_cache h c')
      /\ exists code,
           res_status (normal_error_response e targetUrl res) = Some code
           /\ (code = 504 \/ code = 503 \/ code = 502)
  end.
Proof.
  intros Hcache Hname Hquery Hintro Hup Hconn.
  unfold handleRequest. rewrite Hup.
  unfold handleError, JS.nonempty. rewrite Hname, Hcache.
  unfold body_is_introspection. rewrite Hquery.
  rewrite (introspection_query_truthy q Hintro), Hintro, Hconn.
  unfold returnCachedSdl. rewrite Hcache.
  destruct (SchemaCache.getSchema _ _ _ name c) as [[[err|s] c'] evs].
  - split; [done|]. by apply connection_error_status.
  - eexists. split; [reflexivity|].
    split; [done|]. split; [done|].
    rewrite !getHeader_send_json, !getHeader_setHeader.
    repeat split; reflexivity.
Qed.

End FallbackClaims.

Section FallbackWitnesses.
Import Json.
Import Axios.
Import PassThroughHandler.

(** At [products] with an unexpired cache entry and an upstream that
    refuses the connection, the handler being given the subgraph name: the
    schema of the cache is served. *)
Lemma introspection_cache_fallback_witness :
  schemaCache Examples.handler_products = Some Examples.cache_products
  /\ QueryUtils.isIntrospectionQuery QueryUtils.FEDERATION_INTROSPECTION_QUERY = true
  /\ isConnectionError Examples.econnrefused = true
  /\ exists res',
       handleRequest Examples.handler_products Examples.upstream_refused
         Examples.introspection_request fresh_response Examples.products_url
         (Some 30000) (Some "products"%string)
       = Some (res', Examples.handler_products)
       /\ res_status res' = Some 200
       /\ res_body res' = Some (sdl_payload Examples.products_sdl)
       /\ getHeader "X-Cache-Fallback" res' = Some (Single "true").
Proof.
  split; [reflexivity|]. split; [vm_compute; reflexivity|]. split; [reflexivity|].
  pose proof (introspection_cache_fallback Examples.handler_products
                Examples.upstream_refused Examples.introspection_request
                fresh_response Examples.products_url (Some 30000) "products"
                Examples.cache_products QueryUtils.FEDERATION_INTROSPECTION_QUERY
                Examples.econnrefused
                eq_refl eq_refl eq_refl eq_refl eq_refl eq_refl) as H.
  vm_compute in H. destruct H as (res' & Hrun & Hst & Hbody & _ & Hfb & _).
  exists res'. split; [|split; [|split]].
  - vm_compute. exact Hrun.
  - exact Hst.
  - vm_compute. exact Hbody.
  - vm_compute. exact Hfb.
Defined.

(** With a cache that cannot produce the schema, the refused connection
    is answered with 503 SERVICE_UNAVAILABLE. *)
Lemma introspection_cache_fallback_cache_failure :
  exists res' h',
    handleRequest Examples.handler_offline Examples.upstream_refused
      Examples.introspection_request fresh_response Examples.products_url
      None (Some "products"%string)
    = Some (res', h')
    /\ res_status res' = Some 503
    /\ getHeader "X-Cache-Fallback" res' = None.
Proof. eexists _, _. split; [vm_compute; reflexivity|]. split; reflexivity. Qed.

(** C7.  The code at the introspection request of [products] as the
    server receives it: [POST /http%3A%2F%2Fproducts%3A4001%2Fgraphql]
    with header [x-subgraph-name: products] and the federation
    introspection query as body, [products] being registered healthy, the
    cache holding an unexpired schema for it, and the upstream refusing
    the connection.  The route hands the request to the passthrough
    handler as [handleRequest(req, res, targetUrl)], without the subgraph
    name; the handler then answers 503, with neither [X-Cache-Fallback]
    nor [X-Proxy-Mode].  Given the name, the same handler answers the same
    request with 200, [printSchema] of the cached schema and both
    headers. *)
Theorem fallback_skipped_without_subgraph_name :
  Server.proxy_route Examples.example_platform true Examples.http_up
    Examples.registry_products_healthy Examples.introspection_proxy_request
  = Server.ToPassThrough (Some Examples.products_url) None None
  /\ SchemaCache.has 2000 "products" Examples.cache_products = true
  /\ body_is_introspection (req_body Examples.introspection_request) = Some true
  /\ isConnectionError Examples.econnrefused = true
  /\ (exists res',
       handleRequest Examples.handler_products Examples.upstream_refused
         Examples.introspection_request fresh_response Examples.products_url
         None None
       = Some (res', Examples.handler_products)
       /\ res_status res' = Some 503
       /\ res_status res' <> Some 200
       /\ getHeader "X-Cache-Fallback" res' = None
       /\ getHeader "X-Proxy-Mode" res' = None)
  /\ (exists res',
       handleRequest Examples.handler_products Examples.upstream_refused
         Examples.introspection_request fresh_response Examples.products_url
         None (Some "products"%string)
       = Some (res', Examples.handler_products)
       /\ res_status res' = Some 200
       /\ res_body res'
          = Some (sdl_payload (printSchema Examples.handler_products
                                 Examples.products_sdl))
       /\ getHeader "X-Cache-Fallback" res' = Some (Single "true")
       /\ getHeader "X-Proxy-Mode" res'
          = Some (Single "passthrough-introspection-cached")).
Proof.
  split; [vm_compute; reflexivity|]. split; [vm_compute; reflexivity|].
  split; [vm_compute; reflexivity|]. split; [reflexivity|].
  split.
  - eexists. split; [vm_compute; reflexivity|].
    repeat split; try reflexivity. discriminate.
  - eexists. split; [vm_compute; reflexivity|].
    repeat split; vm_compute; reflexivity.
Qed.

End FallbackWitnesses.

(** * Further properties of the code *)

(** ** The health monitor: invariants of reachable states *)

Section MonitorInvariants.
Import Config.
Import SubgraphHealthMonitor.

(** The invariant principle, with the key under which the state is stored. *)
Lemma reachable_keyed_invariant (P : string -> SubgraphState -> Prop) :
  (forall name url cfg, P name (initialState name url cfg)) ->
  (forall n e st, P n st -> P n (event_update e st)) ->
  forall m, reachable m -> forall n st, states m !! n = Some st -> P n st.
Proof.
  intros Hinit Hev m Hreach.
  induction Hreach as [|m op Hreach IH]; intros n st Hst.
  - simpl in Hst. by rewrite lookup_empty in Hst.
  - destruct (step_lookup_cases _ _ _ _ Hst)
      as [(url & cfg & _ & ->) | [Hold | (st0 & e & Hold & ->)]]; eauto.
Qed.

Lemma event_update_name e st : sg_name (event_update e st) = sg_name st.
Proof.
  destruct e as [r|b]; simpl; unfold probe_update, manual_update;
    [destruct (result_isHealthy r) | destruct b]; done.
Qed.

Lemma event_update_schemaSource e st :
  schemaSource (event_update e st) = schemaSource st.
Proof.
  destruct e as [r|b]; simpl; unfold probe_update, manual_update;
    [destruct (result_isHealthy r) | destruct b]; done.
Qed.

(** What a failed probe or override leaves in the flags. *)
Lemma event_update_failure_flags e st :
  event_healthy e = false ->
  (status (event_update e st) = mocking \/ status (event_update e st) = unavailable)
  /\ (status (event_update e st) = mocking -> isMocking (event_update e st) = true).
Proof.
  destruct e as [r|b]; simpl; unfold probe_update, manual_update;
    intros ->; simpl.
  - destruct (forceMock (config st) || _); simpl; split; auto; done.
  - destruct (_ && _); simpl; split; auto; done.
Qed.

(** X1.  In every reachable state of the monitor the fields of a subgraph
    state are consistent: the state is stored under its own name;
    [isHealthy] holds exactly when [status] is [available], and then
    [consecutiveFailures] is 0 and [isMocking] equals [forceMock]; a
    [status] of [unknown] means that nothing has been recorded yet (no
    failure, no check time); [status = mocking] implies [isMocking]; a
    status of [mocking] or [unavailable] comes with at least one recorded
    failure; [forceMock] implies [isMocking]; and [schemaSource] is the one
    the configuration selects. *)
Theorem monitor_state_consistency (m : Monitor) :
  reachable m ->
  forall name st, states m !! name = Some st ->
    sg_name st = name
    /\ (isHealthy st = true <-> status st = available)
    /\ (isHealthy st = true ->
        consecutiveFailures st = 0 /\ isMocking st = forceMock (config st))
    /\ (status st = unknown ->
        consecutiveFailures st = 0 /\ lastHealthCheck st = None)
    /\ (status st = mocking -> isMocking st = true)
    /\ (status st = mocking \/ status st = unavailable -> 1 <= consecutiveFailures st)
    /\ (forceMock (config st) = true -> isMocking st = true)
    /\ schemaSource st
       = (if useLocalSchema (config st) then local_introspection else apollo_registry).
Proof.
  intros Hreach name st Hst.
  revert name st Hst.
  apply (reachable_keyed_invariant
           (fun name st =>
              sg_name st = name
              /\ (isHealthy st = true <-> status st = available)
              /\ (isHealthy st = true ->
                  consecutiveFailures st = 0 /\ isMocking st = forceMock (config st))
              /\ (status st = unknown ->
                  consecutiveFailures st = 0 /\ lastHealthCheck st = None)
              /\ (status st = mocking -> isMocking st = true)
              /\ (status st = mocking \/ status st = unavailable ->
                  1 <= consecutiveFailures st)
              /\ (forceMock (config st) = true -> isMocking st = true)
              /\ schemaSource st
                 = (if useLocalSchema (config st)
                    then local_introspection else apollo_registry)));
    [| |done].
  - intros name url cfg. simpl.
    split; [done|]. split; [done|]. split; [done|]. split; [done|].
    split; [done|]. split; [by intros [|]|]. split; [by intros ->|done].
  - intros n e st (Hname & Hav & Hh & Hunk & Hmk & Hcf & Hforce & Hsrc).
    rewrite event_update_name, event_update_config, event_update_schemaSource.
    split; [done|].
    destruct (event_healthy e) eqn:He.
    + destruct (event_update_success e st He) as (-> & -> & -> & ->).
      split; [done|]. split; [done|]. split; [done|]. split; [done|].
      split; [by intros [|]|]. split; [done|done].
    + destruct (event_update_failure e st He) as [-> Hcf'].
      destruct (event_update_failure_flags e st He) as [Hstatus Hmock].
      assert (Hge : 1 <= consecutiveFailures (event_update e st)).
      { rewrite Hcf'.
        assert (0 <= consecutiveFailures st); [|lia].
        assert (Hs : status st = available \/ status st = unavailable
                     \/ status st = mocking \/ status st = unknown)
          by (destruct (status st); auto).
        destruct Hs as [Hs|[Hs|[Hs|Hs]]].
        - apply Hav in Hs. apply Hh in Hs as [-> _]. lia.
        - assert (1 <= consecutiveFailures st) by (apply Hcf; by right). lia.
        - assert (1 <= consecutiveFailures st) by (apply Hcf; by left). lia.
        - destruct (Hunk Hs) as [-> _]. lia. }
      split; [split; [done|intros Hs; destruct Hstatus; congruence]|].
      split; [done|].
      split; [intros Hs; destruct Hstatus; congruence|].
      split; [done|]. split; [done|]. split; [|done].
      intros Hf. apply event_update_forceMock; [done|by apply Hforce].
Qed.

(** X1, at [products] after two failed health checks. *)
Lemma monitor_state_consistency_witness :
  exists st,
    states Examples.monitor_products_failed !! "products" = Some st
    /\ sg_name st = "products"%string
    /\ status st = mocking
    /\ isMocking st = true
    /\ 1 <= consecutiveFailures st.
Proof.
  assert (Hreach : reachable Examples.monitor_products_failed).
  { apply reachable_run. apply reachable_register. }
  eexists. split; [vm_compute; reflexivity|].
  destruct (monitor_state_consistency _ Hreach "products" _
              ltac:(vm_compute; reflexivity))
    as (Hname & _ & _ & _ & Hmk & Hcf & _).
  split; [exact Hname|]. split; [reflexivity|].
  split; [exact (Hmk eq_refl)|]. exact (Hcf (or_introl eq_refl)).
Defined.

Lemma reachable_forceMock_source m :
  reachable m ->
  forall n st, states m !! n = Some st ->
    (forceMock (config st) = true -> isMocking st = true)
    /\ schemaSource st
       = (if useLocalSchema (config st) then local_introspection else apollo_registry).
Proof.
  apply (reachable_state_invariant
    (fun st =>
       (forceMock (config st) = true -> isMocking st = true)
       /\ schemaSource st
          = (if useLocalSchema (config st)
             then local_introspection else apollo_registry))).
  - intros name url cfg. simpl. split; [by intros ->|done].
  - intros e st [Hforce Hsrc].
    rewrite event_update_config, event_update_schemaSource.
    split; [|done]. intros Hf. apply event_update_forceMock; auto.
Qed.

(** The rules of [determineRoutingBehavior], as one condition. *)
Lemma determineRoutingBehavior_shouldMock cfg healthy failures :
  shouldMock (determineRoutingBehavior cfg healthy failures)
  = forceMock cfg
    || (negb (disableMocking cfg) && negb healthy && (maxRetries cfg <=? failures)).
Proof.
  unfold determineRoutingBehavior.
  destruct (forceMock cfg), (disableMocking cfg), healthy,
    (maxRetries cfg <=? failures); done.
Qed.

(** With a URL and without [forceMock], [isMocking] is set exactly while
    the subgraph is unhealthy, mocking is enabled, something has been
    recorded, and the failures have reached [maxRetries]. *)
Lemma reachable_isMocking_flag m :
  reachable m ->
  forall n st, states m !! n = Some st ->
    0 <= consecutiveFailures st
    /\ (isHealthy st = true -> consecutiveFailures st = 0)
    /\ (probed st = false -> consecutiveFailures st = 0 /\ isHealthy st = false)
    /\ (JS.truthy (sg_url st) = true -> forceMock (config st) = false ->
        isMocking st
        = negb (isHealthy st) && negb (disableMocking (config st))
          && probed st && (maxRetries (config st) <=? consecutiveFailures st)).
Proof.
  apply (reachable_state_invariant
    (fun st =>
       0 <= consecutiveFailures st
       /\ (isHealthy st = true -> consecutiveFailures st = 0)
       /\ (probed st = false -> consecutiveFailures st = 0 /\ isHealthy st = false)
       /\ (JS.truthy (sg_url st) = true -> forceMock (config st) = false ->
           isMocking st
           = negb (isHealthy st) && negb (disableMocking (config st))
             && probed st && (maxRetries (config st) <=? consecutiveFailures st)))).
  - intros name url cfg. simpl. split; [lia|]. split; [done|]. split; [done|].
    intros -> ->. simpl. by rewrite andb_false_r.
  - intros e st (Hnn & Hh & Hunp & Hflag).
    rewrite event_update_config, event_update_url.
    destruct (event_healthy e) eqn:He.
    + destruct (event_update_success e st He) as (Hi & Hc & Hs & Hm).
      rewrite Hi, Hc, Hm. unfold probed. rewrite Hs.
      split; [lia|]. split; [done|]. split; [done|]. by intros _ ->.
    + destruct (event_update_failure e st He) as [Hi Hc].
      rewrite Hi, Hc.
      split; [lia|]. split; [done|].
      assert (Hp : probed (event_update e st) = true).
      { unfold probed.
        destruct (event_update_failure_flags e st He) as [[-> | ->] _]; done. }
      rewrite Hp. split; [done|].
      intros Hurl Hf. specialize (Hflag Hurl Hf). simpl.
      destruct e as [r|b]; simpl in He |- *; unfold probe_update, manual_update;
        rewrite He; simpl; rewrite ?Hf; simpl; rewrite Hflag;
        destruct (disableMocking (config st)); simpl;
        rewrite ?andb_false_r; simpl; try done;
        rewrite ?andb_true_r;
        (destruct (maxRetries (config st) <=? consecutiveFailures st + 1) eqn:Hle;
         simpl; [done|]);
        apply Z.leb_gt in Hle;
        (destruct (maxRetries (config st) <=? consecutiveFailures st) eqn:Hle';
         [apply Z.leb_le in Hle'; lia | by rewrite !andb_false_r]).
Qed.

(** X2.  The flag the monitor maintains agrees with the routing rules of
    [determineRoutingBehavior]: for a subgraph of a reachable monitor that
    has a URL, and that has been probed at least once or has
    [maxRetries > 0], [isMocking] is the [shouldMock] the rules give for
    the state's configuration, health and failure count, and the state's
    [schemaSource] is the rules' [schemaSource]. *)
Theorem isMocking_agrees_with_routing_rules (m : Monitor) (name : string)
    (st : SubgraphState) :
  reachable m ->
  states m !! name = Some st ->
  JS.truthy (sg_url st) = true ->
  probed st = true \/ 0 < maxRetries (config st) ->
  isMocking st
  = shouldMock (determineRoutingBehavior (config st) (isHealthy st)
                  (consecutiveFailures st))
  /\ schemaSource st
     = rb_schemaSource (determineRoutingBehavior (config st) (isHealthy st)
                          (consecutiveFailures st)).
Proof.
  intros Hreach Hst Hurl Hprobed.
  destruct (reachable_forceMock_source m Hreach name st Hst) as [Hforce Hsrc].
  split.
  - rewrite determineRoutingBehavior_shouldMock.
    destruct (forceMock (config st)) eqn:Hf; [by apply Hforce|].
    destruct (reachable_isMocking_flag m Hreach name st Hst)
      as (_ & _ & Hunp & Hflag).
    rewrite (Hflag Hurl Hf). simpl.
    destruct (probed st) eqn:Hp.
    + destruct (isHealthy st), (disableMocking (config st)); simpl; done.
    + destruct Hprobed as [|Hmax]; [done|].
      destruct (Hunp eq_refl) as [-> ->].
      apply Z.leb_gt in Hmax. rewrite Hmax. by rewrite !andb_false_r.
  - rewrite Hsrc. unfold determineRoutingBehavior.
    by destruct (forceMock (config st)), (disableMocking (config st)),
      (isHealthy st), (maxRetries (config st) <=? consecutiveFailures st).
Qed.

(** X2, at [products] after two failed health checks ([maxRetries = 2]):
    the flag is set, as the rules say. *)
Lemma isMocking_agrees_with_routing_rules_witness :
  exists st,
    states Examples.monitor_products_failed !! "products" = Some st
    /\ isMocking st = true
    /\ shouldMock (determineRoutingBehavior (config st) (isHealthy st)
                     (consecutiveFailures st)) = true.
Proof.
  assert (Hreach : reachable Examples.monitor_products_failed).
  { apply reachable_run. apply reachable_register. }
  eexists. split; [vm_compute; reflexivity|].
  destruct (isMocking_agrees_with_routing_rules _ "products" _ Hreach
              ltac:(vm_compute; reflexivity) eq_refl (or_introl eq_refl))
    as [Hflag _].
  split; [reflexivity|]. rewrite <- Hflag. reflexivity.
Defined.

Lemma stopHealthChecks_intervals name m :
  healthCheckIntervals (stopHealthChecks name m)
  = delete name (healthCheckIntervals m).
Proof.
  unfold stopHealthChecks.
  destruct (healthCheckIntervals m !! name) eqn:Hl; [done|].
  by rewrite delete_id.
Qed.

Lemma startHealthChecks_intervals name m st :
  states m !! name = Some st ->
  healthCheckIntervals (startHealthChecks name m)
  = if negb (JS.truthyZ (healthCheckIntervalMs (config st)))
    then healthCheckIntervals m
    else <[name := healthCheckIntervalMs (config st)]>
           (delete name (healthCheckIntervals m)).
Proof.
  intros Hst. unfold startHealthChecks. rewrite Hst.
  destruct (negb _); [done|]. simpl.
  assert (Hs : states (stopHealthChecks name m) = states m).
  { unfold stopHealthChecks. by destruct (healthCheckIntervals m !! name). }
  by rewrite stopHealthChecks_intervals.
Qed.

Lemma step_intervals_events m op :
  registers_any op = false -> healthCheckIntervals (step m op) = healthCheckIntervals m.
Proof.
  destruct op as [n u c | http t now n | n b]; simpl; [done| |]; intros _.
  - destruct (checkHealth_as_event http t now n m) as [r ->].
    apply apply_event_intervals.
  - apply (apply_event_intervals n m (Manual b)).
Qed.

(** Probes and overrides never remove a state. *)
Lemma step_events_lookup m op name st :
  registers_any op = false ->
  states m !! name = Some st ->
  exists st', states (step m op) !! name = Some st'
    /\ config st' = config st /\ sg_url st' = sg_url st.
Proof.
  intros Hop Hst.
  assert (Hev : forall n e, exists st',
            states (apply_event n m e) !! name = Some st'
            /\ config st' = config st /\ sg_url st' = sg_url st).
  { intros n e. destruct (decide (name = n)) as [<-|Hne].
    - exists (event_update e st). split; [by apply apply_event_lookup|].
      split; [apply event_update_config|apply event_update_url].
    - exists st. by rewrite apply_event_lookup_ne. }
  destruct op as [n u c | http t now n | n b]; simpl; [done| |].
  - destruct (checkHealth_as_event http t now n m) as [r ->]. apply Hev.
  - apply (Hev n (Manual b)).
Qed.

(** X3.  The timer table of a reachable monitor: every timer belongs to a
    registered subgraph and has a non-zero period; and a registered
    subgraph without [forceMock] whose configured interval is not zero has
    a timer, of exactly that period. *)
Theorem timer_table_invariant (m : Monitor) :
  reachable m ->
  (forall name p, healthCheckIntervals m !! name = Some p ->
     p <> 0 /\ exists st, states m !! name = Some st)
  /\ (forall name st, states m !! name = Some st ->
        forceMock (config st) = false ->
        healthCheckIntervalMs (config st) <> 0 ->
        healthCheckIntervals m !! name = Some (healthCheckIntervalMs (config st))).
Proof.
  intros Hreach.
  induction Hreach as [|m op Hreach [IHt IHs]].
  { split; [intros name p Hp | intros name st Hst]; simpl in *;
      by rewrite lookup_empty in *. }
  destruct (registers_any op) eqn:Hop.
  - destruct op as [n u c | |]; try done. simpl.
    pose proof (registerSubgraph_states n u c m) as Hstates.
    assert (Hint : healthCheckIntervals (registerSubgraph n u c m)
                   = if forceMock c || negb (JS.truthyZ (healthCheckIntervalMs c))
                     then healthCheckIntervals m
                     else <[n := healthCheckIntervalMs c]>
                            (delete n (healthCheckIntervals m))).
    { unfold registerSubgraph. destruct (forceMock c); simpl; [done|].
      rewrite (startHealthChecks_intervals n _ (initialState n u c))
        by (simpl; apply lookup_insert_eq).
      done. }
    split.
    + intros name p Hp. rewrite Hstates.
      destruct (decide (name = n)) as [->|Hne].
      * rewrite lookup_insert_eq. split; [|by eexists].
        rewrite Hint in Hp.
        destruct (forceMock c || negb (JS.truthyZ (healthCheckIntervalMs c)))
          eqn:Hcase.
        -- by apply IHt in Hp as [? _].
        -- rewrite lookup_insert_eq in Hp. injection Hp as <-.
           apply orb_false_iff in Hcase as [_ Hz].
           apply negb_false_iff in Hz. unfold JS.truthyZ in Hz.
           apply negb_true_iff in Hz. by apply Z.eqb_neq in Hz.
      * rewrite lookup_insert_ne by done. apply IHt.
        rewrite Hint in Hp.
        destruct (forceMock c || negb (JS.truthyZ (healthCheckIntervalMs c)));
          [done|].
        rewrite lookup_insert_ne in Hp by done.
        by rewrite lookup_delete_ne in Hp.
    + intros name st. rewrite Hstates, Hint.
      destruct (decide (name = n)) as [->|Hne].
      * rewrite lookup_insert_eq. intros [= <-]. simpl. intros -> Hnz. simpl.
        assert (JS.truthyZ (healthCheckIntervalMs c) = true) as ->.
        { unfold JS.truthyZ. apply negb_true_iff. by apply Z.eqb_neq. }
        simpl. apply lookup_insert_eq.
      * rewrite lookup_insert_ne by done. intros Hst Hf Hnz.
        destruct (forceMock c || negb (JS.truthyZ (healthCheckIntervalMs c)));
          [by apply IHs|].
        rewrite lookup_insert_ne by done. rewrite lookup_delete_ne by done.
        by apply IHs.
  - rewrite (step_intervals_events m op Hop).
    split.
    + intros name p Hp. destruct (IHt name p Hp) as [Hnz [st Hst]].
      split; [done|].
      destruct (step_events_lookup m op name st Hop Hst) as (st' & Hst' & _).
      by exists st'.
    + intros name st' Hst' Hf Hnz.
      destruct (step_lookup_cases _ _ _ _ Hst')
        as [(url & cfg & -> & _) | [Hold | (st0 & e & Hold & ->)]].
      * done.
      * by apply IHs.
      * rewrite event_update_config in *. by apply IHs.
Qed.

(** X3, at [products] with the default configuration: a timer of 30,000 ms. *)
Lemma timer_table_invariant_witness :
  healthCheckIntervals Examples.monitor_products_failed !! "products" = Some 30000.
Proof.
  assert (Hreach : reachable Examples.monitor_products_failed).
  { apply reachable_run. apply reachable_register. }
  destruct (timer_table_invariant _ Hreach) as [_ Htimer].
  apply (Htimer "products" _ ltac:(vm_compute; reflexivity)).
  - reflexivity.
  - discriminate.
Defined.

Lemma stop_all_lookup (l : list string) : forall m k,
  healthCheckIntervals
    (fold_left (fun acc name => stopHealthChecks name acc) l m) !! k
  = if decide (k ∈ l) then None else healthCheckIntervals m !! k.
Proof.
  induction l as [|a l IH]; intros m k; simpl.
  - done.
  - rewrite IH, stopHealthChecks_intervals.
    destruct (decide (k = a)) as [->|Hne].
    + rewrite lookup_delete_eq.
      rewrite (decide_True (P := a ∈ a :: l)) by apply list_elem_of_here.
      by case_decide.
    + rewrite lookup_delete_ne by done.
      destruct (decide (k ∈ l)) as [Hin|Hnin].
      * by rewrite decide_True by (by apply list_elem_of_further).
      * rewrite decide_False; [done|].
        intros [?|?]%elem_of_cons; done.
Qed.

(** X4.  [shutdown] leaves nothing behind: whatever the monitor holds, the
    result has no state and no timer. *)
Theorem shutdown_clears_monitor (m : Monitor) :
  shutdown m = empty_monitor.
Proof.
  unfold shutdown, empty_monitor. f_equal.
  apply map_eq. intros k. rewrite stop_all_lookup, lookup_empty.
  case_decide as Hnin; [done|].
  destruct (healthCheckIntervals m !! k) as [p|] eqn:Hk; [|done].
  exfalso. apply Hnin. apply list_elem_of_In, in_map_iff.
  exists (k, p). split; [done|].
  apply list_elem_of_In. by apply elem_of_map_to_list.
Qed.

(** X5.  A [checkHealth] of a registered subgraph: it probes the
    subgraph's own URL, once, when there is one, and makes no request
    otherwise; the result is healthy exactly when that POST is answered
    with status 200; the result is what the state records ([isHealthy],
    and the clock reading as [lastHealthCheck]); URL and configuration are
    kept; no other subgraph and no timer is touched. *)
Theorem checkHealth_probe_spec (http : HttpClient) (t now : Z) (name : string)
    (m : Monitor) (st : SubgraphState) :
  states m !! name = Some st ->
  exists healthy m' st',
    checkHealth http t now name m
    = (Checked {| result_isHealthy := healthy; result_timestamp := now |}, m',
       match JS.nonempty (sg_url st) with
       | Some u => [{| call_endpoint := Some u; call_timeout := t |}]
       | None => []
       end)
    /\ (healthy = true <->
        exists u, JS.nonempty (sg_url st) = Some u /\ http (Some u) t = HttpStatus 200)
    /\ states m' !! name = Some st'
    /\ isHealthy st' = healthy
    /\ lastHealthCheck st' = Some now
    /\ sg_url st' = sg_url st
    /\ config st' = config st
    /\ (forall n, n <> name -> states m' !! n = states m !! n)
    /\ healthCheckIntervals m' = healthCheckIntervals m.
Proof.
  intros Hst.
  assert (Hprobe : exists healthy,
    (match JS.nonempty (sg_url st) with
     | Some u => checkEndpointHealth http (Some u) t
     | None => (false, [])
     end)
    = (healthy,
       match JS.nonempty (sg_url st) with
       | Some u => [{| call_endpoint := Some u; call_timeout := t |}]
       | None => []
       end)
    /\ (healthy = true <->
        exists u, JS.nonempty (sg_url st) = Some u /\ http (Some u) t = HttpStatus 200)).
  { destruct (JS.nonempty (sg_url st)) as [u|].
    - unfold checkEndpointHealth.
      destruct (http (Some u) t) as [code|] eqn:Hhttp.
      + exists (code =? 200). split; [done|]. split.
        * intros Hc. apply Z.eqb_eq in Hc as ->. by exists u.
        * intros (u' & [= <-] & Hu). rewrite Hhttp in Hu.
          injection Hu as ->. done.
      + exists false. split; [done|]. split; [done|].
        intros (u' & [= <-] & Hu). congruence.
    - exists false. split; [done|]. split; [done|]. by intros (u & ? & _). }
  destruct Hprobe as (healthy & Hprobe & Hiff).
  set (r := {| result_isHealthy := healthy; result_timestamp := now |}).
  exists healthy, (apply_event name m (Probe r)), (event_update (Probe r) st).
  split.
  { unfold checkHealth. rewrite Hst, Hprobe. done. }
  split; [done|].
  split; [by apply apply_event_lookup|].
  split.
  { simpl. unfold probe_update. by destruct healthy. }
  split.
  { simpl. unfold probe_update. by destruct healthy. }
  split; [apply event_update_url|].
  split; [apply event_update_config|].
  split; [intros n Hne; by apply apply_event_lookup_ne|].
  apply apply_event_intervals.
Qed.

(** X5, at [products] answered with status 200. *)
Lemma checkHealth_probe_spec_witness :
  exists m',
    checkHealth Examples.http_up 5000 7 "products" Examples.monitor_products
    = (Checked {| result_isHealthy := true; result_timestamp := 7 |}, m',
       [{| call_endpoint := Some Examples.products_url; call_timeout := 5000 |}]).
Proof.
  destruct (checkHealth_probe_spec Examples.http_up 5000 7 "products"
              Examples.monitor_products _ ltac:(vm_compute; reflexivity))
    as (healthy & m' & st' & Hrun & Hiff & _).
  assert (Hh : healthy = true).
  { apply Hiff. exists Examples.products_url. split; reflexivity. }
  exists m'. rewrite Hrun, Hh. reflexivity.
Defined.

End MonitorInvariants.

(** ** The registry: what its operations maintain *)

Section RegistryInvariants.
Import Config.
Import SubgraphHealthMonitor.
Import SubgraphRegistry.


(** A [checkHealth] of a registered name, in closed form. *)
Lemma checkHealth_registered http t now name (m : Monitor) st :
  states m !! name = Some st ->
  checkHealth http t now name m
  = (SubgraphHealthMonitor.Checked
       {| SubgraphHealthMonitor.result_isHealthy := probe_outcome http t (sg_url st);
          SubgraphHealthMonitor.result_timestamp := now |},
     {| SubgraphHealthMonitor.states :=
          <[name := probe_update
                      {| SubgraphHealthMonitor.result_isHealthy :=
                           probe_outcome http t (sg_url st);
                         SubgraphHealthMonitor.result_timestamp := now |} st]>
            (states m);
        SubgraphHealthMonitor.healthCheckIntervals :=
          SubgraphHealthMonitor.healthCheckIntervals m |},
     probe_calls t (sg_url st)).
Proof.
  intros Hst. unfold checkHealth, probe_outcome, probe_calls.
  rewrite Hst.
  unfold SubgraphHealthMonitor.updateStateFromHealthCheck. rewrite Hst.
  destruct (JS.nonempty (sg_url st)) as [u|]; [|done].
  unfold SubgraphHealthMonitor.checkEndpointHealth.
  by destruct (http (Some u) t).
Qed.




Lemma checkAllSubgraphs_eq http t now r :
  checkAllSubgraphs http t now r
  = ({| registry := registry r;
        healthMonitor :=
          fst (fold_left
                 (fun acc entry =>
                    let '(_, hm', calls') :=
                      checkHealth http t now (fst entry) (fst acc) in
                    (hm', snd acc ++ calls'))
                 (registry r) (healthMonitor r, []));
        healthTimeoutMs := healthTimeoutMs r |},
     snd (fold_left
            (fun acc entry =>
               let '(_, hm', calls') :=
                 checkHealth http t now (fst entry) (fst acc) in
               (hm', snd acc ++ calls'))
            (registry r) (healthMonitor r, []))).
Proof. unfold checkAllSubgraphs. by destruct (fold_left _ _ _). Qed.

(** The loop of [checkAllSubgraphs] is a run of [checkHealth] steps. *)
Lemma checkAll_fold_run http t now (entries : list (string * SubgraphInfo)) :
  forall (hm : Monitor) calls,
    fst (fold_left
           (fun acc entry =>
              let '(_, hm', calls') :=
                checkHealth http t now (fst entry) (fst acc) in
              (hm', snd acc ++ calls'))
           entries (hm, calls))
    = SubgraphHealthMonitor.run
        (List.map (fun entry => SubgraphHealthMonitor.OpCheckHealth http t now (fst entry))
           entries) hm.
Proof.
  induction entries as [|[k s] entries IH]; intros hm calls; [done|].
  simpl.
  destruct (checkHealth http t now k hm) as [[out hm'] calls'] eqn:Hc. simpl.
  by rewrite IH.
Qed.





(** Objects with distinct keys under [obj_set], [obj_get], [obj_delete]. *)
Lemma obj_set_key_In {A : Type} (k : string) (v : A) (o : list (string * A)) k' :
  In k' (List.map fst (JS.obj_set k v o)) -> k' = k \/ In k' (List.map fst o).
Proof.
  induction o as [|[k0 v0] o IH]; simpl.
  - intros [<-|[]]. by left.
  - destruct (String.eqb k0 k) eqn:Hk; simpl.
    + apply String.eqb_eq in Hk as ->. intros [<-|Hin]; [by left|by right; right].
    + intros [<-|Hin]; [by right; left|].
      destruct (IH Hin) as [?|?]; [by left|by right; right].
Qed.

Lemma obj_set_NoDup {A : Type} (k : string) (v : A) (o : list (string * A)) :
  NoDup (List.map fst o) -> NoDup (List.map fst (JS.obj_set k v o)).
Proof.
  induction o as [|[k0 v0] o IH]; simpl; intros Hnd.
  - apply NoDup_singleton.
  - apply NoDup_cons in Hnd as [Hk0 Hnd].
    destruct (String.eqb k0 k) eqn:Hk; simpl.
    + apply String.eqb_eq in Hk as ->. by apply NoDup_cons.
    + apply String.eqb_neq in Hk. apply NoDup_cons. split; [|by apply IH].
      intros Hin. apply list_elem_of_In in Hin.
      apply obj_set_key_In in Hin as [?|Hin]; [done|].
      apply Hk0. by apply list_elem_of_In.
Qed.

Lemma obj_set_In {A : Type} (k : string) (v : A) (o : list (string * A)) k' v' :
  NoDup (List.map fst o) ->
  In (k', v') (JS.obj_set k v o) ->
  (k' = k /\ v' = v) \/ (k' <> k /\ In (k', v') o).
Proof.
  induction o as [|[k0 v0] o IH]; simpl; intros Hnd.
  - intros [[= <- <-]|[]]. by left.
  - apply NoDup_cons in Hnd as [Hk0 Hnd].
    destruct (String.eqb k0 k) eqn:Hk.
    + apply String.eqb_eq in Hk as ->.
      intros [[= <- <-]|Hin]; [by left|].
      right. split; [|by right].
      intros ->. apply Hk0. apply list_elem_of_In.
      by apply (in_map fst) in Hin.
    + apply String.eqb_neq in Hk.
      intros [[= <- <-]|Hin]; [right; split; [done|by left]|].
      destruct (IH Hnd Hin) as [?|[? ?]]; [by left|]. right. split; [done|by right].
Qed.

Lemma obj_get_Some_In {A : Type} (k : string) (o : list (string * A)) v :
  JS.obj_get k o = Some v -> In (k, v) o.
Proof.
  induction o as [|[k0 v0] o IH]; simpl; [done|].
  destruct (String.eqb k0 k) eqn:Hk.
  - apply String.eqb_eq in Hk as ->. intros [= ->]. by left.
  - intros H. right. by apply IH.
Qed.

Lemma obj_get_of_In {A : Type} (k : string) (o : list (string * A)) v :
  NoDup (List.map fst o) -> In (k, v) o -> JS.obj_get k o = Some v.
Proof.
  induction o as [|[k0 v0] o IH]; simpl; intros Hnd; [done|].
  apply NoDup_cons in Hnd as [Hk0 Hnd].
  intros [[= -> ->]|Hin].
  - by rewrite String.eqb_refl.
  - destruct (String.eqb k0 k) eqn:Hk; [|by apply IH].
    apply String.eqb_eq in Hk as ->. exfalso. apply Hk0.
    apply list_elem_of_In. by apply (in_map fst) in Hin.
Qed.

Lemma obj_get_None_keys {A : Type} (k : string) (o : list (string * A)) :
  JS.obj_get k o = None <-> ~ In k (List.map fst o).
Proof.
  induction o as [|[k0 v0] o IH]; simpl; [by split; [intros _ []|]|].
  destruct (String.eqb k0 k) eqn:Hk.
  - apply String.eqb_eq in Hk as ->. split; [done|]. intros H. exfalso. apply H. by left.
  - apply String.eqb_neq in Hk. rewrite IH. split.
    + intros Hn [?|?]; done.
    + intros Hn Hin. apply Hn. by right.
Qed.

Lemma obj_delete_In {A : Type} (k : string) (o : list (string * A)) k' v' :
  NoDup (List.map fst o) ->
  In (k', v') (JS.obj_delete k o) -> k' <> k /\ In (k', v') o.
Proof.
  induction o as [|[k0 v0] o IH]; simpl; intros Hnd; [done|].
  apply NoDup_cons in Hnd as [Hk0 Hnd].
  destruct (String.eqb k0 k) eqn:Hk.
  - apply String.eqb_eq in Hk as ->. intros Hin. split; [|by right].
    intros ->. apply Hk0. apply list_elem_of_In. by apply (in_map fst) in Hin.
  - apply String.eqb_neq in Hk.
    intros [[= <- <-]|Hin]; [split; [done|by left]|].
    destruct (IH Hnd Hin) as [? ?]. split; [done|by right].
Qed.

Lemma obj_delete_NoDup {A : Type} (k : string) (o : list (string * A)) :
  NoDup (List.map fst o) -> NoDup (List.map fst (JS.obj_delete k o)).
Proof.
  induction o as [|[k0 v0] o IH]; simpl; intros Hnd; [done|].
  pose proof Hnd as Hnd0.
  apply NoDup_cons in Hnd as [Hk0 Hnd].
  destruct (String.eqb k0 k) eqn:Hk; simpl; [done|].
  apply NoDup_cons. split; [|by apply IH].
  intros Hin. apply list_elem_of_In, in_map_iff in Hin as ([k1 v1] & Heq & Hin).
  simpl in Heq. subst k1.
  apply (obj_delete_In _ _ _ _ Hnd) in Hin as [_ Hin].
  apply Hk0. apply list_elem_of_In. by apply (in_map fst) in Hin.
Qed.

Lemma obj_get_delete {A : Type} (k k' : string) (o : list (string * A)) :
  NoDup (List.map fst o) ->
  JS.obj_get k' (JS.obj_delete k o)
  = if String.eqb k k' then None else JS.obj_get k' o.
Proof.
  induction o as [|[k0 v0] o IH]; simpl; intros Hnd.
  - by destruct (String.eqb k k').
  - apply NoDup_cons in Hnd as [Hk0 Hnd].
    destruct (String.eqb k0 k) eqn:Hk.
    + apply String.eqb_eq in Hk as ->.
      destruct (String.eqb k k') eqn:Hk'; [|done].
      apply String.eqb_eq in Hk' as <-.
      apply obj_get_None_keys. intros Hin. apply Hk0. by apply list_elem_of_In.
    + simpl. rewrite (IH Hnd).
      destruct (String.eqb k0 k') eqn:Hk0'; [|done].
      apply String.eqb_eq in Hk0' as ->. by rewrite String.eqb_sym, Hk.
Qed.

Lemma obj_delete_length {A : Type} (k : string) (o : list (string * A)) :
  length o
  = (length (JS.obj_delete k o)
     + match JS.obj_get k o with Some _ => 1 | None => 0 end)%nat.
Proof.
  induction o as [|[k0 v0] o IH]; simpl; [done|].
  destruct (String.eqb k0 k); simpl; lia.
Qed.

Lemma obj_set_length {A : Type} (k : string) (v : A) (o : list (string * A)) :
  length (JS.obj_set k v o)
  = (length o + match JS.obj_get k o with Some _ => 0 | None => 1 end)%nat.
Proof.
  induction o as [|[k0 v0] o IH]; simpl; [done|].
  destruct (String.eqb k0 k); simpl; lia.
Qed.

Lemma run_events_lookup ops : forall (m : Monitor) name st,
  Forall (fun op => registers_any op = false) ops ->
  states m !! name = Some st ->
  exists st', states (run ops m) !! name = Some st'
    /\ config st' = config st /\ sg_url st' = sg_url st.
Proof.
  induction ops as [|op ops IH]; intros m name st Hops Hst; [by exists st|].
  apply Forall_cons in Hops as [Hop Hops]. simpl.
  destruct (step_events_lookup m op name st Hop Hst) as (st1 & Hst1 & Hc1 & Hu1).
  destruct (IH _ _ _ Hops Hst1) as (st' & Hst' & Hc & Hu).
  exists st'. split; [done|]. split; congruence.
Qed.

(** The shape of a reachable registry: distinct, non-empty names; every
    entry is filed under its own name, and the monitor holds a state for
    it, with the same URL. *)
Lemma registry_reachable_wf r :
  registry_reachable r ->
  NoDup (List.map fst (registry r))
  /\ forall k s, In (k, s) (registry r) ->
       info_name s = k /\ k <> ""%string
       /\ exists st, states (healthMonitor r) !! k = Some st
                     /\ sg_url st = info_url s.
Proof.
  induction 1 as [t|r op Hr [IHnd IHin]].
  { split; [apply NoDup_nil_2|]. intros k s []. }
  destruct op as [name url cfg | name | | http t now | http t now name].
  - simpl. unfold registerSubgraph.
    destruct (negb (JS.truthy (Some name))) eqn:Hname; [done|]. simpl.
    split; [by apply obj_set_NoDup|].
    intros k s Hin.
    apply obj_set_In in Hin as [[-> ->]|[Hne Hin]]; [| |done].
    + simpl. split; [done|]. split.
      * intros ->. done.
      * eexists. rewrite registerSubgraph_states, lookup_insert_eq. done.
    + destruct (IHin k s Hin) as (? & ? & st & Hst & Hurl).
      split; [done|]. split; [done|]. exists st.
      by rewrite registerSubgraph_states, lookup_insert_ne.
  - simpl. split; [by apply obj_delete_NoDup|].
    intros k s Hin. apply obj_delete_In in Hin as [_ Hin]; [|done]. by apply IHin.
  - simpl. split; [apply NoDup_nil_2|]. intros k s [].
  - simpl. rewrite checkAllSubgraphs_eq. simpl. split; [done|].
    intros k s Hin. destruct (IHin k s Hin) as (? & ? & st & Hst & Hurl).
    split; [done|]. split; [done|].
    rewrite checkAll_fold_run.
    destruct (run_events_lookup
                (List.map (fun entry => OpCheckHealth http t now (fst entry))
                   (registry r)) (healthMonitor r) k st) as (st' & Hst' & _ & Hu);
      [|done|].
    + apply Forall_forall. intros o Ho. apply list_elem_of_In in Ho.
      by apply in_map_iff in Ho as (e & <- & _).
    + exists st'. split; [done|]. congruence.
  - simpl. split; [done|].
    intros k s Hin. destruct (IHin k s Hin) as (? & ? & st & Hst & Hurl).
    split; [done|]. split; [done|].
    destruct (step_events_lookup (healthMonitor r)
                (OpCheckHealth http t now name) k st eq_refl Hst)
      as (st' & Hst' & _ & Hu).
    exists st'. split; [done|]. congruence.
Qed.






(** The loop of [checkAllSubgraphs] over entries with distinct names whose
    states the monitor holds. *)
Lemma checkAll_fold_spec http t now (entries : list (string * SubgraphInfo)) :
  forall (hm : Monitor) calls0,
    NoDup (List.map fst entries) ->
    (forall k s, In (k, s) entries ->
       exists st, states hm !! k = Some st /\ sg_url st = info_url s) ->
    let res := fold_left
                 (fun acc entry =>
                    let '(_, hm', calls') :=
                      checkHealth http t now (fst entry) (fst acc) in
                    (hm', snd acc ++ calls'))
                 entries (hm, calls0) in
    snd res = calls0 ++ flat_map (fun e => probe_calls t (info_url (snd e))) entries
    /\ healthCheckIntervals (fst res) = healthCheckIntervals hm
    /\ (forall n, ~ In n (List.map fst entries) ->
          states (fst res) !! n = states hm !! n)
    /\ (forall k s, In (k, s) entries ->
          exists st, states hm !! k = Some st
            /\ states (fst res) !! k
               = Some (probe_update
                         {| result_isHealthy := probe_outcome http t (info_url s);
                            result_timestamp := now |} st)).
Proof.
  induction entries as [|[k s] entries IH]; intros hm calls0 Hnd Hst; simpl.
  { rewrite app_nil_r. repeat split; try done; by intros k s []. }
  apply NoDup_cons in Hnd as [Hk Hnd].
  destruct (Hst k s (or_introl eq_refl)) as (st & Hlook & Hurl).
  rewrite (checkHealth_registered http t now k hm st Hlook). simpl.
  set (hm1 := {| states := _; healthCheckIntervals := _ |}).
  destruct (IH hm1 (calls0 ++ probe_calls t (sg_url st)) Hnd) as (Hc & Hi & Hout & Hin).
  { intros k' s' Hin'.
    assert (k' <> k).
    { intros ->. apply Hk. apply list_elem_of_In. by apply (in_map fst) in Hin'. }
    destruct (Hst k' s' (or_intror Hin')) as (st' & ? & ?).
    exists st'. split; [|done]. simpl. by rewrite lookup_insert_ne. }
  split; [rewrite Hc, <- app_assoc, Hurl; done|].
  split; [by rewrite Hi|].
  split.
  - intros n Hn. rewrite Hout by (intros ?; apply Hn; by right).
    simpl. rewrite lookup_insert_ne; [done|]. intros ->. apply Hn. by left.
  - intros k' s' [[= <- <-]|Hin'].
    + exists st. split; [done|].
      rewrite Hout by (intros ?; apply Hk; by apply list_elem_of_In).
      simpl. by rewrite lookup_insert_eq, Hurl.
    + assert (k' <> k).
      { intros ->. apply Hk. apply list_elem_of_In. by apply (in_map fst) in Hin'. }
      destruct (Hin k' s' Hin') as (st' & Hl & Hr).
      exists st'. split; [|done].
      simpl in Hl. by rewrite lookup_insert_ne in Hl.
Qed.

(** X8.  One turn of the registry's periodic check, in a registry reached
    by its own operations: the registry is unchanged; every registered
    subgraph that has a URL is sent one request, in registration order,
    and subgraphs without URL none; the state of every registered subgraph
    is updated with the outcome of its own probe, whatever its
    configuration ([forceMock] included); the states of names that are no
    longer registered, and all timers, stay as they are. *)
Theorem checkAllSubgraphs_spec (http : HttpClient) (t now : Z) (r : Registry) :
  registry_reachable r ->
  registry (fst (checkAllSubgraphs http t now r)) = registry r
  /\ snd (checkAllSubgraphs http t now r)
     = flat_map (fun e => probe_calls t (info_url (snd e))) (registry r)
  /\ healthCheckIntervals (healthMonitor (fst (checkAllSubgraphs http t now r)))
     = healthCheckIntervals (healthMonitor r)
  /\ (forall k s, In (k, s) (registry r) ->
        exists st, states (healthMonitor r) !! k = Some st
          /\ states (healthMonitor (fst (checkAllSubgraphs http t now r))) !! k
             = Some (probe_update
                       {| result_isHealthy := probe_outcome http t (info_url s);
                          result_timestamp := now |} st))
  /\ (forall n, ~ In n (List.map fst (registry r)) ->
        states (healthMonitor (fst (checkAllSubgraphs http t now r))) !! n
        = states (healthMonitor r) !! n).
Proof.
  intros Hr.
  destruct (registry_reachable_wf r Hr) as [Hnd Hwf].
  rewrite checkAllSubgraphs_eq. simpl.
  destruct (checkAll_fold_spec http t now (registry r) (healthMonitor r) [] Hnd)
    as (Hc & Hi & Hout & Hin).
  { intros k s Hks. by destruct (Hwf k s Hks) as (_ & _ & ?). }
  done.
Qed.

(** X9.  [unregisterSubgraph], in a registry reached by its own
    operations: it answers whether the name was registered; afterwards the
    name is not found, every other name is found as before, and the count
    has dropped by one if the name was registered; the health monitor is
    left as it is, so the state and the timer of the name stay behind. *)
Theorem unregisterSubgraph_spec (name : string) (r : Registry) :
  registry_reachable r ->
  (fst (unregisterSubgraph name r) = true <->
   exists s, getSubgraphByName r name = Some s)
  /\ getSubgraphByName (snd (unregisterSubgraph name r)) name = None
  /\ (forall n, n <> name ->
        getSubgraphByName (snd (unregisterSubgraph name r)) n = getSubgraphByName r n)
  /\ getSubgraphCount r
     = (getSubgraphCount (snd (unregisterSubgraph name r))
        + if fst (unregisterSubgraph name r) then 1 else 0)%nat
  /\ healthMonitor (snd (unregisterSubgraph name r)) = healthMonitor r.
Proof.
  intros Hr. destruct (registry_reachable_wf r Hr) as [Hnd _].
  unfold unregisterSubgraph, getSubgraphByName, getSubgraphCount. simpl.
  split.
  { destruct (JS.obj_get name (registry r)) as [s|]; split; try done.
    - intros _. by exists s.
    - by intros [s ?]. }
  split; [by rewrite obj_get_delete, String.eqb_refl|].
  split.
  { intros n Hne. rewrite obj_get_delete by done.
    destruct (String.eqb name n) eqn:Heq; [|done].
    apply String.eqb_eq in Heq. congruence. }
  split; [|done].
  rewrite (obj_delete_length name (registry r)).
  by destruct (JS.obj_get name (registry r)).
Qed.

(** X10.  [registerSubgraph] of the registry: an empty name is refused;
    otherwise the subgraph is found under its name afterwards, its state
    in the monitor is the initial one for the given (or the default)
    configuration, whatever was recorded before, the other names and their
    states are untouched, and the count grows by one exactly when the name
    is new. *)
Theorem registerSubgraph_spec (name : string) (url : option string)
    (cfg : option SubgraphConfigItem) (r : Registry) :
  (name = ""%string -> registerSubgraph name url cfg r = None)
  /\ (name <> ""%string ->
      exists r', registerSubgraph name url cfg r = Some r'
        /\ getSubgraphByName r' name = Some {| info_name := name; info_url := url |}
        /\ getState r' {| info_name := name; info_url := url |}
           = Some (initialState name url
                     match cfg with Some c => c | None => DEFAULT_SUBGRAPH_CONFIG end)
        /\ (forall n, n <> name ->
              getSubgraphByName r' n = getSubgraphByName r n
              /\ states (healthMonitor r') !! n = states (healthMonitor r) !! n)
        /\ getSubgraphCount r'
           = (getSubgraphCount r
              + match getSubgraphByName r name with Some _ => 0 | None => 1 end)%nat).
Proof.
  split.
  - intros ->. done.
  - intros Hne. unfold registerSubgraph.
    assert (JS.truthy (Some name) = true) as ->.
    { simpl. apply negb_true_iff. by apply String.eqb_neq. }
    simpl. eexists. split; [done|].
    unfold getSubgraphByName, getState, SubgraphHealthMonitor.getState,
      getSubgraphCount. simpl.
    split; [by rewrite obj_get_set, String.eqb_refl|].
    split; [by rewrite registerSubgraph_states, lookup_insert_eq|].
    split.
    + intros n Hn. split.
      * rewrite obj_get_set.
        destruct (String.eqb name n) eqn:Heq; [|done].
        apply String.eqb_eq in Heq. congruence.
      * by rewrite registerSubgraph_states, lookup_insert_ne.
    + apply obj_set_length.
Qed.

Lemma registry_reachable_run ops : forall r,
  registry_reachable r -> registry_reachable (fold_left registry_step ops r).
Proof.
  induction ops as [|op ops IH]; intros r Hr; simpl; [done|].
  apply IH. by constructor.
Qed.

Lemma registry_mixed_reachable : registry_reachable Examples.registry_mixed.
Proof. apply registry_reachable_run. constructor. Qed.




(** X8, at the mixed registry: one request, to [products]. *)
Lemma checkAllSubgraphs_spec_witness :
  snd (checkAllSubgraphs Examples.http_down 5000 20 Examples.registry_mixed)
  = [{| call_endpoint := Some Examples.products_url; call_timeout := 5000 |}].
Proof.
  destruct (checkAllSubgraphs_spec Examples.http_down 5000 20 Examples.registry_mixed
              registry_mixed_reachable) as (_ & Hcalls & _).
  rewrite Hcalls. reflexivity.
Defined.

(** X9, at [products] of the mixed registry: the monitor keeps its state. *)
Lemma unregisterSubgraph_spec_witness :
  getSubgraphByName (snd (unregisterSubgraph "products" Examples.registry_mixed))
    "products" = None
  /\ healthMonitor (snd (unregisterSubgraph "products" Examples.registry_mixed))
     = healthMonitor Examples.registry_mixed.
Proof.
  destruct (unregisterSubgraph_spec "products" Examples.registry_mixed
              registry_mixed_reachable) as (_ & Hgone & _ & _ & Hmon).
  split; [exact Hgone|exact Hmon].
Defined.

End RegistryInvariants.

(** ** The health endpoint *)

Section HealthEndpoint.
Import SubgraphRegistry.
Import HealthCheck.

Lemma includes_In x l : includes x l = true <-> In x l.
Proof.
  unfold includes. rewrite existsb_exists. split.
  - intros (y & Hin & Heq). by destruct x, y.
  - intros Hin. exists x. split; [done|]. by destruct x.
Qed.

Lemma filter_length_zero {A : Type} (f : A -> bool) (l : list A) :
  length (List.filter f l) = 0%nat <-> forall x, In x l -> f x = false.
Proof.
  induction l as [|a l IH]; simpl; [by split|].
  destruct (f a) eqn:Ha; simpl.
  - split; [done|]. intros H. specialize (H a (or_introl eq_refl)). congruence.
  - rewrite IH. split.
    + intros H x [<-|Hin]; auto.
    + intros H x Hin. apply H. by right.
Qed.

Lemma filter_length_le {A : Type} (f : A -> bool) (l : list A) :
  (length (List.filter f l) <= length l)%nat.
Proof.
  induction l as [|a l IH]; simpl; [lia|]. destruct (f a); simpl; lia.
Qed.

Lemma filter_length_full {A : Type} (f : A -> bool) (l : list A) :
  length (List.filter f l) = length l <-> forall x, In x l -> f x = true.
Proof.
  induction l as [|a l IH]; simpl; [by split|].
  pose proof (filter_length_le f l).
  destruct (f a) eqn:Ha; simpl.
  - split.
    + intros H' x [<-|Hin]; [done|]. apply IH; [lia|done].
    + intros H'. f_equal. apply IH. intros x Hin. apply H'. by right.
  - split; [lia|]. intros H'. specialize (H' a (or_introl eq_refl)). congruence.
Qed.

Lemma aggregateHealth_cases (checks : list (string * ComponentHealth)) :
  (aggregateHealth checks = UNHEALTHY
   /\ exists c, In c checks /\ ch_status (snd c) = UNHEALTHY)
  \/ (aggregateHealth checks = DEGRADED
      /\ (exists c, In c checks /\ ch_status (snd c) = DEGRADED)
      /\ forall c, In c checks -> ch_status (snd c) <> UNHEALTHY)
  \/ (aggregateHealth checks = HEALTHY
      /\ forall c, In c checks -> ch_status (snd c) = HEALTHY).
Proof.
  unfold aggregateHealth.
  set (statuses := List.map (fun check => ch_status (snd check)) checks).
  assert (Hst : forall x, In x statuses <-> exists c, In c checks /\ ch_status (snd c) = x).
  { intros x. unfold statuses. rewrite in_map_iff. split.
    - intros (c & ? & ?). by exists c.
    - intros (c & ? & ?). by exists c. }
  destruct (includes UNHEALTHY statuses) eqn:Hu.
  { left. split; [done|]. by apply includes_In, Hst in Hu. }
  assert (Hnone : forall c, In c checks -> ch_status (snd c) <> UNHEALTHY).
  { intros c Hin Hc. apply not_true_iff_false in Hu. apply Hu.
    apply includes_In, Hst. by exists c. }
  right. destruct (includes DEGRADED statuses) eqn:Hd.
  { left. split; [done|]. split; [|done]. by apply includes_In, Hst in Hd. }
  right. split; [done|]. intros c Hin.
  assert (ch_status (snd c) <> DEGRADED).
  { intros Hc. apply not_true_iff_false in Hd. apply Hd.
    apply includes_In, Hst. by exists c. }
  specialize (Hnone c Hin). by destruct (ch_status (snd c)).
Qed.

(** X11.  [aggregateHealth] reports the worst component: [unhealthy]
    exactly when some component is unhealthy, [healthy] exactly when all
    are, [degraded] otherwise; and the detailed health handler answers 503
    exactly when some component is unhealthy, 200 otherwise. *)
Theorem aggregateHealth_worst (checks : list (string * ComponentHealth)) :
  (aggregateHealth checks = UNHEALTHY <->
   exists c, In c checks /\ ch_status (snd c) = UNHEALTHY)
  /\ (aggregateHealth checks = HEALTHY <->
      forall c, In c checks -> ch_status (snd c) = HEALTHY)
  /\ (aggregateHealth checks = DEGRADED <->
      (exists c, In c checks /\ ch_status (snd c) = DEGRADED)
      /\ forall c, In c checks -> ch_status (snd c) <> UNHEALTHY)
  /\ (fst (detailedHealthCheckHandler (Some checks)) = 503 <->
      exists c, In c checks /\ ch_status (snd c) = UNHEALTHY)
  /\ (fst (detailedHealthCheckHandler (Some checks)) <> 503 ->
      fst (detailedHealthCheckHandler (Some checks)) = 200).
Proof.
  unfold detailedHealthCheckHandler. simpl.
  destruct (aggregateHealth_cases checks)
    as [[-> (c & Hin & Hc)] | [(-> & (c & Hin & Hc) & Hnone) | [-> Hall]]].
  - split; [split; [by exists c|done]|].
    split; [split; [done|]; intros H; specialize (H c Hin); congruence|].
    split; [split; [done|]; intros [_ H]; by specialize (H c Hin)|].
    split; [split; [by exists c|done]|done].
  - split; [split; [done|]; intros (c' & Hin' & Hc'); by apply Hnone in Hin'|].
    split; [split; [done|]; intros H; specialize (H c Hin); congruence|].
    split; [split; [intros _; split; [by exists c|done]|done]|].
    split; [split; [done|]; intros (c' & Hin' & Hc'); by apply Hnone in Hin'|done].
  - assert (Hno : forall x, x <> HEALTHY ->
              ~ exists c, In c checks /\ ch_status (snd c) = x).
    { intros x Hx (c & Hin & Hc). rewrite (Hall c Hin) in Hc. congruence. }
    split; [split; [done|]; intros H; by apply Hno in H|].
    split; [done|].
    split; [split; [done|]; intros [H _]; by apply Hno in H|].
    split; [split; [done|]; intros H; by apply Hno in H|done].
Qed.

(** X12.  [GET /health] answers 503 exactly when subgraphs are registered
    and none of them is recorded healthy; it answers 200 otherwise, also
    for an empty registry; and it reports [healthy] exactly when subgraphs
    are registered and all of them are recorded healthy. *)
Theorem health_route_status (serverMetrics cacheMetrics : list (string * Json.json))
    (r : Registry) :
  (fst (health_route serverMetrics cacheMetrics r) = 503 <->
   registry r <> [] /\ forall s, In s (getAllSubgraphs r) -> isAvailable r s = false)
  /\ (fst (health_route serverMetrics cacheMetrics r) <> 503 ->
      fst (health_route serverMetrics cacheMetrics r) = 200)
  /\ (snd (health_route serverMetrics cacheMetrics r) = HEALTHY <->
      registry r <> [] /\ forall s, In s (getAllSubgraphs r) -> isAvailable r s = true).
Proof.
  assert (Hagg : health_route serverMetrics cacheMetrics r
                 = (match registry_status r with
                    | UNHEALTHY => 503 | _ => 200 end, registry_status r)).
  { unfold health_route, health_checks, detailedHealthCheckHandler, aggregateHealth.
    simpl. by destruct (registry_status r). }
  rewrite Hagg. simpl.
  unfold registry_status, getAllSubgraphs.
  set (l := List.map snd (registry r)).
  assert (Hempty : length l = 0%nat <-> registry r = []).
  { unfold l. rewrite length_map. by destruct (registry r). }
  pose proof (filter_length_zero (isAvailable r) l) as Hzero.
  pose proof (filter_length_full (isAvailable r) l) as Hfull.
  pose proof (filter_length_le (isAvailable r) l) as Hle.
  destruct (length l =? 0)%nat eqn:Hl.
  { apply Nat.eqb_eq in Hl. apply Hempty in Hl.
    split; [split; [done|by intros [? _]]|].
    split; [done|]. split; [done|by intros [? _]]. }
  apply Nat.eqb_neq in Hl.
  assert (Hne : registry r <> []) by (intros H; by apply Hempty in H).
  destruct (length (List.filter (isAvailable r) l) =? 0)%nat eqn:Hh.
  { apply Nat.eqb_eq in Hh.
    split; [split; [intros _; split; [done|by apply Hzero]|done]|].
    split; [done|]. split; [done|].
    intros [_ Hall]. apply Hfull in Hall. lia. }
  apply Nat.eqb_neq in Hh.
  assert (Hsome : ~ forall s, In s l -> isAvailable r s = false)
    by (intros H; by apply Hzero in H).
  destruct (length (List.filter (isAvailable r) l) <? length l)%nat eqn:Hlt.
  - apply Nat.ltb_lt in Hlt.
    split; [split; [done|by intros [_ ?]]|].
    split; [done|]. split; [done|].
    intros [_ Hall]. apply Hfull in Hall. lia.
  - apply Nat.ltb_ge in Hlt.
    split; [split; [done|by intros [_ ?]]|].
    split; [done|]. split; [|done].
    intros _. split; [done|]. apply Hfull. lia.
Qed.

End HealthEndpoint.

(** ** Query normalization *)

Section QueryNormalization.
Import QueryUtils.

Lemma lower_ascii_space c : is_space (lower_ascii c) = is_space c.
Proof. destruct c as [[] [] [] [] [] [] [] []]; reflexivity. Qed.

Lemma lower_ascii_hash c : Ascii.eqb (lower_ascii c) "#" = Ascii.eqb c "#".
Proof. destruct c as [[] [] [] [] [] [] [] []]; reflexivity. Qed.

Lemma lower_ascii_nl c : Ascii.eqb (lower_ascii c) nl = Ascii.eqb c nl.
Proof. destruct c as [[] [] [] [] [] [] [] []]; reflexivity. Qed.

Lemma lower_ascii_idem c : lower_ascii (lower_ascii c) = lower_ascii c.
Proof. destruct c as [[] [] [] [] [] [] [] []]; reflexivity. Qed.

Lemma lower_ascii_not_upper c : is_upper (lower_ascii c) = false.
Proof. destruct c as [[] [] [] [] [] [] [] []]; reflexivity. Qed.

Lemma toLowerCase_idem s : toLowerCase (toLowerCase s) = toLowerCase s.
Proof. induction s as [|c s IH]; simpl; [done|]. by rewrite lower_ascii_idem, IH. Qed.

Lemma strip_comments_lower s : forall b,
  strip_comments b (toLowerCase s) = toLowerCase (strip_comments b s).
Proof.
  induction s as [|c s IH]; intros b; simpl; [done|].
  rewrite lower_ascii_nl, lower_ascii_hash.
  destruct (Ascii.eqb c nl); simpl; [by rewrite IH|].
  destruct b; [apply IH|].
  destruct (Ascii.eqb c "#"); simpl; [apply IH|by rewrite IH].
Qed.

Lemma strip_spaces_lower s :
  strip_spaces (toLowerCase s) = toLowerCase (strip_spaces s).
Proof.
  induction s as [|c s IH]; simpl; [done|].
  rewrite lower_ascii_space. destruct (is_space c); simpl; by rewrite IH.
Qed.

Lemma normalizeQuery_lower q : normalizeQuery (toLowerCase q) = normalizeQuery q.
Proof.
  unfold normalizeQuery.
  by rewrite strip_comments_lower, strip_spaces_lower, toLowerCase_idem.
Qed.

Lemma strip_comments_no_hash s : forall b,
  all_chars (fun c => negb (Ascii.eqb c "#")) (strip_comments b s) = true.
Proof.
  induction s as [|c s IH]; intros b; simpl; [done|].
  destruct (Ascii.eqb c nl) eqn:Hnl; simpl.
  - apply Ascii.eqb_eq in Hnl as ->. simpl. apply IH.
  - destruct b; [apply IH|].
    destruct (Ascii.eqb c "#") eqn:Hh; simpl; [apply IH|].
    rewrite Hh. simpl. apply IH.
Qed.

Lemma strip_spaces_all p s :
  all_chars p s = true -> all_chars p (strip_spaces s) = true.
Proof.
  induction s as [|c s IH]; simpl; [done|].
  intros [Hc Hs]%andb_true_iff.
  destruct (is_space c); simpl; [by apply IH|].
  rewrite Hc. by apply IH.
Qed.

Lemma strip_spaces_no_space s :
  all_chars (fun c => negb (is_space c)) (strip_spaces s) = true.
Proof.
  induction s as [|c s IH]; simpl; [done|].
  destruct (is_space c) eqn:Hc; simpl; [done|]. by rewrite Hc.
Qed.

Lemma strip_comments_id s :
  all_chars (fun c => negb (Ascii.eqb c "#")) s = true ->
  strip_comments false s = s.
Proof.
  induction s as [|c s IH]; simpl; [done|].
  intros [Hc Hs]%andb_true_iff.
  destruct (Ascii.eqb c nl); [by rewrite IH|].
  apply negb_true_iff in Hc. rewrite Hc. by rewrite IH.
Qed.

Lemma strip_spaces_id s :
  all_chars (fun c => negb (is_space c)) s = true -> strip_spaces s = s.
Proof.
  induction s as [|c s IH]; simpl; [done|].
  intros [Hc Hs]%andb_true_iff.
  apply negb_true_iff in Hc. rewrite Hc. by rewrite IH.
Qed.

(** The characters of a normalized query. *)
Lemma normalizeQuery_chars q :
  all_chars (fun c => negb (is_space c)) (normalizeQuery q) = true
  /\ all_chars (fun c => negb (Ascii.eqb c "#")) (normalizeQuery q) = true
  /\ all_chars (fun c => negb (is_upper c)) (normalizeQuery q) = true.
Proof.
  unfold normalizeQuery.
  set (t := strip_spaces (strip_comments false q)).
  assert (Hsp : all_chars (fun c => negb (is_space c)) t = true)
    by apply strip_spaces_no_space.
  assert (Hh : all_chars (fun c => negb (Ascii.eqb c "#")) t = true)
    by (apply strip_spaces_all, strip_comments_no_hash).
  clearbody t.
  induction t as [|c t IH]; simpl; [done|].
  simpl in Hsp, Hh.
  apply andb_true_iff in Hsp as [Hc1 Hsp]. apply andb_true_iff in Hh as [Hc2 Hh].
  destruct (IH Hsp Hh) as (-> & -> & ->).
  rewrite lower_ascii_space, lower_ascii_hash, lower_ascii_not_upper, Hc1, Hc2.
  done.
Qed.

(** X13.  [normalizeQuery] yields a normal form: its result contains no
    whitespace, no [#] and no upper-case letter, and normalizing it again
    changes nothing. *)
Theorem normalizeQuery_normal_form (q : string) :
  all_chars normal_char (normalizeQuery q) = true
  /\ normalizeQuery (normalizeQuery q) = normalizeQuery q.
Proof.
  destruct (normalizeQuery_chars q) as (Hsp & Hh & Hup).
  split.
  - unfold normal_char.
    induction (normalizeQuery q) as [|c s IH]; simpl; [done|].
    simpl in Hsp, Hh, Hup.
    apply andb_true_iff in Hsp as [-> Hsp]. apply andb_true_iff in Hh as [-> Hh].
    apply andb_true_iff in Hup as [-> Hup]. simpl. by apply IH.
  - unfold normalizeQuery at 1.
    rewrite (strip_comments_id _ Hh), (strip_spaces_id _ Hsp).
    unfold normalizeQuery. apply toLowerCase_idem.
Qed.

Lemma strip_insert_space c s2 : forall s1 b,
  is_space c = true -> c <> nl ->
  strip_spaces (strip_comments b (s1 ++ String c s2))
  = strip_spaces (strip_comments b (s1 ++ s2)).
Proof.
  intros s1 b Hc Hnl.
  assert (Hnlb : Ascii.eqb c nl = false) by (by apply Ascii.eqb_neq).
  assert (Hhash : Ascii.eqb c "#" = false).
  { destruct (Ascii.eqb c "#") eqn:Hh; [|done].
    apply Ascii.eqb_eq in Hh. subst c. done. }
  revert b. induction s1 as [|a s1 IH]; intros b; simpl.
  - rewrite Hnlb. destruct b; [done|]. rewrite Hhash. simpl. by rewrite Hc.
  - destruct (Ascii.eqb a nl); simpl; [by rewrite IH|].
    destruct b; [apply IH|].
    destruct (Ascii.eqb a "#"); simpl; [apply IH|by rewrite IH].
Qed.

(** X14.  [isIntrospectionQuery] looks at the normal form only: it accepts
    exactly the queries whose normal form is
    [querysubgraphintrospectquery{_service{sdl}}]; its answer does not
    change when the query is lower-cased, nor when a blank, tab or other
    whitespace character that is not a newline is inserted anywhere. *)
Theorem isIntrospectionQuery_normal_form :
  (forall q, isIntrospectionQuery q = true <->
             normalizeQuery q = "querysubgraphintrospectquery{_service{sdl}}"%string)
  /\ (forall q, isIntrospectionQuery (toLowerCase q) = isIntrospectionQuery q)
  /\ (forall s1 c s2, is_space c = true -> c <> nl ->
        isIntrospectionQuery (s1 ++ String c s2) = isIntrospectionQuery (s1 ++ s2)).
Proof.
  split; [|split].
  - intros q. unfold isIntrospectionQuery.
    change (normalizeQuery FEDERATION_INTROSPECTION_QUERY)
      with "querysubgraphintrospectquery{_service{sdl}}"%string.
    apply String.eqb_eq.
  - intros q. unfold isIntrospectionQuery. by rewrite normalizeQuery_lower.
  - intros s1 c s2 Hc Hnl. unfold isIntrospectionQuery, normalizeQuery.
    by rewrite strip_insert_space.
Qed.

End QueryNormalization.

(** ** The introspection service: how many attempts are made *)

Section IntrospectionAttempts.
Import Json.
Import Axios.
Import IntrospectionService.

(** The loop from [attempt] on, when the first success is at attempt [i]. *)
Lemma introspect_loop_first_success post endpoint rc hdrs i v :
  Z.of_nat i <= maxRetries rc ->
  performIntrospection (post i) = inr v ->
  forall k attempt fuel,
    i = (attempt + k)%nat ->
    (k < fuel)%nat ->
    (forall j, (attempt <= j < i)%nat -> exists e, performIntrospection (post j) = inl e) ->
    introspect_loop post endpoint rc hdrs fuel attempt
    = Some ({| success := true; sdl := v; error := None |},
            attempts_trace
              (EvPost endpoint QueryUtils.FEDERATION_INTROSPECTION_QUERY
                 INTROSPECTION_TIMEOUT_MS (request_headers hdrs))
              (retryDelayMs rc) (S k)).
Proof.
  intros Hi Hok.
  induction k as [|k IH]; intros attempt fuel Heq Hfuel Hfail.
  - destruct fuel as [|fuel]; [lia|].
    assert (Hat : attempt = i) by lia. subst attempt.
    assert (Hle : (Z.of_nat i <=? maxRetries rc) = true) by (apply Z.leb_le; lia).
    cbn [introspect_loop]. by rewrite Hle, Hok.
  - destruct fuel as [|fuel]; [lia|].
    assert (Hle : (Z.of_nat attempt <=? maxRetries rc) = true) by (apply Z.leb_le; lia).
    destruct (Hfail attempt ltac:(lia)) as [e He].
    assert (Hne : (Z.of_nat attempt =? maxRetries rc) = false) by (apply Z.eqb_neq; lia).
    rewrite (attempts_trace_succ _ _ (S k)) by lia.
    cbn [introspect_loop]. rewrite Hle, He, Hne.
    rewrite (IH (S attempt) fuel); [done|lia|lia|].
    intros j Hj. apply Hfail. lia.
Qed.

(** The loop from [attempt] on, when every attempt up to the last fails. *)
Lemma introspect_loop_all_fail post endpoint rc hdrs e :
  0 <= maxRetries rc ->
  performIntrospection (post (Z.to_nat (maxRetries rc))) = inl e ->
  forall k attempt fuel,
    Z.to_nat (maxRetries rc) = (attempt + k)%nat ->
    (k < fuel)%nat ->
    (forall j, (attempt <= j)%nat -> Z.of_nat j <= maxRetries rc ->
       exists e', performIntrospection (post j) = inl e') ->
    introspect_loop post endpoint rc hdrs fuel attempt
    = Some ({| success := false; sdl := JUndefined; error := Some (getErrorMessage e) |},
            attempts_trace
              (EvPost endpoint QueryUtils.FEDERATION_INTROSPECTION_QUERY
                 INTROSPECTION_TIMEOUT_MS (request_headers hdrs))
              (retryDelayMs rc) (S k)).
Proof.
  intros Hmax Hlast.
  induction k as [|k IH]; intros attempt fuel Heq Hfuel Hfail.
  - destruct fuel as [|fuel]; [lia|].
    assert (Hat : attempt = Z.to_nat (maxRetries rc)) by lia. subst attempt.
    cbn [introspect_loop].
    rewrite Z2Nat.id by done.
    by rewrite Z.leb_refl, Hlast, Z.eqb_refl.
  - destruct fuel as [|fuel]; [lia|].
    assert (Hle : (Z.of_nat attempt <=? maxRetries rc) = true) by (apply Z.leb_le; lia).
    destruct (Hfail attempt ltac:(lia) ltac:(lia)) as [e' He].
    assert (Hne : (Z.of_nat attempt =? maxRetries rc) = false) by (apply Z.eqb_neq; lia).
    rewrite (attempts_trace_succ _ _ (S k)) by lia.
    cbn [introspect_loop]. rewrite Hle, He, Hne.
    rewrite (IH (S attempt) fuel); [done|lia|lia|].
    intros j Hj ?. apply Hfail; lia.
Qed.

Lemma attempts_trace_length ev d k :
  length (attempts_trace ev d (S k)) = (2 * k + 1)%nat.
Proof.
  induction k as [|k IH]; [done|].
  rewrite attempts_trace_succ by lia. cbn [length]. rewrite IH. lia.
Qed.

(** X15.  [introspect] stops at the first attempt that succeeds: if the
    attempts before the [i]-th fail and the [i]-th, within the retry
    budget, succeeds with SDL [v], the result is a success carrying [v],
    after exactly [i + 1] POSTs and [i] delays of [retryDelayMs]; no
    further request is made. *)
Theorem introspect_stops_at_first_success (post : nat -> AxiosOutcome)
    (endpoint : string) (rc : RetryConfig) (hdrs : option (list (string * string)))
    (i : nat) (v : json) :
  Z.of_nat i <= maxRetries rc ->
  (forall j, (j < i)%nat -> exists e, performIntrospection (post j) = inl e) ->
  performIntrospection (post i) = inr v ->
  exists tr,
    introspect post endpoint rc hdrs
    = Some ({| success := true; sdl := v; error := None |}, tr)
    /\ tr = attempts_trace
              (EvPost endpoint QueryUtils.FEDERATION_INTROSPECTION_QUERY
                 10000 (request_headers hdrs))
              (retryDelayMs rc) (S i)
    /\ count_posts tr = S i
    /\ length tr = (2 * i + 1)%nat.
Proof.
  intros Hi Hfail Hok.
  eexists. split.
  { unfold introspect, introspect_fuel.
    apply (introspect_loop_first_success post endpoint rc hdrs i v Hi Hok i 0%nat);
      [done|lia|].
    intros j Hj. apply Hfail. lia. }
  split; [done|].
  split; [apply count_posts_attempts|].
  apply attempts_trace_length.
Qed.

(** X16.  When every attempt fails, [introspect] with [maxRetries >= 0]
    makes exactly [maxRetries + 1] POSTs, with [maxRetries] delays of the
    same [retryDelayMs] in between (no back-off), and reports the
    classification of the error of the last attempt. *)
Theorem introspect_exhausts_retries (post : nat -> AxiosOutcome)
    (endpoint : string) (rc : RetryConfig) (hdrs : option (list (string * string)))
    (e : JsError) :
  0 <= maxRetries rc ->
  (forall j, Z.of_nat j <= maxRetries rc ->
     exists e', performIntrospection (post j) = inl e') ->
  performIntrospection (post (Z.to_nat (maxRetries rc))) = inl e ->
  exists tr,
    introspect post endpoint rc hdrs
    = Some ({| success := false; sdl := JUndefined; error := Some (getErrorMessage e) |},
            tr)
    /\ tr = attempts_trace
              (EvPost endpoint QueryUtils.FEDERATION_INTROSPECTION_QUERY
                 10000 (request_headers hdrs))
              (retryDelayMs rc) (S (Z.to_nat (maxRetries rc)))
    /\ Z.of_nat (count_posts tr) = maxRetries rc + 1.
Proof.
  intros Hmax Hfail Hlast.
  eexists. split.
  { unfold introspect, introspect_fuel.
    apply (introspect_loop_all_fail post endpoint rc hdrs e Hmax Hlast
             (Z.to_nat (maxRetries rc)) 0%nat); [done|lia|].
    intros j _ Hj. by apply Hfail. }
  split; [done|].
  rewrite count_posts_attempts. lia.
Qed.

(** X15, at a subgraph that refuses two connections and then answers. *)
Lemma introspect_stops_at_first_success_witness :
  exists tr,
    introspect Examples.post_third_time "http://localhost:4001/graphql"
      DEFAULT_RETRY_CONFIG None
    = Some ({| success := true; sdl := JStr "type Query { test: String }";
               error := None |}, tr)
    /\ count_posts tr = 3%nat.
Proof.
  destruct (introspect_stops_at_first_success Examples.post_third_time
              "http://localhost:4001/graphql" DEFAULT_RETRY_CONFIG None 2%nat
              (JStr "type Query { test: String }"))
    as (tr & Hrun & _ & Hposts & _).
  - simpl. lia.
  - intros j Hj. exists Examples.econnrefused.
    destruct j as [|[|j]]; [reflexivity|reflexivity|lia].
  - reflexivity.
  - exists tr. split; [exact Hrun|exact Hposts].
Defined.

(** X16, at a subgraph that refuses every connection, with the default
    three retries: four POSTs. *)
Lemma introspect_exhausts_retries_witness :
  exists tr,
    introspect Examples.post_refused "http://localhost:4001/graphql"
      DEFAULT_RETRY_CONFIG None
    = Some ({| success := false; sdl := JUndefined;
               error := Some "Connection refused - endpoint may not be running"%string |},
            tr)
    /\ Z.of_nat (count_posts tr) = 4.
Proof.
  destruct (introspect_exhausts_retries Examples.post_refused
              "http://localhost:4001/graphql" DEFAULT_RETRY_CONFIG None
              Examples.econnrefused)
    as (tr & Hrun & _ & Hposts).
  - simpl. lia.
  - intros j _. by exists Examples.econnrefused.
  - reflexivity.
  - exists tr. split; [exact Hrun|exact Hposts].
Defined.

End IntrospectionAttempts.

(** ** The schema cache: what loads, warm-ups and refreshes leave behind *)

Section SchemaCacheFrame.
Import SchemaCache.

Context {Schema : Type}.

(** The source consulted depends on the recorded configurations only. *)
Lemma loadFromSource_configs (src : Sources Schema) name (c1 c2 : Cache Schema) :
  subgraphConfigs c1 = subgraphConfigs c2 ->
  loadFromSource src name c1 = loadFromSource src name c2.
Proof. intros Heq. unfold loadFromSource. by rewrite Heq. Qed.

(** [loadAndCacheSchema], by the outcome of the load. *)
Lemma loadAndCacheSchema_cases (src : Sources Schema) t name (c : Cache Schema) :
  match fst (loadFromSource src name c) with
  | inl err =>
      loadAndCacheSchema src t name c = (inl err, c, snd (loadFromSource src name c))
  | inr (s, text, ver) =>
      loadAndCacheSchema src t name c
      = (inr s,
         {| cache := <[name := {| schema := s; entry_sdl := text; version := ver;
                                  lastFetched := t; expiresAt := t + ttlMs c |}]>
                       (cache c);
            subgraphConfigs := subgraphConfigs c;
            ttlMs := ttlMs c |},
         snd (loadFromSource src name c))
  end.
Proof.
  unfold loadAndCacheSchema.
  by destruct (loadFromSource src name c) as [[err|[[s text] ver]] evs].
Qed.

(** X17.  [getSchema] never touches the recorded configurations, the
    TTL, or the entry of another subgraph; when it fails, the cache is
    exactly as before, no fresh entry was there, and the failure is the
    one of the configured source: an expired entry is neither served nor
    evicted when its reload fails. *)
Theorem getSchema_frame (src : Sources Schema) (now now' : Z) (name : string)
    (c c' : Cache Schema) (r : string + Schema) (evs : list LoadEvent) :
  getSchema src now now' name c = (r, c', evs) ->
  subgraphConfigs c' = subgraphConfigs c
  /\ ttlMs c' = ttlMs c
  /\ (forall n, n <> name -> cache c' !! n = cache c !! n)
  /\ (forall err, r = inl err ->
        c' = c /\ has now name c = false
        /\ fst (loadFromSource src name c) = inl err).
Proof.
  intros Hget.
  assert (Hload : forall (Hmiss : has now name c = false),
    loadAndCacheSchema src now' name c = (r, c', evs) ->
    subgraphConfigs c' = subgraphConfigs c
    /\ ttlMs c' = ttlMs c
    /\ (forall n, n <> name -> cache c' !! n = cache c !! n)
    /\ (forall err, r = inl err ->
          c' = c /\ has now name c = false
          /\ fst (loadFromSource src name c) = inl err)).
  { intros Hmiss Hl.
    pose proof (loadAndCacheSchema_cases src now' name c) as Hc.
    destruct (fst (loadFromSource src name c)) as [err|[[s text] ver]] eqn:Hsrc.
    - rewrite Hc in Hl. injection Hl as <- <- <-.
      split; [done|]. split; [done|]. split; [done|].
      intros err' [= <-]. done.
    - rewrite Hc in Hl. injection Hl as <- <- <-. simpl.
      split; [done|]. split; [done|].
      split; [intros n Hne; by rewrite lookup_insert_ne|done]. }
  unfold getSchema in Hget. unfold has in *.
  destruct (cache c !! name) as [e|] eqn:He; [|by apply Hload].
  destruct (now <? expiresAt e) eqn:Hfresh; [|by apply Hload].
  injection Hget as <- <- <-. repeat split; done.
Qed.

(** The loop of [warmCache] over distinct names. *)
Lemma warmCache_fold (src : string -> Sources Schema) (now : string -> Z)
    (names : list string) : forall (c : Cache Schema) evs0,
  NoDup names ->
  let res := fold_left
               (fun acc name =>
                  let '(_, c', evs) :=
                    loadAndCacheSchema (src name) (now name) name (fst acc) in
                  (c', snd acc ++ evs))
               names (c, evs0) in
  subgraphConfigs (fst res) = subgraphConfigs c
  /\ ttlMs (fst res) = ttlMs c
  /\ (forall n, n ∉ names -> cache (fst res) !! n = cache c !! n)
  /\ (forall n, n ∈ names ->
        cache (fst res) !! n
        = match fst (loadFromSource (src n) n c) with
          | inr (s, text, ver) =>
              Some {| schema := s; entry_sdl := text; version := ver;
                      lastFetched := now n; expiresAt := now n + ttlMs c |}
          | inl _ => cache c !! n
          end).
Proof.
  induction names as [|a names IH]; intros c evs0 Hnd; simpl.
  { repeat split; try done. by intros n ?%elem_of_nil. }
  apply NoDup_cons in Hnd as [Ha Hnd].
  pose proof (loadAndCacheSchema_cases (src a) (now a) a c) as Hc.
  destruct (loadAndCacheSchema (src a) (now a) a c) as [[r c1] evs1] eqn:Hl.
  simpl.
  assert (Hc1 : subgraphConfigs c1 = subgraphConfigs c /\ ttlMs c1 = ttlMs c
          /\ (forall n, n <> a -> cache c1 !! n = cache c !! n)
          /\ cache c1 !! a
             = match fst (loadFromSource (src a) a c) with
               | inr (s, text, ver) =>
                   Some {| schema := s; entry_sdl := text; version := ver;
                           lastFetched := now a; expiresAt := now a + ttlMs c |}
               | inl _ => cache c !! a
               end).
  { destruct (fst (loadFromSource (src a) a c)) as [err|[[s text] ver]];
      injection Hc as -> -> ->; simpl.
    - done.
    - split; [done|]. split; [done|].
      split; [intros n Hne; by rewrite lookup_insert_ne|].
      by rewrite lookup_insert_eq. }
  destruct Hc1 as (Hcfg1 & Httl1 & Hother1 & Ha1).
  destruct (IH c1 (evs0 ++ evs1) Hnd) as (Hcfg & Httl & Hout & Hin).
  split; [congruence|]. split; [congruence|].
  split.
  - intros n Hn. apply not_elem_of_cons in Hn as [Hne Hn].
    rewrite Hout by done. by apply Hother1.
  - intros n [->|Hn]%elem_of_cons.
    + rewrite Hout by done. done.
    + rewrite (Hin n Hn).
      assert (n <> a) by (intros ->; done).
      rewrite (loadFromSource_configs (src n) n c1 c Hcfg1), Httl1.
      destruct (fst (loadFromSource (src n) n c)) as [err|[[s text] ver]]; [|done].
      by apply Hother1.
Qed.

(** X18.  [warmCache] over distinct names: each name whose load succeeds
    gets a fresh entry (stamped with the time its own load finished, and
    expiring one TTL later); a name whose load fails keeps what it had,
    and does not affect the others; names outside the list, the recorded
    configurations and the TTL are untouched. *)
Theorem warmCache_spec (src : string -> Sources Schema) (now : string -> Z)
    (names : list string) (c : Cache Schema) :
  NoDup names ->
  subgraphConfigs (fst (warmCache src now names c)) = subgraphConfigs c
  /\ ttlMs (fst (warmCache src now names c)) = ttlMs c
  /\ (forall n, n ∉ names ->
        cache (fst (warmCache src now names c)) !! n = cache c !! n)
  /\ (forall n, n ∈ names ->
        cache (fst (warmCache src now names c)) !! n
        = match fst (loadFromSource (src n) n c) with
          | inr (s, text, ver) =>
              Some {| schema := s; entry_sdl := text; version := ver;
                      lastFetched := now n; expiresAt := now n + ttlMs c |}
          | inl _ => cache c !! n
          end).
Proof. intros Hnd. by apply warmCache_fold. Qed.

(** X19.  [refreshAllSchemas] reloads every cached name and no other: the
    set of cached names is the same afterwards; an entry whose reload
    succeeds is replaced by a fresh one, an entry whose reload fails stays
    as it was, stale; the recorded configurations are untouched. *)
Theorem refreshAllSchemas_spec (src : string -> Sources Schema) (now : string -> Z)
    (c : Cache Schema) :
  subgraphConfigs (fst (refreshAllSchemas src now c)) = subgraphConfigs c
  /\ (forall n, is_Some (cache (fst (refreshAllSchemas src now c)) !! n)
                <-> is_Some (cache c !! n))
  /\ (forall n e, cache c !! n = Some e ->
        cache (fst (refreshAllSchemas src now c)) !! n
        = match fst (loadFromSource (src n) n c) with
          | inr (s, text, ver) =>
              Some {| schema := s; entry_sdl := text; version := ver;
                      lastFetched := now n; expiresAt := now n + ttlMs c |}
          | inl _ => Some e
          end).
Proof.
  unfold refreshAllSchemas.
  set (names := List.map fst (map_to_list (cache c))).
  assert (Hnd : NoDup names) by apply NoDup_fst_map_to_list.
  assert (Hkeys : forall n, n ∈ names <-> is_Some (cache c !! n)).
  { intros n. unfold names. split.
    - intros Hin. apply list_elem_of_In, in_map_iff in Hin as ([k e] & <- & Hin).
      apply list_elem_of_In, elem_of_map_to_list in Hin. by exists e.
    - intros [e He]. apply list_elem_of_In, in_map_iff. exists (n, e).
      split; [done|]. by apply list_elem_of_In, elem_of_map_to_list. }
  destruct (warmCache_fold src now names c [] Hnd) as (Hcfg & _ & Hout & Hin).
  fold (warmCache src now names c) in Hcfg, Hout, Hin.
  split; [done|]. split.
  - intros n. destruct (decide (n ∈ names)) as [Hn|Hn].
    + rewrite (Hin n Hn). pose proof (proj1 (Hkeys n) Hn) as Hsome.
      destruct (fst (loadFromSource (src n) n c)) as [err|[[s text] ver]]; [done|].
      split; [done|]. intros _. by eexists.
    + by rewrite (Hout n Hn).
  - intros n e He.
    assert (Hn : n ∈ names) by (apply Hkeys; by exists e).
    rewrite (Hin n Hn).
    by destruct (fst (loadFromSource (src n) n c)) as [err|[[s text] ver]].
Qed.

(** A load that succeeds hands over the schema built from the SDL it
    hands over. *)
Lemma loadFromSource_built (src : Sources Schema) name (c : Cache Schema) s text ver :
  fst (loadFromSource src name c) = inr (s, text, ver) ->
  buildSchema src text = Some s.
Proof.
  assert (Hfile : forall f, loadFromFile src f = inr (s, text, ver) ->
                            buildSchema src text = Some s).
  { intros f. unfold loadFromFile.
    destruct (readFile src f) as [t|]; [|done].
    destruct (buildSchema src t) as [s0|] eqn:Hb; [|done]. by intros [= <- <- <-]. }
  assert (Hapollo : loadFromApollo src name = inr (s, text, ver) ->
                    buildSchema src text = Some s).
  { unfold loadFromApollo.
    destruct (fetchSubgraphSchema src name) as [[t v]|]; [|done].
    destruct (buildSchema src t) as [s0|] eqn:Hb; [|done]. by intros [= <- <- <-]. }
  unfold loadFromSource.
  destruct (subgraphConfigs c !! name) as [[cfg url]|]; [|by apply Hapollo].
  destruct (JS.nonempty (Config.schemaFile cfg)) as [f|]; [by apply Hfile|].
  destruct (Config.useLocalSchema cfg); [|by apply Hapollo].
  destruct (JS.nonempty url) as [u|]; [|done].
  unfold loadFromIntrospection.
  destruct (IntrospectionService.introspect _ _ _ _) as [[result tr]|]; [|done].
  destruct (negb _ || negb _); [done|].
  destruct (IntrospectionService.sdl result) as [| | | |t| |]; try done.
  destruct (buildSchema src t) as [s0|] eqn:Hb; [|done]. simpl.
  by intros [= <- <- <-].
Qed.

(** X30.  In every cache reached from a new one by configuration
    updates, lookups, warm-ups and refreshes, the TTL is the one the cache
    was built with, and every entry is coherent: its schema is the one
    built from its SDL, and it expires exactly one TTL after it was
    fetched, so that [has] is true for it exactly until then. *)
Theorem cache_entries_coherent (src : Sources Schema) (ttl : Z) (c : Cache Schema) :
  cache_reachable src ttl c ->
  ttlMs c = ttl
  /\ forall name e, cache c !! name = Some e ->
       buildSchema src (entry_sdl e) = Some (schema e)
       /\ expiresAt e = lastFetched e + ttl
       /\ forall now, has now name c = true <-> now < lastFetched e + ttl.
Proof.
  intros Hreach.
  assert (Hinv : ttlMs c = ttl
    /\ forall name e, cache c !! name = Some e ->
         buildSchema src (entry_sdl e) = Some (schema e)
         /\ expiresAt e = lastFetched e + ttl).
  { induction Hreach as [|c op Hreach [IHttl IH]]; [by split|].
    assert (Hload : forall t name,
      ttlMs (snd (fst (loadAndCacheSchema src t name c))) = ttl
      /\ forall n e,
           cache (snd (fst (loadAndCacheSchema src t name c))) !! n = Some e ->
           buildSchema src (entry_sdl e) = Some (schema e)
           /\ expiresAt e = lastFetched e + ttl).
    { intros t name.
      pose proof (loadAndCacheSchema_cases src t name c) as Hc.
      destruct (fst (loadFromSource src name c)) as [err|[[s text] ver]] eqn:Hsrc;
        rewrite Hc; simpl; [done|].
      split; [done|]. intros n e.
      destruct (decide (n = name)) as [->|Hne].
      - rewrite lookup_insert_eq. intros [= <-]. simpl.
        split; [by eapply loadFromSource_built|by rewrite IHttl].
      - rewrite lookup_insert_ne by done. apply IH. }
    assert (Hwarm : forall now names (c0 : Cache Schema) evs0,
      ttlMs c0 = ttl ->
      (forall n e, cache c0 !! n = Some e ->
         buildSchema src (entry_sdl e) = Some (schema e)
         /\ expiresAt e = lastFetched e + ttl) ->
      ttlMs (fst (fold_left
                    (fun acc name =>
                       let '(_, c', evs) :=
                         loadAndCacheSchema src (now name) name (fst acc) in
                       (c', snd acc ++ evs))
                    names (c0, evs0))) = ttl
      /\ forall n e,
           cache (fst (fold_left
                         (fun acc name =>
                            let '(_, c', evs) :=
                              loadAndCacheSchema src (now name) name (fst acc) in
                            (c', snd acc ++ evs))
                         names (c0, evs0))) !! n = Some e ->
           buildSchema src (entry_sdl e) = Some (schema e)
           /\ expiresAt e = lastFetched e + ttl).
    { clear. intros now names.
      induction names as [|a names IHn]; intros c0 evs0 Httl Hc0; [done|].
      simpl.
      pose proof (loadAndCacheSchema_cases src (now a) a c0) as Hc.
      destruct (loadAndCacheSchema src (now a) a c0) as [[r c1] evs1]. simpl.
      apply IHn.
      - destruct (fst (loadFromSource src a c0)) as [err|[[s text] ver]];
          by injection Hc as -> -> ->.
      - destruct (fst (loadFromSource src a c0)) as [err|[[s text] ver]] eqn:Hsrc;
          injection Hc as -> -> ->; [done|].
        simpl. intros n e.
        destruct (decide (n = a)) as [->|Hne].
        + rewrite lookup_insert_eq. intros [= <-]. simpl.
          split; [by eapply loadFromSource_built|by rewrite Httl].
        + rewrite lookup_insert_ne by done. apply Hc0. }
    destruct op as [name url cfg | now now' name | now names | now]; simpl.
    - done.
    - unfold getSchema.
      destruct (cache c !! name) as [e|]; [|apply Hload].
      destruct (now <? expiresAt e); [done|apply Hload].
    - by apply Hwarm.
    - by apply Hwarm. }
  destruct Hinv as [Httl Hent]. split; [done|].
  intros name e He. destruct (Hent name e He) as [Hb Hexp].
  split; [done|]. split; [done|].
  intros now. unfold has. rewrite He, Hexp. apply Z.ltb_lt.
Qed.

End SchemaCacheFrame.

Section SchemaCacheFrameWitnesses.
Import SchemaCache.

(** X17, at an empty cache whose sources cannot be reached: the failed
    lookup leaves the cache as it was. *)
Lemma getSchema_frame_witness :
  snd (fst (getSchema Examples.offline_sources 2000 2001 "products"
              Examples.empty_cache))
  = Examples.empty_cache.
Proof.
  destruct (getSchema Examples.offline_sources 2000 2001 "products"
              Examples.empty_cache) as [[r c'] evs] eqn:Hget.
  destruct (getSchema_frame _ _ _ _ _ _ _ _ Hget) as (_ & _ & _ & Herr).
  assert (Hr : r = inl "cannot fetch schema"%string).
  { vm_compute in Hget. congruence. }
  exact (proj1 (Herr _ Hr)).
Defined.

(** X18, at two names served by the registry, warmed at times 10 and 20. *)
Lemma warmCache_spec_witness :
  cache (fst (warmCache (fun _ => Examples.example_sources)
                (fun n => if String.eqb n "products" then 10 else 20)
                ["products"; "reviews"]%string Examples.empty_cache)) !! "reviews"
  = Some {| schema := Examples.products_sdl; entry_sdl := Examples.products_sdl;
            version := "v1"; lastFetched := 20; expiresAt := 300020 |}.
Proof.
  destruct (warmCache_spec (fun _ => Examples.example_sources)
              (fun n => if String.eqb n "products" then 10 else 20)
              ["products"; "reviews"]%string Examples.empty_cache)
    as (_ & _ & _ & Hin).
  - apply (bool_decide_unpack _). vm_compute. exact I.
  - rewrite (Hin "reviews"); [reflexivity|].
    apply (bool_decide_unpack _). vm_compute. exact I.
Defined.

(** X30, at the cache that loaded [products] at time 1000. *)
Lemma cache_entries_coherent_witness :
  has 300999 "products" Examples.cache_products = true.
Proof.
  assert (Hreach : cache_reachable Examples.example_sources 300000
                     Examples.cache_products).
  { exact (cache_reachable_step Examples.example_sources 300000 _
             (CacheGetSchema 0 1000 "products")
             (cache_reachable_new Examples.example_sources 300000)). }
  destruct (cache_entries_coherent _ _ _ Hreach) as [_ Hent].
  destruct (Hent "products"%string
              {| schema := Examples.products_sdl; entry_sdl := Examples.products_sdl;
                 version := "v1"; lastFetched := 1000; expiresAt := 301000 |}
              ltac:(vm_compute; reflexivity)) as (_ & _ & Hhas).
  apply Hhas. simpl. lia.
Defined.

End SchemaCacheFrameWitnesses.

(** ** The passthrough handler: what is forwarded and what is answered *)

Section PassThroughFacts.
Import Json.
Import Axios.
Import PassThroughHandler.

Context {Schema : Type}.

Lemma obj_set_In_weak {A : Type} (k : string) (v : A) (o : list (string * A)) k' v' :
  In (k', v') (JS.obj_set k v o) -> (k' = k /\ v' = v) \/ In (k', v') o.
Proof.
  induction o as [|[k0 v0] o IH]; simpl.
  - intros [[= <- <-]|[]]. by left.
  - destruct (String.eqb k0 k).
    + intros [[= <- <-]|Hin]; [by left|by right; right].
    + intros [[= <- <-]|Hin]; [by right; left|].
      destruct (IH Hin) as [?|?]; [by left|by right; right].
Qed.

Lemma obj_spread_In {A : Type} (b : list (string * A)) : forall a k v,
  In (k, v) (JS.obj_spread a b) -> In (k, v) a \/ In (k, v) b.
Proof.
  unfold JS.obj_spread.
  induction b as [|[k0 v0] b IH]; intros a k v; simpl; [by left|].
  intros Hin. destruct (IH _ _ _ Hin) as [Ha|Hb]; [|by right; right].
  apply obj_set_In_weak in Ha as [[-> ->]|Ha]; [by right; left|by left].
Qed.

Lemma obj_spread_keeps_key {A : Type} (b : list (string * A)) : forall a k,
  is_Some (JS.obj_get k a) -> is_Some (JS.obj_get k (JS.obj_spread a b)).
Proof.
  unfold JS.obj_spread.
  induction b as [|[k0 v0] b IH]; intros a k Hk; simpl; [done|].
  apply IH. rewrite obj_get_set. by destruct (String.eqb k0 k).
Qed.

(** Whatever [sanitizeHeaders] keeps was sent, under that name and with
    that value, and its name is in neither set. *)
Lemma sanitize_In (hs : Headers) : forall acc k v,
  In (k, v) (fold_left sanitize_step hs acc) ->
  In (k, v) acc
  \/ (In (k, Some v) hs
      /\ set_has hopByHopHeaders (QueryUtils.toLowerCase k) = false
      /\ set_has nonProxyableHeaders (QueryUtils.toLowerCase k) = false).
Proof.
  induction hs as [|[k0 ov] hs IH]; intros acc k v; [by left|].
  cbn [fold_left]. intros Hin.
  destruct (IH _ _ _ Hin) as [Hacc|(? & ? & ?)]; [|right; split; [by right|done]].
  unfold sanitize_step in Hacc.
  destruct ov as [v0|]; [|by left].
  destruct (set_has hopByHopHeaders (QueryUtils.toLowerCase k0)) eqn:Hhop;
    [by left|].
  destruct (set_has nonProxyableHeaders (QueryUtils.toLowerCase k0)) eqn:Hnon;
    [by left|].
  destruct (String.eqb k0 "__proto__"); [by left|].
  apply obj_set_In_weak in Hacc as [[-> ->]|Hacc]; [|by left].
  right. split; [by left|done].
Qed.

(** X20.  The request the passthrough handler forwards: it goes to the
    target URL with the body as received and, when no timeout is given,
    a timeout of 30,000 ms; none of its headers is a hop-by-hop or
    non-proxyable header, in any letter case; it always carries a
    [content-type]; and every header it carries is the default
    [content-type: application/json] or a header the client sent, with
    the value the client sent. *)
Theorem forwarded_request_spec (req : Request) (targetUrl : string)
    (timeout : option Z) :
  up_url (forwarded_request req targetUrl timeout) = targetUrl
  /\ up_body (forwarded_request req targetUrl timeout) = req_body req
  /\ up_timeout (forwarded_request req targetUrl None) = 30000
  /\ (forall k v, In (k, v) (up_headers (forwarded_request req targetUrl timeout)) ->
        set_has hopByHopHeaders (QueryUtils.toLowerCase k) = false
        /\ set_has nonProxyableHeaders (QueryUtils.toLowerCase k) = false)
  /\ is_Some (JS.obj_get "content-type"
                (up_headers (forwarded_request req targetUrl timeout)))
  /\ (forall k v, In (k, v) (up_headers (forwarded_request req targetUrl timeout)) ->
        (k = "content-type"%string /\ v = Single "application/json")
        \/ In (k, Some v) (req_headers req)).
Proof.
  split; [done|]. split; [done|]. split; [done|].
  assert (Hsrc : forall k v,
    In (k, v) (up_headers (forwarded_request req targetUrl timeout)) ->
    (k = "content-type"%string /\ v = Single "application/json")
    \/ (In (k, Some v) (req_headers req)
        /\ set_has hopByHopHeaders (QueryUtils.toLowerCase k) = false
        /\ set_has nonProxyableHeaders (QueryUtils.toLowerCase k) = false)).
  { intros k v Hin. simpl in Hin.
    apply obj_spread_In in Hin as [[[= <- <-]|[]]|Hin]; [by left|].
    unfold sanitizeHeaders in Hin.
    apply sanitize_In in Hin as [[]|?]. by right. }
  split.
  { intros k v Hin. destruct (Hsrc k v Hin) as [[-> ->]|(_ & ? & ?)]; done. }
  split.
  { simpl. apply obj_spread_keeps_key. by eexists. }
  intros k v Hin. destruct (Hsrc k v Hin) as [?|(? & _)]; [by left|by right].
Qed.

(** The headers after a run of [setHeader] calls. *)
Lemma getHeader_fold k (hs : list (string * HeaderValue)) res :
  getHeader k (fold_left (fun r kv => setHeader (fst kv) (snd kv) r) hs res)
  = match last_header k hs with
    | Some v => Some v
    | None => getHeader k res
    end.
Proof.
  induction hs as [|x hs IH] using rev_ind; [done|].
  unfold last_header. rewrite !fold_left_app. simpl.
  rewrite getHeader_setHeader.
  destruct (String.eqb _ _); [done|]. apply IH.
Qed.

(** X21.  A response of the upstream, whatever its status code, is
    relayed: status and body are the upstream's and the handler is left as
    it is; the answer is marked [X-Proxy-Mode: passthrough] with the
    target in [X-Proxy-Target], whatever headers the upstream sent under
    these names; every other header of the upstream is relayed as it
    came, hop-by-hop headers included (response headers are not
    sanitized), the last one winning when a name occurs twice. *)
Theorem upstream_response_relayed (h : Handler Schema)
    (upstream : UpstreamRequest -> UpstreamOutcome) (req : Request) (res : Response)
    (targetUrl : string) (timeout : option Z) (subgraphName : option string)
    (st : Z) (hs : list (string * HeaderValue)) (data : json) :
  upstream (forwarded_request req targetUrl timeout) = UpstreamResponse st hs data ->
  exists res',
    handleRequest h upstream req res targetUrl timeout subgraphName = Some (res', h)
    /\ res_status res' = Some st
    /\ res_body res' = Some data
    /\ getHeader "X-Proxy-Mode" res' = Some (Single "passthrough")
    /\ getHeader "X-Proxy-Target" res' = Some (Single targetUrl)
    /\ forall k,
         QueryUtils.toLowerCase k <> "x-proxy-mode"%string ->
         QueryUtils.toLowerCase k <> "x-proxy-target"%string ->
         getHeader k res'
         = match last_header k hs with
           | Some v => Some v
           | None => getHeader k res
           end.
Proof.
  intros Hup. unfold handleRequest. rewrite Hup.
  eexists. split; [reflexivity|]. split; [done|]. split; [done|].
  rewrite !getHeader_send_json, !getHeader_setHeader.
  split; [reflexivity|]. split; [reflexivity|].
  intros k Hmode Htarget.
  rewrite getHeader_send_json, !getHeader_setHeader.
  change (QueryUtils.toLowerCase "X-Proxy-Target") with "x-proxy-target"%string.
  change (QueryUtils.toLowerCase "X-Proxy-Mode") with "x-proxy-mode"%string.
  destruct (String.eqb "x-proxy-target" (QueryUtils.toLowerCase k)) eqn:H1.
  { apply String.eqb_eq in H1. congruence. }
  destruct (String.eqb "x-proxy-mode" (QueryUtils.toLowerCase k)) eqn:H2.
  { apply String.eqb_eq in H2. congruence. }
  apply getHeader_fold.
Qed.

Lemma normal_error_status (e : JsError) targetUrl res :
  exists code,
    res_status (normal_error_response e targetUrl res) = Some code
    /\ (code = 500 \/ code = 502 \/ code = 503 \/ code = 504).
Proof.
  unfold normal_error_response.
  destruct (err_isAxios e); [|exists 500; auto].
  destruct (code_is e "ECONNABORTED"); [exists 504; auto|].
  destruct (code_is e "ECONNREFUSED" || code_is e "ENOTFOUND"); [exists 503; auto|].
  destruct (err_response e); [exists 500|exists 502]; auto.
Qed.

Lemma getSchema_inl_cache (src : SchemaCache.Sources Schema) now now' name
    (c c' : SchemaCache.Cache Schema) err evs :
  SchemaCache.getSchema src now now' name c = (inl err, c', evs) -> c' = c.
Proof.
  unfold SchemaCache.getSchema, SchemaCache.loadAndCacheSchema.
  destruct (SchemaCache.cache c !! name) as [e|].
  - destruct (now <? SchemaCache.expiresAt e); [done|].
    destruct (SchemaCache.loadFromSource src name c) as [[?|[[? ?] ?]] ?];
      by intros [= <- <- <-].
  - destruct (SchemaCache.loadFromSource src name c) as [[?|[[? ?] ?]] ?];
      by intros [= <- <- <-].
Qed.

(** X22.  When forwarding fails and the handler answers, the answer is
    either the cached SDL with status 200, and then the error was of the
    connection class, the body was the federation introspection query, and
    a subgraph name and a cache were at hand; or it is the error response
    for that error, with status 500, 502, 503 or 504 and no cached
    schema changed. *)
Theorem upstream_error_answer (h h' : Handler Schema)
    (upstream : UpstreamRequest -> UpstreamOutcome) (req : Request)
    (res res' : Response) (targetUrl : string) (timeout : option Z)
    (subgraphName : option string) (e : JsError) :
  upstream (forwarded_request req targetUrl timeout) = UpstreamError e ->
  handleRequest h upstream req res targetUrl timeout subgraphName = Some (res', h') ->
  (res_status res' = Some 200
   /\ getHeader "X-Cache-Fallback" res' = Some (Single "true")
   /\ isConnectionError e = true
   /\ body_is_introspection (req_body req) = Some true
   /\ JS.truthy subgraphName = true
   /\ is_Some (schemaCache h))
  \/ (res' = normal_error_response e targetUrl res
      /\ schemaCache h' = schemaCache h
      /\ exists code, res_status res' = Some code
           /\ (code = 500 \/ code = 502 \/ code = 503 \/ code = 504)).
Proof.
  intros Hup. unfold handleRequest. rewrite Hup. unfold handleError.
  assert (Hnormal :
    Some (normal_error_response e targetUrl res, h) = Some (res', h') ->
    res' = normal_error_response e targetUrl res
    /\ schemaCache h' = schemaCache h
    /\ exists code, res_status res' = Some code
         /\ (code = 500 \/ code = 502 \/ code = 503 \/ code = 504)).
  { intros [= <- <-]. split; [done|]. split; [done|]. apply normal_error_status. }
  unfold JS.nonempty.
  destruct (JS.truthy subgraphName) eqn:Hname; [|right; by apply Hnormal].
  destruct subgraphName as [name|]; [|done].
  destruct (schemaCache h) as [c|] eqn:Hcache; [|right; by apply Hnormal].
  destruct (body_is_introspection (req_body req)) as [[|]|] eqn:Hbody;
    [|right; by apply Hnormal|done].
  destruct (isConnectionError e) eqn:Hconn; [|right; by apply Hnormal].
  unfold returnCachedSdl. rewrite Hcache.
  destruct (SchemaCache.getSchema _ _ _ name c) as [[[err|s] c'] evs] eqn:Hget.
  - intros [= <- <-]. right. split; [done|].
    apply getSchema_inl_cache in Hget as ->. simpl.
    split; [done|]. apply normal_error_status.
  - intros [= <- <-]. left. split; [done|].
    rewrite getHeader_send_json, !getHeader_setHeader.
    split; [reflexivity|]. split; [done|]. split; [done|]. split; [done|].
    by eexists.
Qed.

End PassThroughFacts.

Section PassThroughWitnesses.
Import Json.
Import Axios.
Import PassThroughHandler.

(** X21, at an upstream that answers 404 with its own marker header. *)
Lemma upstream_response_relayed_witness :
  exists res',
    handleRequest Examples.handler_products
      (fun _ => UpstreamResponse 404 [("x-proxy-mode"%string, Single "spoofed")]
                  (JObj []))
      Examples.introspection_request fresh_response Examples.products_url None None
    = Some (res', Examples.handler_products)
    /\ res_status res' = Some 404
    /\ getHeader "X-Proxy-Mode" res' = Some (Single "passthrough").
Proof.
  destruct (upstream_response_relayed Examples.handler_products
              (fun _ => UpstreamResponse 404 [("x-proxy-mode"%string, Single "spoofed")]
                          (JObj []))
              Examples.introspection_request fresh_response Examples.products_url
              None None 404 [("x-proxy-mode"%string, Single "spoofed")] (JObj [])
              eq_refl)
    as (res' & Hrun & Hst & _ & Hmode & _ & _).
  exists res'. split; [exact Hrun|]. split; [exact Hst|exact Hmode].
Defined.

(** X22, at a refused connection and a request that is not an
    introspection query: 503. *)
Lemma upstream_error_answer_witness :
  exists res' h',
    handleRequest Examples.handler_products Examples.upstream_refused
      {| req_headers := []; req_body := Examples.typename_body |}
      fresh_response Examples.products_url None (Some "products"%string)
    = Some (res', h')
    /\ res_status res' = Some 503.
Proof.
  destruct (handleRequest Examples.handler_products Examples.upstream_refused
              {| req_headers := []; req_body := Examples.typename_body |}
              fresh_response Examples.products_url None (Some "products"%string))
    as [[res' h']|] eqn:Hrun; [|vm_compute in Hrun; discriminate Hrun].
  exists res', h'. split; [reflexivity|].
  destruct (upstream_error_answer _ _ _ _ _ _ _ _ _ Examples.econnrefused
              eq_refl Hrun)
    as [(_ & _ & _ & Hbody & _)|(-> & _)].
  - vm_compute in Hbody. discriminate Hbody.
  - reflexivity.
Defined.

End PassThroughWitnesses.

(** ** URL validation and the arguments of the route *)

Section RouteFacts.
Import PassThroughHandler.
Import Server.

Lemma digits_label (p : list ascii) :
  (1 <=? length p)%nat = true -> forallb is_digit p = true -> label_ok p = true.
Proof.
  intros Hlen Hdig.
  assert (Hin : forall c, In c p -> is_digit c = true)
    by (by apply forallb_forall).
  assert (Halnum : forall c, In c p -> is_alnum c = true).
  { intros c Hc. unfold is_alnum. by rewrite (Hin c Hc). }
  unfold label_ok.
  destruct p as [|first rest]; [done|].
  destruct (rev (first :: rest)) as [|last l'] eqn:Hrev.
  { apply (f_equal (@length ascii)) in Hrev. rewrite length_rev in Hrev. done. }
  assert (Hlast : In last (first :: rest)).
  { apply in_rev. rewrite Hrev. by left. }
  rewrite (Halnum first (or_introl eq_refl)), (Halnum last Hlast), !andb_true_l.
  apply forallb_forall. intros c Hc. by rewrite (Halnum c Hc).
Qed.

(** A dotted quad of digits is a host name of the general pattern. *)
Lemma ipv4_hostname_pattern h :
  ipv4_ok h = true -> hostname_pattern_ok h = true.
Proof.
  unfold ipv4_ok, hostname_pattern_ok.
  intros [_ Hparts]%andb_true_iff.
  apply forallb_forall. intros p Hp.
  pose proof (proj1 (forallb_forall _ _) Hparts p Hp) as Hp'. simpl in Hp'.
  apply andb_true_iff in Hp' as [[Hlen _]%andb_true_iff Hdig].
  by apply digits_label.
Qed.

(** X23.  [validateUrl] accepts a URL exactly when it starts with
    [http://] or [https://] (in any letter case), the platform parses it,
    and its host name is a sequence of dot-separated labels of letters,
    digits and inner hyphens.  The two special cases of the source,
    [localhost] and dotted quads of digits, are instances of that pattern,
    and an empty host name is not. *)
Theorem validateUrl_hostname_pattern (pf : Platform) (url : string) :
  validateUrl pf url = true <->
  protocol_ok url = true
  /\ exists h, url_hostname pf url = Some h /\ hostname_pattern_ok h = true.
Proof.
  unfold validateUrl.
  destruct (protocol_ok url); simpl; [|split; [done|by intros [? _]]].
  destruct (url_hostname pf url) as [h|]; [|split; [done|by intros (_ & h & ? & _)]].
  destruct (String.eqb h "") eqn:Hempty; simpl.
  { apply String.eqb_eq in Hempty as ->.
    split; [done|]. intros (_ & h & [= <-] & Hp). done. }
  destruct (String.eqb h "localhost") eqn:Hlocal; simpl.
  { apply String.eqb_eq in Hlocal as ->.
    split; [|done]. intros _. split; [done|]. by exists "localhost"%string. }
  destruct (ipv4_ok h) eqn:Hip; simpl.
  { split; [|done]. intros _. split; [done|]. exists h.
    split; [done|]. by apply ipv4_hostname_pattern. }
  destruct (hostname_pattern_ok h) eqn:Hpat; simpl.
  - split; [|done]. intros _. split; [done|]. by exists h.
  - split; [done|]. intros (_ & h' & [= <-] & Hp). congruence.
Qed.

(** With a name given, the URL argument plays no part in the decision. *)
Lemma shouldPassthrough_by_name enabled http r name url1 url2 :
  JS.truthy (Some name) = true ->
  SubgraphRegistry.shouldPassthroughToSubgraph enabled http r (Some name) url1
  = SubgraphRegistry.shouldPassthroughToSubgraph enabled http r (Some name) url2.
Proof.
  intros Hname.
  unfold SubgraphRegistry.shouldPassthroughToSubgraph,
    SubgraphRegistry.resolve_subgraph, JS.nonempty.
  by rewrite Hname.
Qed.

(** X24.  What the proxy route hands to the passthrough handler: the
    target is the URL decoded from the path, whatever URL the registry
    holds for the subgraph; no timeout and no subgraph name are passed;
    and the choice of passthrough was made from the [x-subgraph-name]
    header alone, the decoded URL playing no part in it. *)
Theorem route_passthrough_arguments (pf : Platform) (enabled : bool)
    (http : SubgraphHealthMonitor.HttpClient) (r : SubgraphRegistry.Registry)
    (req : ProxyRequest) (t : option string) (timeout : option Z)
    (sn : option string) :
  proxy_route pf enabled http r req = ToPassThrough t timeout sn ->
  timeout = None /\ sn = None
  /\ exists enc target name,
       encodedUrl req = Some enc
       /\ decodeURIComponent pf enc = Some target
       /\ t = Some target
       /\ header req "x-subgraph-name" = Some (Single name)
       /\ forall url,
            fst (SubgraphRegistry.shouldPassthroughToSubgraph enabled http r
                   (Some name) url) = true.
Proof.
  unfold proxy_route.
  destruct (urlDecoderMiddleware pf req) as [req'|e] eqn:Hmw; [|done].
  unfold route_body.
  destruct (fst (SubgraphRegistry.shouldPassthroughToSubgraph enabled http r
                   (subgraphName req') (targetUrl req'))) eqn:Hpass.
  2: { by destruct (JS.nonempty (subgraphName req')). }
  intros [= <- <- <-]. split; [done|]. split; [done|].
  unfold urlDecoderMiddleware in Hmw.
  destruct (JS.nonempty (encodedUrl req)) as [enc|] eqn:Henc; [|done].
  destruct (decodeURIComponent pf enc) as [target|] eqn:Hdec; [|done].
  destruct (validateUrl pf target); simpl in Hmw; [|done].
  destruct (extractSubgraphName req) as [e|name] eqn:Hname; [done|].
  injection Hmw as <-. simpl in *.
  apply extractSubgraphName_inr in Hname as [Hheader Htruthy].
  exists enc, target, name.
  split.
  { unfold JS.nonempty in Henc. by destruct (JS.truthy (encodedUrl req)). }
  split; [done|]. split; [done|]. split; [done|].
  intros url.
  by rewrite (shouldPassthrough_by_name enabled http r name url (Some target)).
Qed.

(** X24, at the request for [products] while it is healthy: the decision
    is the same for any other URL. *)
Lemma route_passthrough_arguments_witness :
  fst (SubgraphRegistry.shouldPassthroughToSubgraph true Examples.http_up
         Examples.registry_products_healthy (Some "products"%string)
         (Some "http://elsewhere:9999/graphql"%string)) = true.
Proof.
  destruct (route_passthrough_arguments Examples.example_platform true
              Examples.http_up Examples.registry_products_healthy
              Examples.request_products (Some Examples.products_url) None None
              ltac:(vm_compute; reflexivity))
    as (_ & _ & enc & target & name & _ & _ & _ & Hheader & Hpass).
  assert (Hname : name = "products"%string).
  { vm_compute in Hheader. congruence. }
  rewrite Hname in Hpass. apply Hpass.
Defined.

End RouteFacts.

Section RouteFallback.
Import Json.
Import Axios.
Import PassThroughHandler.
Import Server.

Context {Schema : Type}.

(** X25.  A request the proxy route sends to the passthrough handler is
    never answered from the schema cache: the route passes no subgraph
    name, so when forwarding fails, whatever the error and the body, the
    answer is the error response for that error and the handler is left
    as it is. *)
Theorem route_passthrough_never_falls_back (pf : Platform) (enabled : bool)
    (http : SubgraphHealthMonitor.HttpClient) (r : SubgraphRegistry.Registry)
    (req : ProxyRequest) (target : string) (timeout : option Z)
    (sn : option string) (h : Handler Schema)
    (upstream : UpstreamRequest -> UpstreamOutcome) (res : Response) (e : JsError) :
  proxy_route pf enabled http r req = ToPassThrough (Some target) timeout sn ->
  upstream (forwarded_request
              {| req_headers := headers req; req_body := body req |}
              target timeout) = UpstreamError e ->
  handleRequest h upstream {| req_headers := headers req; req_body := body req |}
    res target timeout sn
  = Some (normal_error_response e target res, h).
Proof.
  intros Hroute Hup.
  assert (Hsn : sn = None).
  { unfold proxy_route in Hroute.
    destruct (urlDecoderMiddleware pf req) as [req'|?]; [|done].
    unfold route_body in Hroute.
    destruct (fst _); [by injection Hroute|].
    by destruct (JS.nonempty (subgraphName req')). }
  subst sn. unfold handleRequest. rewrite Hup. done.
Qed.

End RouteFallback.

Section RouteFallbackWitness.
Import Json.
Import Axios.
Import PassThroughHandler.
Import Server.

(** X25, at the introspection query for [products], healthy in the
    registry but refusing the connection, with the schema in the cache. *)
Lemma route_passthrough_never_falls_back_witness :
  exists res',
    handleRequest Examples.handler_products Examples.upstream_refused
      {| req_headers := headers Examples.introspection_proxy_request;
         req_body := body Examples.introspection_proxy_request |}
      fresh_response Examples.products_url None None
    = Some (res', Examples.handler_products)
    /\ res_status res' = Some 503.
Proof.
  eexists. split.
  - apply (route_passthrough_never_falls_back Examples.example_platform true
             Examples.http_up Examples.registry_products_healthy
             Examples.introspection_proxy_request Examples.products_url None None
             Examples.handler_products Examples.upstream_refused fresh_response
             Examples.econnrefused).
    + vm_compute. reflexivity.
    + reflexivity.
  - reflexivity.
Defined.

End RouteFallbackWitness.

(** ** The mock handler *)

Section MockHandlerFacts.
Import Json.
Import Axios.
Import PassThroughHandler.
Import MockHandler.

Context {Schema : Type}.

Lemma classify_code msg :
  fst (fst (classify msg)) = 400 \/ fst (fst (classify msg)) = 500.
Proof.
  unfold classify.
  destruct (includes "parse" msg || includes "syntax" msg); [by left|].
  destruct (includes "validation" msg); [by left|].
  destruct (includes "schema" msg); by right.
Qed.

Lemma handleError_answer e name res :
  res_headers (MockHandler.handleError e name res) = res_headers res
  /\ (res_status (MockHandler.handleError e name res) = Some 400
      \/ res_status (MockHandler.handleError e name res) = Some 500).
Proof.
  unfold MockHandler.handleError.
  pose proof (classify_code (err_message e)) as Hcode.
  destruct (classify (err_message e)) as [[code ec] msg]. simpl in *.
  split; [done|]. destruct Hcode as [-> | ->]; auto.
Qed.

Lemma mock_headers_get mode name res :
  getHeader "X-Mock-Response" (mock_headers mode name res) = Some (Single "true")
  /\ getHeader "X-Mock-Subgraph" (mock_headers mode name res) = Some (Single name)
  /\ getHeader "X-Proxy-Mode" (mock_headers mode name res) = Some (Single mode).
Proof.
  unfold mock_headers. rewrite !getHeader_setHeader. repeat split; reflexivity.
Qed.

(** The three shapes of an answer of the mock handler. *)
Lemma handleRequest_shapes (h : Handler Schema) (body : json) (res : Response)
    (name : string) :
  (exists e, fst (handleRequest h body res name) = MockHandler.handleError e name res)
  \/ (exists code payload,
        (code = 400 \/ code = 404)
        /\ fst (handleRequest h body res name) = send_json code payload res)
  \/ (exists mode payload,
        (mode = "mock"%string \/ mode = "mock-introspection"%string)
        /\ fst (handleRequest h body res name)
           = send_json 200 payload (mock_headers mode name res)).
Proof.
  unfold handleRequest.
  destruct (member body "query") as [query|]; [|left; by eexists].
  destruct (truthy query); simpl;
    [|right; left; eexists _, _; split; [by left|done]].
  destruct query as [| |b|n|q|items|fields];
    try (right; left; eexists _, _; split; [by left|done]).
  destruct (SchemaCache.getSchema _ _ _ name (schemaCache h)) as [[[err|s] c'] evs].
  - right; left. eexists _, _. split; [by right|done].
  - destruct (QueryUtils.isIntrospectionQuery q); simpl.
    + right; right. eexists _, _. split; [by right|done].
    + destruct (mockGenerator h name s q _ _) as [e|result]; simpl.
      * left. by eexists.
      * right; right. eexists _, _. split; [by left|done].
Qed.

(** X26.  The mock handler always answers, with status 200, 400, 404 or
    500.  Exactly the answers with status 200 carry the mock markers:
    [X-Mock-Response: true], the subgraph name in [X-Mock-Subgraph], and
    [X-Proxy-Mode] set to [mock] or [mock-introspection]; an error answer
    adds no header.  A request whose query is present but is not a
    non-empty string is refused with 400 before the schema cache is
    consulted. *)
Theorem mock_answer_status (h : Handler Schema) (body : json) (res : Response)
    (name : string) :
  getHeader "X-Mock-Response" res = None ->
  (exists code,
     res_status (fst (handleRequest h body res name)) = Some code
     /\ (code = 200 \/ code = 400 \/ code = 404 \/ code = 500)
     /\ (code = 200 <->
         getHeader "X-Mock-Response" (fst (handleRequest h body res name))
         = Some (Single "true"))
     /\ (code = 200 ->
         getHeader "X-Mock-Subgraph" (fst (handleRequest h body res name))
         = Some (Single name)
         /\ (getHeader "X-Proxy-Mode" (fst (handleRequest h body res name))
             = Some (Single "mock")
             \/ getHeader "X-Proxy-Mode" (fst (handleRequest h body res name))
                = Some (Single "mock-introspection")))
     /\ (code <> 200 ->
         res_headers (fst (handleRequest h body res name)) = res_headers res))
  /\ (forall v, member body "query" = Some v ->
        (forall q, v = JStr q -> q = ""%string) ->
        res_status (fst (handleRequest h body res name)) = Some 400
        /\ snd (handleRequest h body res name) = h).
Proof.
  intros Hfresh. split.
  - remember (fst (handleRequest h body res name)) as res' eqn:Hres.
    destruct (handleRequest_shapes h body res name)
      as [(e & He) | [(code & payload & Hcode & He)
                     | (mode & payload & Hmode & He)]];
      rewrite <- Hres in He; clear Hres; subst res'.
    + destruct (handleError_answer e name res) as [Hhdr Hcode].
      assert (Hget : getHeader "X-Mock-Response" (MockHandler.handleError e name res)
                     = None).
      { unfold getHeader in *. by rewrite Hhdr. }
      destruct Hcode as [Hc|Hc]; eexists; (split; [exact Hc|]);
        (split; [auto|]); (split; [split; [done|by rewrite Hget]|]);
        (split; [done|]); done.
    + exists code. split; [done|]. split; [destruct Hcode as [-> | ->]; auto|].
      rewrite getHeader_send_json, Hfresh.
      split; [split; [intros ->; by destruct Hcode|done]|].
      split; [intros ->; by destruct Hcode|done].
    + destruct (mock_headers_get mode name res) as (H1 & H2 & H3).
      exists 200. split; [done|]. split; [auto|].
      rewrite !getHeader_send_json, H1, H2, H3.
      split; [done|].
      split; [intros _; split; [done|]; destruct Hmode as [-> | ->]; auto|done].
  - intros v Hv Hq. unfold handleRequest. rewrite Hv.
    destruct (truthy v) eqn:Htruthy; simpl; [|done].
    destruct v as [| |b|n|q|items|fields]; try done.
    rewrite (Hq q eq_refl) in Htruthy. done.
Qed.

End MockHandlerFacts.

Section MockHandlerWitnesses.
Import Json.
Import PassThroughHandler.
Import MockHandler.

(** X26, at a query for [products] with the schema in the cache. *)
Lemma mock_answer_status_witness :
  res_status (fst (handleRequest Examples.mock_handler_products
                     Examples.typename_body fresh_response "products"))
  = Some 200
  /\ getHeader "X-Mock-Response"
       (fst (handleRequest Examples.mock_handler_products
               Examples.typename_body fresh_response "products"))
     = Some (Single "true").
Proof.
  destruct (mock_answer_status Examples.mock_handler_products
              Examples.typename_body fresh_response "products" eq_refl)
    as [(code & Hst & _ & Hiff & _) _].
  assert (Hcode : code = 200).
  { vm_compute in Hst. congruence. }
  rewrite Hcode in Hst, Hiff.
  split; [exact Hst|]. apply Hiff. reflexivity.
Defined.

End MockHandlerWitnesses.

(** ** Start-up: merging the platform's list with the local overrides *)

Section InitializerFacts.
Import Config.
Import SubgraphHealthMonitor.
Import SubgraphRegistry.
Import SchemaCache.
Import SubgraphInitializer.

Context {Schema : Type}.

Lemma register_apollo_none (l : list (string * option string)) :
  fold_left (register_apollo (Schema := Schema)) l None = None.
Proof. induction l as [|x l IH]; simpl; done. Qed.

Lemma apply_override_none (l : list (string * SubgraphConfigItem)) :
  fold_left (apply_override (Schema := Schema)) l None = None.
Proof. induction l as [|x l IH]; simpl; done. Qed.

Lemma obj_get_delete_ne {A : Type} (k k' : string) (o : list (string * A)) :
  k <> k' -> JS.obj_get k' (JS.obj_delete k o) = JS.obj_get k' o.
Proof.
  intros Hne. induction o as [|[k0 v0] o IH]; simpl; [done|].
  destruct (String.eqb k0 k) eqn:Hk.
  - apply String.eqb_eq in Hk as ->.
    destruct (String.eqb k k') eqn:Hk'; [|done].
    apply String.eqb_eq in Hk'. congruence.
  - simpl. by rewrite IH.
Qed.

(** What one registration leaves in the registry and in the monitor. *)
Lemma registry_register_facts name url cfg r r' :
  SubgraphRegistry.registerSubgraph name url cfg r = Some r' ->
  getSubgraphByName r' name = Some {| info_name := name; info_url := url |}
  /\ states (healthMonitor r') !! name
     = Some (initialState name url
               match cfg with Some c => c | None => DEFAULT_SUBGRAPH_CONFIG end)
  /\ (forall n, n <> name ->
        getSubgraphByName r' n = getSubgraphByName r n
        /\ states (healthMonitor r') !! n = states (healthMonitor r) !! n)
  /\ registry r' = JS.obj_set name {| info_name := name; info_url := url |} (registry r).
Proof.
  unfold SubgraphRegistry.registerSubgraph.
  destruct (negb (JS.truthy (Some name))); [done|].
  intros [= <-]. unfold getSubgraphByName. simpl.
  split; [by rewrite obj_get_set, String.eqb_refl|].
  split; [by rewrite registerSubgraph_states, lookup_insert_eq|].
  split; [|done].
  intros n Hn. split.
  - rewrite obj_get_set.
    destruct (String.eqb name n) eqn:Heq; [|done].
    apply String.eqb_eq in Heq. congruence.
  - by rewrite registerSubgraph_states, lookup_insert_ne.
Qed.

(** The first loop, over distinct names. *)
Lemma register_apollo_fold (apollo : list (string * option string)) :
  forall (r r1 : Registry) (c c1 : Cache Schema),
    NoDup (List.map fst apollo) ->
    fold_left register_apollo apollo (Some (r, c)) = Some (r1, c1) ->
    cache c1 = cache c /\ ttlMs c1 = ttlMs c
    /\ (forall name u, In (name, u) apollo ->
          getSubgraphByName r1 name
          = Some {| info_name := name; info_url := JS.nonempty u |}
          /\ states (healthMonitor r1) !! name
             = Some (initialState name (JS.nonempty u) DEFAULT_SUBGRAPH_CONFIG)
          /\ subgraphConfigs c1 !! name
             = Some (DEFAULT_SUBGRAPH_CONFIG, JS.nonempty u))
    /\ (forall n, ~ In n (List.map fst apollo) ->
          getSubgraphByName r1 n = getSubgraphByName r n
          /\ states (healthMonitor r1) !! n = states (healthMonitor r) !! n
          /\ subgraphConfigs c1 !! n = subgraphConfigs c !! n).
Proof.
  induction apollo as [|[name u] apollo IH]; intros r r1 c c1 Hnd Hfold.
  { simpl in Hfold. injection Hfold as <- <-.
    split; [done|]. split; [done|]. split; [by intros ? ? []|done]. }
  simpl in Hnd. apply NoDup_cons in Hnd as [Hname Hnd].
  simpl in Hfold.
  destruct (SubgraphRegistry.registerSubgraph name (JS.nonempty u) None r)
    as [r0|] eqn:Hreg; [|by rewrite register_apollo_none in Hfold].
  destruct (registry_register_facts _ _ _ _ _ Hreg) as (Hget & Hst & Hother & _).
  destruct (IH _ _ _ _ Hnd Hfold) as (Hcache & Httl & Hin & Hout).
  assert (Hnotin : ~ In name (List.map fst apollo)).
  { intros H. apply Hname. by apply list_elem_of_In. }
  split; [by rewrite Hcache|]. split; [by rewrite Httl|].
  split.
  - intros n u' [[= <- <-]|Hin']; [|by apply Hin].
    destruct (Hout name Hnotin) as (-> & -> & ->).
    split; [done|]. split; [done|]. simpl. by rewrite lookup_insert_eq.
  - intros n Hn.
    assert (Hne : n <> name) by (intros ->; apply Hn; by left).
    destruct (Hout n) as (-> & -> & ->); [intros ?; apply Hn; by right|].
    destruct (Hother n Hne) as [-> ->].
    split; [done|]. split; [done|]. simpl. by rewrite lookup_insert_ne.
Qed.

(** The second loop, over distinct names. *)
Lemma apply_override_fold (overrides : list (string * SubgraphConfigItem)) :
  forall (r r3 : Registry) (c c3 : Cache Schema),
    NoDup (List.map fst overrides) ->
    fold_left apply_override overrides (Some (r, c)) = Some (r3, c3) ->
    cache c3 = cache c /\ ttlMs c3 = ttlMs c
    /\ (forall name cfg, In (name, cfg) overrides ->
          getSubgraphByName r3 name
          = Some {| info_name := name; info_url := cfg_url cfg |}
          /\ states (healthMonitor r3) !! name
             = Some (initialState name (cfg_url cfg) cfg)
          /\ subgraphConfigs c3 !! name = Some (cfg, cfg_url cfg))
    /\ (forall n, ~ In n (List.map fst overrides) ->
          getSubgraphByName r3 n = getSubgraphByName r n
          /\ states (healthMonitor r3) !! n = states (healthMonitor r) !! n
          /\ subgraphConfigs c3 !! n = subgraphConfigs c !! n).
Proof.
  induction overrides as [|[name cfg] overrides IH]; intros r r3 c c3 Hnd Hfold.
  { simpl in Hfold. injection Hfold as <- <-.
    split; [done|]. split; [done|]. split; [by intros ? ? []|done]. }
  simpl in Hnd. apply NoDup_cons in Hnd as [Hname Hnd].
  cbn [fold_left apply_override fst snd] in Hfold.
  destruct (SubgraphRegistry.registerSubgraph name (cfg_url cfg) (Some cfg)
              (snd (unregisterSubgraph name r)))
    as [r0|] eqn:Hreg; [|by rewrite apply_override_none in Hfold].
  destruct (registry_register_facts _ _ _ _ _ Hreg) as (Hget & Hst & Hother & _).
  destruct (IH _ _ _ _ Hnd Hfold) as (Hcache & Httl & Hin & Hout).
  assert (Hnotin : ~ In name (List.map fst overrides)).
  { intros H. apply Hname. by apply list_elem_of_In. }
  split; [by rewrite Hcache|]. split; [by rewrite Httl|].
  split.
  - intros n cfg' [[= <- <-]|Hin']; [|by apply Hin].
    destruct (Hout name Hnotin) as (-> & -> & ->).
    split; [done|]. split; [done|]. simpl. by rewrite lookup_insert_eq.
  - intros n Hn.
    assert (Hne : n <> name) by (intros ->; apply Hn; by left).
    destruct (Hout n) as (-> & -> & ->); [intros ?; apply Hn; by right|].
    destruct (Hother n Hne) as [-> ->].
    split.
    { unfold unregisterSubgraph, getSubgraphByName. simpl.
      apply obj_get_delete_ne. congruence. }
    split; [done|]. simpl. by rewrite lookup_insert_ne.
Qed.

Lemma warmCache_configs (src : string -> Sources Schema) (now : string -> Z)
    (names : list string) : forall (c : Cache Schema) evs0,
  subgraphConfigs
    (fst (fold_left
            (fun acc name =>
               let '(_, c', evs) :=
                 loadAndCacheSchema (src name) (now name) name (fst acc) in
               (c', snd acc ++ evs))
            names (c, evs0)))
  = subgraphConfigs c.
Proof.
  induction names as [|a names IH]; intros c evs0; simpl; [done|].
  pose proof (loadAndCacheSchema_cases (src a) (now a) a c) as Hc.
  destruct (loadAndCacheSchema (src a) (now a) a c) as [[r c1] evs1]. simpl.
  rewrite IH.
  destruct (fst (loadFromSource (src a) a c)) as [err|[[s text] ver]];
    by injection Hc as -> -> ->.
Qed.

(** The overrides do not touch the cached schemas. *)
Lemma apply_override_cache (overrides : list (string * SubgraphConfigItem)) :
  forall (r r3 : Registry) (c c3 : Cache Schema),
    fold_left apply_override overrides (Some (r, c)) = Some (r3, c3) ->
    cache c3 = cache c.
Proof.
  induction overrides as [|[name cfg] overrides IH]; intros r r3 c c3 Hfold.
  - simpl in Hfold. by injection Hfold as <- <-.
  - cbn [fold_left apply_override fst snd] in Hfold.
    destruct (SubgraphRegistry.registerSubgraph name (cfg_url cfg) (Some cfg)
                (snd (unregisterSubgraph name r))) as [r0|];
      [|by rewrite apply_override_none in Hfold].
    by rewrite (IH _ _ _ _ Hfold).
Qed.

(** What [mergeAndRegister] is made of. *)
Lemma mergeAndRegister_inv (src : string -> Sources Schema) (now : string -> Z)
    apollo overrides (r r' : Registry) (c c' : Cache Schema) result evs :
  mergeAndRegister src now apollo overrides r c = Some (result, r', c', evs) ->
  exists r1 c1,
    fold_left register_apollo apollo (Some (r, c)) = Some (r1, c1)
    /\ fold_left apply_override overrides
         (Some (r1, fst (warmCache src now (List.map fst apollo) c1)))
       = Some (r', c')
    /\ result = {| totalSubgraphs := Z.of_nat (getSubgraphCount r');
                   fromApollo := Z.of_nat (getSubgraphCount r')
                                 - Z.of_nat (length overrides);
                   localOverrides := Z.of_nat (length overrides) |}.
Proof.
  unfold mergeAndRegister.
  destruct (fold_left register_apollo apollo (Some (r, c))) as [[r1 c1]|] eqn:H1;
    [|done].
  destruct (warmCache src now (List.map fst apollo) c1) as [c2 evs2] eqn:H2.
  destruct (fold_left apply_override overrides (Some (r1, c2))) as [[r3 c3]|] eqn:H3;
    [|done].
  intros Heq. injection Heq as <- <- <- <-.
  exists r1, c1. split; [done|]. rewrite H2. simpl. by split.
Qed.

(** X27.  After [mergeAndRegister], a subgraph named in the local file is
    registered with the configuration and the URL of the local file, the
    URL the platform published being dropped even when the local file
    gives none, and its health state is a fresh one; a subgraph that only
    the platform lists is registered with the default configuration and
    the platform's URL; the schema cache has recorded the same
    configurations. *)
Theorem mergeAndRegister_registers (src : string -> Sources Schema)
    (now : string -> Z) (apollo : list (string * option string))
    (overrides : list (string * SubgraphConfigItem))
    (r r' : Registry) (c c' : Cache Schema) (result : InitializationResult)
    (evs : list LoadEvent) :
  mergeAndRegister src now apollo overrides r c = Some (result, r', c', evs) ->
  NoDup (List.map fst apollo) ->
  NoDup (List.map fst overrides) ->
  (forall name cfg, In (name, cfg) overrides ->
     getSubgraphByName r' name
     = Some {| info_name := name; info_url := cfg_url cfg |}
     /\ states (healthMonitor r') !! name
        = Some (initialState name (cfg_url cfg) cfg)
     /\ subgraphConfigs c' !! name = Some (cfg, cfg_url cfg))
  /\ (forall name u, In (name, u) apollo ->
        ~ In name (List.map fst overrides) ->
        getSubgraphByName r' name
        = Some {| info_name := name; info_url := JS.nonempty u |}
        /\ states (healthMonitor r') !! name
           = Some (initialState name (JS.nonempty u) DEFAULT_SUBGRAPH_CONFIG)
        /\ subgraphConfigs c' !! name
           = Some (DEFAULT_SUBGRAPH_CONFIG, JS.nonempty u)).
Proof.
  intros Hrun Hnda Hndo.
  destruct (mergeAndRegister_inv _ _ _ _ _ _ _ _ _ _ Hrun)
    as (r1 & c1 & Hfold1 & Hfold2 & _).
  destruct (register_apollo_fold _ _ _ _ _ Hnda Hfold1) as (_ & _ & Hin1 & _).
  destruct (apply_override_fold _ _ _ _ _ Hndo Hfold2) as (_ & _ & Hin2 & Hout2).
  split; [done|].
  intros name u Hin Hnot.
  destruct (Hout2 name Hnot) as (-> & -> & ->).
  destruct (Hin1 name u Hin) as (-> & -> & Hcfg).
  split; [done|]. split; [done|].
  unfold warmCache. by rewrite warmCache_configs.
Qed.

(** X28.  After [mergeAndRegister], the schema cache holds, for every
    subgraph the platform lists, the schema fetched from the platform when
    that fetch succeeded (and what it held before when it failed), also
    for a subgraph that the local file overrides with a schema file or
    with local introspection; for every other name the cache is as
    before. *)
Theorem mergeAndRegister_cache (src : string -> Sources Schema)
    (now : string -> Z) (apollo : list (string * option string))
    (overrides : list (string * SubgraphConfigItem))
    (r r' : Registry) (c c' : Cache Schema) (result : InitializationResult)
    (evs : list LoadEvent) :
  mergeAndRegister src now apollo overrides r c = Some (result, r', c', evs) ->
  NoDup (List.map fst apollo) ->
  (forall name, In name (List.map fst apollo) ->
     cache c' !! name
     = match loadFromApollo (src name) name with
       | inr (s, text, ver) =>
           Some {| schema := s; entry_sdl := text; version := ver;
                   lastFetched := now name; expiresAt := now name + ttlMs c |}
       | inl _ => cache c !! name
       end)
  /\ (forall name, ~ In name (List.map fst apollo) ->
        cache c' !! name = cache c !! name).
Proof.
  intros Hrun Hnda.
  destruct (mergeAndRegister_inv _ _ _ _ _ _ _ _ _ _ Hrun)
    as (r1 & c1 & Hfold1 & Hfold2 & _).
  destruct (register_apollo_fold _ _ _ _ _ Hnda Hfold1) as (Hc1 & Httl1 & Hin1 & _).
  pose proof (apply_override_cache _ _ _ _ _ Hfold2) as Hc'.
  destruct (warmCache_fold src now (List.map fst apollo) c1 [] Hnda)
    as (_ & _ & Hout & Hin).
  fold (warmCache src now (List.map fst apollo) c1) in Hout, Hin.
  rewrite Hc'. split.
  - intros name Hname.
    rewrite (Hin name) by (by apply list_elem_of_In).
    apply in_map_iff in Hname as ([n u] & Heq & Hmem). simpl in Heq. subst n.
    destruct (Hin1 name u Hmem) as (_ & _ & Hcfg).
    unfold loadFromSource. rewrite Hcfg. simpl. by rewrite Httl1, Hc1.
  - intros name Hname.
    rewrite Hout; [by rewrite Hc1|].
    intros H. apply Hname. by apply list_elem_of_In.
Qed.

Lemma filter_all_true {A : Type} (p : A -> bool) (l : list A) :
  (forall x, In x l -> p x = true) -> List.filter p l = l.
Proof.
  induction l as [|a l IH]; simpl; intros H; [done|].
  rewrite (H a (or_introl eq_refl)). f_equal. apply IH. intros x Hx. apply H. by right.
Qed.

(** The keys of a [Map] after [delete] and after [set] of a fresh key. *)
Lemma obj_delete_keys {A : Type} (k : string) (o : list (string * A)) :
  NoDup (List.map fst o) ->
  List.map fst (JS.obj_delete k o)
  = List.filter (fun n => negb (String.eqb n k)) (List.map fst o).
Proof.
  induction o as [|[k0 v0] o IH]; simpl; intros Hnd; [done|].
  apply NoDup_cons in Hnd as [Hk0 Hnd].
  destruct (String.eqb k0 k) eqn:Hk; simpl.
  - apply String.eqb_eq in Hk as ->.
    symmetry. apply filter_all_true. intros x Hx.
    apply negb_true_iff, String.eqb_neq. intros ->.
    apply Hk0. by apply list_elem_of_In.
  - f_equal. by apply IH.
Qed.

Lemma obj_set_keys_fresh {A : Type} (k : string) (v : A) (o : list (string * A)) :
  ~ In k (List.map fst o) ->
  List.map fst (JS.obj_set k v o) = List.map fst o ++ [k].
Proof. intros Hk. rewrite obj_set_fresh by done. by rewrite map_app. Qed.

Lemma filter_not_in (k : string) (l : list string) :
  ~ In k (List.filter (fun n => negb (String.eqb n k)) l).
Proof.
  intros [_ Hk]%filter_In. by rewrite String.eqb_refl in Hk.
Qed.

Lemma filter_override_step (name : string) (rest l : list string) :
  List.filter (fun n => negb (existsb (String.eqb n) rest))
    (List.filter (fun n => negb (String.eqb n name)) l)
  = List.filter (fun n => negb (existsb (String.eqb n) (name :: rest))) l.
Proof.
  induction l as [|a l IH]; simpl; [done|].
  destruct (String.eqb a name); simpl; [done|].
  destruct (existsb (String.eqb a) rest); simpl; by rewrite IH.
Qed.

Lemma obj_delete_In_weak {A : Type} (k : string) (o : list (string * A)) k' v' :
  In (k', v') (JS.obj_delete k o) -> In (k', v') o.
Proof.
  induction o as [|[k0 v0] o IH]; simpl; [done|].
  destruct (String.eqb k0 k); [by right|].
  intros [?|?]; [by left|right; by apply IH].
Qed.

(** Every entry is filed under the name it carries. *)
Lemma registry_register_named name url cfg r r' :
  SubgraphRegistry.registerSubgraph name url cfg r = Some r' ->
  (forall k s, In (k, s) (registry r) -> info_name s = k) ->
  forall k s, In (k, s) (registry r') -> info_name s = k.
Proof.
  intros Hreg Hwf k s Hin.
  destruct (registry_register_facts _ _ _ _ _ Hreg) as (_ & _ & _ & Hr').
  rewrite Hr' in Hin. apply obj_set_In_weak in Hin as [[-> ->]|Hin]; [done|].
  by apply Hwf.
Qed.

Lemma register_apollo_named (apollo : list (string * option string)) :
  forall (r r1 : Registry) (c c1 : Cache Schema),
    fold_left register_apollo apollo (Some (r, c)) = Some (r1, c1) ->
    (forall k s, In (k, s) (registry r) -> info_name s = k) ->
    forall k s, In (k, s) (registry r1) -> info_name s = k.
Proof.
  induction apollo as [|[name u] apollo IH]; intros r r1 c c1 Hfold Hwf.
  { simpl in Hfold. by injection Hfold as <- <-. }
  cbn [fold_left register_apollo fst snd] in Hfold.
  destruct (SubgraphRegistry.registerSubgraph name (JS.nonempty u) None r)
    as [r0|] eqn:Hreg; [|by rewrite register_apollo_none in Hfold].
  apply (IH _ _ _ _ Hfold). by apply (registry_register_named _ _ _ _ _ Hreg).
Qed.

Lemma apply_override_named (overrides : list (string * SubgraphConfigItem)) :
  forall (r r3 : Registry) (c c3 : Cache Schema),
    fold_left apply_override overrides (Some (r, c)) = Some (r3, c3) ->
    (forall k s, In (k, s) (registry r) -> info_name s = k) ->
    forall k s, In (k, s) (registry r3) -> info_name s = k.
Proof.
  induction overrides as [|[name cfg] overrides IH]; intros r r3 c c3 Hfold Hwf.
  { simpl in Hfold. by injection Hfold as <- <-. }
  cbn [fold_left apply_override fst snd] in Hfold.
  destruct (SubgraphRegistry.registerSubgraph name (cfg_url cfg) (Some cfg)
              (snd (unregisterSubgraph name r)))
    as [r0|] eqn:Hreg; [|by rewrite apply_override_none in Hfold].
  apply (IH _ _ _ _ Hfold). apply (registry_register_named _ _ _ _ _ Hreg).
  intros k s Hin. simpl in Hin. apply obj_delete_In_weak in Hin. by apply Hwf.
Qed.

(** The registration order after the first loop. *)
Lemma register_apollo_keys (apollo : list (string * option string)) :
  forall (r r1 : Registry) (c c1 : Cache Schema),
    NoDup (List.map fst (registry r) ++ List.map fst apollo) ->
    fold_left register_apollo apollo (Some (r, c)) = Some (r1, c1) ->
    List.map fst (registry r1) = List.map fst (registry r) ++ List.map fst apollo.
Proof.
  induction apollo as [|[name u] apollo IH]; intros r r1 c c1 Hnd Hfold.
  { simpl in Hfold. injection Hfold as <- <-. by rewrite app_nil_r. }
  cbn [fold_left register_apollo fst snd] in Hfold.
  destruct (SubgraphRegistry.registerSubgraph name (JS.nonempty u) None r)
    as [r0|] eqn:Hreg; [|by rewrite register_apollo_none in Hfold].
  destruct (registry_register_facts _ _ _ _ _ Hreg) as (_ & _ & _ & Hr0).
  simpl in Hnd.
  assert (Hfresh : ~ In name (List.map fst (registry r))).
  { intros Hin. apply NoDup_app in Hnd as (_ & Hdisj & _).
    apply (Hdisj name); [by apply list_elem_of_In|]. apply list_elem_of_here. }
  assert (Hkeys0 : List.map fst (registry r0) = List.map fst (registry r) ++ [name]).
  { rewrite Hr0. by apply obj_set_keys_fresh. }
  rewrite (IH _ _ _ _ ltac:(rewrite Hkeys0, <- app_assoc; exact Hnd) Hfold).
  by rewrite Hkeys0, <- app_assoc.
Qed.

(** The registration order after the second loop: an overridden name
    leaves its place and goes last. *)
Lemma apply_override_keys (overrides : list (string * SubgraphConfigItem)) :
  forall (r r3 : Registry) (c c3 : Cache Schema),
    NoDup (List.map fst overrides) ->
    NoDup (List.map fst (registry r)) ->
    fold_left apply_override overrides (Some (r, c)) = Some (r3, c3) ->
    List.map fst (registry r3)
    = List.filter (fun n => negb (existsb (String.eqb n) (List.map fst overrides)))
        (List.map fst (registry r))
      ++ List.map fst overrides.
Proof.
  induction overrides as [|[name cfg] overrides IH]; intros r r3 c c3 Hndo Hndr Hfold.
  { simpl in Hfold. injection Hfold as <- <-. simpl.
    rewrite app_nil_r. symmetry. by apply filter_all_true. }
  cbn [fold_left apply_override fst snd] in Hfold.
  destruct (SubgraphRegistry.registerSubgraph name (cfg_url cfg) (Some cfg)
              (snd (unregisterSubgraph name r)))
    as [r0|] eqn:Hreg; [|by rewrite apply_override_none in Hfold].
  destruct (registry_register_facts _ _ _ _ _ Hreg) as (_ & _ & _ & Hr0).
  simpl in Hr0, Hndo. apply NoDup_cons in Hndo as [Hname Hndo].
  assert (Hkeys0 : List.map fst (registry r0)
                   = List.filter (fun n => negb (String.eqb n name))
                       (List.map fst (registry r)) ++ [name]).
  { rewrite Hr0, obj_set_keys_fresh; rewrite obj_delete_keys by done;
      [done|apply filter_not_in]. }
  assert (Hnd0 : NoDup (List.map fst (registry r0))).
  { rewrite Hr0. by apply obj_set_NoDup, obj_delete_NoDup. }
  rewrite (IH _ _ _ _ Hndo Hnd0 Hfold), Hkeys0.
  rewrite List.filter_app, filter_override_step. cbn [List.filter].
  assert (Hrest : existsb (String.eqb name) (List.map fst overrides) = false).
  { apply not_true_iff_false. intros [x [Hx Heq]]%existsb_exists.
    apply String.eqb_eq in Heq as <-. apply Hname. by apply list_elem_of_In. }
  rewrite Hrest. cbn [negb]. by rewrite <- app_assoc.
Qed.

(** X29.  [mergeAndRegister] on an empty registry, with distinct names in
    each list: afterwards the registry lists first the subgraphs that only
    the platform names, in the platform's order, then every subgraph of
    the local file, in the order of its entries; [localOverrides] is the number of
    entries of the local file, whether the platform names them or not,
    [fromApollo] the number of subgraphs that only the platform names, and
    [totalSubgraphs] their sum. *)
Theorem mergeAndRegister_order (src : string -> Sources Schema)
    (now : string -> Z) (apollo : list (string * option string))
    (overrides : list (string * SubgraphConfigItem))
    (r r' : Registry) (c c' : Cache Schema) (result : InitializationResult)
    (evs : list LoadEvent) :
  mergeAndRegister src now apollo overrides r c = Some (result, r', c', evs) ->
  registry r = [] ->
  NoDup (List.map fst apollo) ->
  NoDup (List.map fst overrides) ->
  List.map info_name (getAllSubgraphs r')
  = List.filter (fun n => negb (existsb (String.eqb n) (List.map fst overrides)))
      (List.map fst apollo)
    ++ List.map fst overrides
  /\ localOverrides result = Z.of_nat (length overrides)
  /\ fromApollo result
     = Z.of_nat (length (List.filter
                           (fun n => negb (existsb (String.eqb n)
                                             (List.map fst overrides)))
                           (List.map fst apollo)))
  /\ totalSubgraphs result = fromApollo result + localOverrides result.
Proof.
  intros Hrun Hempty Hnda Hndo.
  destruct (mergeAndRegister_inv _ _ _ _ _ _ _ _ _ _ Hrun)
    as (r1 & c1 & Hfold1 & Hfold2 & ->).
  pose proof (register_apollo_keys apollo r r1 c c1) as Hk1.
  rewrite Hempty in Hk1. simpl in Hk1. specialize (Hk1 Hnda Hfold1).
  pose proof (apply_override_keys overrides r1 r' _ _ Hndo
                ltac:(rewrite Hk1; exact Hnda) Hfold2) as Hk3.
  rewrite Hk1 in Hk3.
  assert (Hlen : getSubgraphCount r'
                 = (length (List.filter
                              (fun n => negb (existsb (String.eqb n)
                                                (List.map fst overrides)))
                              (List.map fst apollo))
                    + length overrides)%nat).
  { unfold getSubgraphCount.
    rewrite <- (length_map fst (registry r')), Hk3, length_app, length_map. done. }
  split.
  - rewrite <- Hk3. unfold getAllSubgraphs. rewrite map_map.
    assert (Hwf : forall k s, In (k, s) (registry r') -> info_name s = k).
    { apply (apply_override_named overrides r1 r' _ _ Hfold2).
      apply (register_apollo_named apollo r r1 c c1 Hfold1).
      rewrite Hempty. by intros k s []. }
    clear - Hwf. induction (registry r') as [|[k s] l IH]; simpl; [done|].
    rewrite (Hwf k s (or_introl eq_refl)). f_equal. apply IH.
    intros k' s' Hin. apply Hwf. by right.
  - simpl. rewrite Hlen. split; [done|]. split; lia.
Qed.

End InitializerFacts.

Section InitializerWitnesses.
Import Config.
Import SubgraphHealthMonitor.
Import SubgraphRegistry.
Import SchemaCache.
Import SubgraphInitializer.

Lemma example_names_distinct :
  NoDup (List.map fst Examples.apollo_subgraphs)
  /\ NoDup (List.map fst Examples.local_overrides).
Proof. split; apply (bool_decide_unpack _); vm_compute; exact I. Qed.

(** X27, at the example lists: [reviews] ends up with the local
    configuration and without the URL the platform published. *)
Lemma mergeAndRegister_registers_witness :
  exists result r' c' evs,
    mergeAndRegister (fun _ => Examples.example_sources) (fun _ => 1000)
      Examples.apollo_subgraphs Examples.local_overrides
      Examples.empty_registry Examples.empty_cache
    = Some (result, r', c', evs)
    /\ getSubgraphByName r' "reviews"
       = Some {| info_name := "reviews"; info_url := None |}
    /\ subgraphConfigs c' !! "reviews" = Some (Examples.cfg_local_file, None).
Proof.
  destruct (mergeAndRegister (fun _ => Examples.example_sources) (fun _ => 1000)
              Examples.apollo_subgraphs Examples.local_overrides
              Examples.empty_registry Examples.empty_cache)
    as [[[[result r'] c'] evs]|] eqn:Hrun; [|vm_compute in Hrun; discriminate Hrun].
  destruct example_names_distinct as [Hnda Hndo].
  destruct (mergeAndRegister_registers _ _ _ _ _ _ _ _ _ _ Hrun Hnda Hndo)
    as [Hlocal _].
  destruct (Hlocal "reviews"%string Examples.cfg_local_file (or_introl eq_refl))
    as (Hget & _ & Hcfg).
  exists result, r', c', evs. split; [reflexivity|]. split; [exact Hget|exact Hcfg].
Defined.

(** X28, at the example lists: the cache holds the platform's schema for
    [reviews], which the local file overrides with a schema file. *)
Lemma mergeAndRegister_cache_witness :
  exists result r' c' evs,
    mergeAndRegister (fun _ => Examples.example_sources) (fun _ => 1000)
      Examples.apollo_subgraphs Examples.local_overrides
      Examples.empty_registry Examples.empty_cache
    = Some (result, r', c', evs)
    /\ cache c' !! "reviews"
       = Some {| schema := Examples.products_sdl; entry_sdl := Examples.products_sdl;
                 version := "v1"; lastFetched := 1000; expiresAt := 301000 |}
    /\ cache c' !! "orders" = None.
Proof.
  destruct (mergeAndRegister (fun _ => Examples.example_sources) (fun _ => 1000)
              Examples.apollo_subgraphs Examples.local_overrides
              Examples.empty_registry Examples.empty_cache)
    as [[[[result r'] c'] evs]|] eqn:Hrun; [|vm_compute in Hrun; discriminate Hrun].
  destruct example_names_distinct as [Hnda _].
  destruct (mergeAndRegister_cache _ _ _ _ _ _ _ _ _ _ Hrun Hnda) as [Hin Hout].
  exists result, r', c', evs. split; [reflexivity|]. split.
  - rewrite (Hin "reviews"%string); [reflexivity|]. simpl. auto.
  - rewrite (Hout "orders"%string); [reflexivity|].
    simpl. intros [H|[H|[H|[]]]]; discriminate H.
Defined.

(** X29, at the example lists: two subgraphs from the platform alone,
    then the two of the local file. *)
Lemma mergeAndRegister_order_witness :
  exists result r' c' evs,
    mergeAndRegister (fun _ => Examples.example_sources) (fun _ => 1000)
      Examples.apollo_subgraphs Examples.local_overrides
      Examples.empty_registry Examples.empty_cache
    = Some (result, r', c', evs)
    /\ List.map info_name (getAllSubgraphs r')
       = ["products"; "inventory"; "reviews"; "orders"]%string
    /\ totalSubgraphs result = 4 /\ fromApollo result = 2
    /\ localOverrides result = 2.
Proof.
  destruct (mergeAndRegister (fun _ => Examples.example_sources) (fun _ => 1000)
              Examples.apollo_subgraphs Examples.local_overrides
              Examples.empty_registry Examples.empty_cache)
    as [[[[result r'] c'] evs]|] eqn:Hrun; [|vm_compute in Hrun; discriminate Hrun].
  destruct example_names_distinct as [Hnda Hndo].
  destruct (mergeAndRegister_order _ _ _ _ _ _ _ _ _ _ Hrun eq_refl Hnda Hndo)
    as (Horder & Hlocal & Hapollo & Htotal).
  exists result, r', c', evs. split; [reflexivity|].
  split; [exact Horder|].
  rewrite Htotal, Hapollo, Hlocal. repeat split; reflexivity.
Defined.

End InitializerWitnesses.
